(** * next-server-wrap: the request pipeline and its middleware

    A shallow embedding of the TypeScript sources: [withRetry]
    (middleware/retry.ts), [checkRateLimit] (middleware/rate-limit.ts),
    the response cache (middleware/cache.ts), [ApiError] and [ApiResponse],
    [handleError] (wrapper/error-handler.ts), the unified [runPipeline]
    (wrapper/pipeline.ts) and the two wrappers built on it
    (wrapper/api/index.ts, wrapper/action/index.ts).

    Promises are run to completion in program order.  Everything an
    invocation can observe or change outside its own variables lives in
    a [World]: the clock read by [Date.now()], the calls received by the
    logger adapter, the contents of the cache adapter, and counters for
    the calls made to the business handler and to the auth adapter. *)

From Stdlib Require Import ZArith List String Ascii Bool Lia DecimalString.
From stdpp Require Import base strings gmap.
Import ListNotations.

Local Open Scope Z_scope.
Local Set Warnings "-register-all".

(** ** JavaScript values *)

(** The values the wrappers move around without looking inside
    ([unknown] in the sources): handler results, raw and validated
    inputs, response bodies before [JSON.stringify]. *)
Inductive Json : Type :=
| JUndefined
| JNull
| JBool (b : bool)
| JNum (n : Z)
| JStr (s : string)
| JArr (items : list Json)
| JObj (fields : list (string * Json)).

(** [String(n)] for an integer [n]. *)
Definition String_of_number (n : Z) : string :=
  NilZero.string_of_int (Z.to_int n).

(** ** error.ts *)

Record ValidationErrorDetail : Type := {
  detail_field : string;
  detail_message : string
}.

(** [class ApiError extends Error]: message, status, code and the
    optional field-level details. *)
Record ApiError : Type := {
  err_message : string;
  err_status : Z;
  err_code : string;
  err_errors : option (list ValidationErrorDetail)
}.

(** What a [throw] can carry: an [ApiError], any other [Error] (its
    name and message), or a value that is no [Error] at all. *)
Inductive Primitive : Type :=
| PUndefined
| PNull
| PBool (b : bool)
| PNum (n : Z)
| PStr (s : string).

Inductive Thrown : Type :=
| ThrownApiError (e : ApiError)
| ThrownError (name : string) (msg : string)
| ThrownValue (v : Primitive).

(** [ApiError.isApiError(error)]: [error instanceof ApiError]. *)
Definition isApiError (error : Thrown) : bool :=
  match error with
  | ThrownApiError _ => true
  | _ => false
  end.

(** [error instanceof Error]. *)
Definition instanceofError (error : Thrown) : bool :=
  match error with
  | ThrownApiError _ | ThrownError _ _ => true
  | ThrownValue _ => false
  end.

(** [String(error)] for a thrown value that is no [Error]. *)
Definition String_of_primitive (v : Primitive) : string :=
  match v with
  | PUndefined => "undefined"
  | PNull => "null"
  | PBool true => "true"
  | PBool false => "false"
  | PNum n => String_of_number n
  | PStr s => s
  end.

(** What a call settles with: a value, or a throw. *)
Inductive Outcome (A : Type) : Type :=
| Ok (value : A)
| Throw (error : Thrown).
Arguments Ok {A} value.
Arguments Throw {A} error.

(** ** response.ts: the throwable errors of [ApiResponse] *)

Module ApiResponse.

Definition error (message : string) (status : option Z) (code : option string) : ApiError :=
  {| err_message := message;
     err_status := default 400 status;
     err_code := match code with
                 | Some c => if String.eqb c EmptyString then "BAD_REQUEST" else c
                 | None => "BAD_REQUEST"
                 end;
     err_errors := None |}.

Definition badRequest (message : option string) : ApiError :=
  {| err_message := default "Bad request"%string message;
     err_status := 400; err_code := "BAD_REQUEST"; err_errors := None |}.

Definition unauthorized (message : option string) : ApiError :=
  {| err_message := default "Authentication required"%string message;
     err_status := 401; err_code := "UNAUTHORIZED"; err_errors := None |}.

Definition forbidden (message : option string) : ApiError :=
  {| err_message := default "Access denied"%string message;
     err_status := 403; err_code := "FORBIDDEN"; err_errors := None |}.

Definition notFound (message : option string) : ApiError :=
  {| err_message := default "Resource not found"%string message;
     err_status := 404; err_code := "NOT_FOUND"; err_errors := None |}.

Definition tooManyRequests (message : option string) : ApiError :=
  {| err_message := default "Rate limit exceeded"%string message;
     err_status := 429; err_code := "TOO_MANY_REQUESTS"; err_errors := None |}.

Definition internalError (message : option string) : ApiError :=
  {| err_message := default "Internal server error"%string message;
     err_status := 500; err_code := "INTERNAL_ERROR"; err_errors := None |}.

End ApiResponse.

(** ** The Fetch [Headers] and [Response] objects

    A [Headers] object is its header list: lower-cased names in the
    order they were appended.  A record of strings (a [HeadersInit]
    literal, the [headers] field of a cached envelope) is a list of
    distinct keys in insertion order. *)

Definition lower_ascii (c : ascii) : ascii :=
  let n := nat_of_ascii c in
  if ((65 <=? n)%nat && (n <=? 90)%nat)%bool then ascii_of_nat (n + 32) else c.

Fixpoint lower (s : string) : string :=
  match s with
  | EmptyString => EmptyString
  | String c s' => String (lower_ascii c) (lower s')
  end.

Definition StringRecord : Type := list (string * string).

(** What a key of an object literal does to the record built so far,
    an earlier spread included: the key is defined with its value, and
    an existing key keeps its place. *)
Fixpoint record_set (key value : string) (r : StringRecord) : StringRecord :=
  match r with
  | [] => [(key, value)]
  | (k, v) :: r' =>
      if String.eqb k key then (k, value) :: r' else (k, v) :: record_set key value r'
  end.

(** [record[key] = value] on a plain object.  An assignment to
    [__proto__] goes to the setter of [Object.prototype], which ignores
    a value that is no object: no own key is made. *)
Definition record_assign (key value : string) (r : StringRecord) : StringRecord :=
  if String.eqb key "__proto__" then r else record_set key value r.

Definition Headers : Type := list (string * string).

Definition Headers_has (name : string) (h : Headers) : bool :=
  existsb (fun kv => String.eqb (fst kv) (lower name)) h.

Definition Headers_append (name value : string) (h : Headers) : Headers :=
  h ++ [(lower name, value)].

(** [headers.get(name)]: the values of all headers of that name, joined
    with a comma and a space; [null] when there is none. *)
Definition Headers_get (name : string) (h : Headers) : option string :=
  match List.filter (fun kv => String.eqb (fst kv) (lower name)) h with
  | [] => None
  | kvs => Some (String.concat ", " (map snd kvs))
  end.

Fixpoint Headers_replace_first (name value : string) (h : Headers) : Headers :=
  match h with
  | [] => []
  | (k, v) :: h' =>
      if String.eqb k name
      then (k, value) :: List.filter (fun kv => negb (String.eqb (fst kv) name)) h'
      else (k, v) :: Headers_replace_first name value h'
  end.

(** [headers.set(name, value)]. *)
Definition Headers_set (name value : string) (h : Headers) : Headers :=
  if Headers_has name h
  then Headers_replace_first (lower name) value h
  else Headers_append name value h.

(** [new Headers(record)]: one append per own key, in key order. *)
Definition Headers_of_record (r : StringRecord) : Headers :=
  fold_left (fun h kv => Headers_append (fst kv) (snd kv) h) r [].

Fixpoint insert_sorted (kv : string * string) (l : list (string * string)) : list (string * string) :=
  match l with
  | [] => [kv]
  | kv' :: l' =>
      if String.leb (fst kv) (fst kv') then kv :: l else kv' :: insert_sorted kv l'
  end.

Fixpoint combine_names (names : list string) (h : Headers) : list (string * string) :=
  match names with
  | [] => []
  | n :: names' =>
      match Headers_get n h with
      | Some v => (n, v) :: combine_names names' h
      | None => combine_names names' h
      end
  end.

Fixpoint dedup_names (names : list string) : list string :=
  match names with
  | [] => []
  | n :: names' =>
      if existsb (String.eqb n) names' then dedup_names names' else n :: dedup_names names'
  end.

(** What [headers.forEach] visits: each name once, its values combined,
    names in ascending order. *)
Definition Headers_entries (h : Headers) : list (string * string) :=
  fold_right insert_sorted [] (combine_names (dedup_names (map fst h)) h).

(** A [Response]: the body is kept as the value whose text the response
    carries ([JSON.stringify] of it for the responses built here). *)
Record Response : Type := {
  resp_body : Json;
  resp_status : Z;
  resp_headers : Headers
}.

(** The statuses with which a response carries no body. *)
Definition nullBodyStatus (status : Z) : bool :=
  existsb (Z.eqb status) [101; 103; 204; 205; 304].

(** [new Response(body, { status, headers })].  The constructor throws
    a RangeError for a status outside 200..599, and a TypeError for a
    body that is not [null] with a null body status; [hasBody] tells
    whether the body passed is not [null].  The names of the two errors
    are the platform's; their messages, which differ between platforms
    and which nothing here reads, are kept short. *)
Definition Response_init (hasBody : bool) (body : Json) (status : Z) (headers : StringRecord)
    : Outcome Response :=
  if ((status <? 200) || (599 <? status))%bool
  then Throw (ThrownError "RangeError" "status must be in the range of 200 to 599")
  else if (nullBodyStatus status && hasBody)%bool
  then Throw (ThrownError "TypeError" "invalid response status code")
  else Ok {| resp_body := body; resp_status := status;
             resp_headers := Headers_of_record headers |}.

(** [new Response(JSON.stringify(body), { status, headers })]:
    [JSON.stringify(undefined)] is [undefined], no body. *)
Definition Response_new (body : Json) (status : Z) (headers : StringRecord) : Outcome Response :=
  Response_init (match body with JUndefined => false | _ => true end) body status headers.

(** [response.headers.set(name, value)]. *)
Definition Response_set_header (name value : string) (r : Response) : Response :=
  {| resp_body := resp_body r;
     resp_status := resp_status r;
     resp_headers := Headers_set name value (resp_headers r) |}.

(** ** response.ts: transformers and the envelope *)

Record ResponseTransformers : Type := {
  tr_success : option (Json -> Z -> Json);
  tr_error : option (string -> string -> Z -> option (list ValidationErrorDetail) -> Json)
}.

Definition detail_to_json (d : ValidationErrorDetail) : Json :=
  JObj [("field", JStr (detail_field d)); ("message", JStr (detail_message d))].

Definition default_success (data : Json) (_status : Z) : Json :=
  JObj [("success", JBool true); ("data", data)].

Definition default_error (message code : string) (_status : Z)
    (errors : option (list ValidationErrorDetail)) : Json :=
  let response := [("success", JBool false); ("message", JStr message); ("code", JStr code)] in
  match errors with
  | Some (d :: ds) => JObj (response ++ [("errors", JArr (map detail_to_json (d :: ds)))])
  | _ => JObj response
  end.

Definition defaultTransformers : ResponseTransformers :=
  {| tr_success := Some default_success; tr_error := Some default_error |}.

(** The module-level [globalTransformers] is read, never written, by the
    wrappers; it is a parameter ([globalT]) of what reads it.  Both its
    fields are set ([Required<ResponseTransformers>]), so the fallbacks
    below are never reached for a well-formed global. *)
Definition pick_success (t : option ResponseTransformers) (globalT : ResponseTransformers)
    : Json -> Z -> Json :=
  match t with
  | Some {| tr_success := Some f |} => f
  | _ => default default_success (tr_success globalT)
  end.

Definition pick_error (t : option ResponseTransformers) (globalT : ResponseTransformers)
    : string -> string -> Z -> option (list ValidationErrorDetail) -> Json :=
  match t with
  | Some {| tr_error := Some f |} => f
  | _ => default default_error (tr_error globalT)
  end.

Definition ApiResponse_success (globalT : ResponseTransformers) (data : Json) (status : Z)
    (transformers : option ResponseTransformers) : Outcome Response :=
  Response_new (pick_success transformers globalT data status) status
    [("Content-Type", "application/json")]%string.

Definition createErrorResponse (globalT : ResponseTransformers) (error : ApiError)
    (transformers : option ResponseTransformers) : Outcome Response :=
  Response_new
    (pick_error transformers globalT (err_message error) (err_code error)
       (err_status error) (err_errors error))
    (err_status error)
    [("Content-Type", "application/json")]%string.

(** wrapper/error-handler.ts *)
Definition getEffectiveTransformers (globalT : ResponseTransformers)
    (instanceTransformers : option ResponseTransformers) : ResponseTransformers :=
  {| tr_success := Some (pick_success instanceTransformers globalT);
     tr_error := Some (pick_error instanceTransformers globalT) |}.

(** ** types.ts: users, the audit event, the logger adapter *)

(** [BaseUser]: an [id] that is a string or a number, and any other
    fields. *)
Inductive UserId : Type :=
| IdString (s : string)
| IdNumber (n : Z).

Record BaseUser : Type := {
  user_id : UserId;
  user_fields : list (string * Json)
}.

(** pipeline.ts: [ANONYMOUS_USER = { id: '' }]. *)
Definition ANONYMOUS_USER : BaseUser :=
  {| user_id := IdString EmptyString; user_fields := [] |}.

(** The fields of [AuditEvent] that the pipeline sets; it never sets
    [resourceId], [ip], [userAgent] or [meta]. *)
Record AuditEvent : Type := {
  audit_requestId : string;
  audit_user : BaseUser;
  audit_action : string;
  audit_resource : string;
  audit_durationMs : Z;
  audit_status : Z;
  audit_success : bool;
  audit_errorCode : option string;
  audit_timestamp : Z
}.

Definition Meta : Type := list (string * Json).

(** One call received by the logger adapter. *)
Inductive LogCall : Type :=
| LogDebug (message : string) (meta : Meta)
| LogInfo (message : string) (meta : Meta)
| LogWarn (message : string) (meta : Meta)
| LogError (message : string) (error : option Thrown) (meta : Meta)
| LogAudit (event : AuditEvent).

Definition is_audit (c : LogCall) : bool :=
  match c with LogAudit _ => true | _ => false end.

Definition is_warn (c : LogCall) : bool :=
  match c with LogWarn _ _ => true | _ => false end.

Definition is_error_level (c : LogCall) : bool :=
  match c with LogError _ _ _ => true | _ => false end.

(** middleware/cache.ts: the stored envelope. *)
Record CachedResponse : Type := {
  cached_body : Json;
  cached_status : Z;
  cached_headers : StringRecord
}.

(** ** The world of an invocation *)

Record World : Type := {
  now : Z;                                (* Date.now(), in ms *)
  logs : list LogCall;                    (* logger calls, oldest first *)
  handlerCalls : nat;                     (* invocations of the business handler *)
  verifyCalls : nat;                      (* calls of the auth adapter's verify *)
  sleeps : list Z;                        (* delays awaited through setTimeout *)
  counters : gmap string Z;               (* cache adapter: keys of increment *)
  store : gmap string CachedResponse      (* cache adapter: keys of get/set *)
}.

Definition set_now (t : Z) (w : World) : World :=
  {| now := t; logs := logs w; handlerCalls := handlerCalls w; verifyCalls := verifyCalls w;
     sleeps := sleeps w; counters := counters w; store := store w |}.

Definition add_log (c : LogCall) (w : World) : World :=
  {| now := now w; logs := logs w ++ [c]; handlerCalls := handlerCalls w;
     verifyCalls := verifyCalls w; sleeps := sleeps w; counters := counters w;
     store := store w |}.

Definition add_handlerCall (w : World) : World :=
  {| now := now w; logs := logs w; handlerCalls := S (handlerCalls w);
     verifyCalls := verifyCalls w; sleeps := sleeps w; counters := counters w;
     store := store w |}.

Definition add_verifyCall (w : World) : World :=
  {| now := now w; logs := logs w; handlerCalls := handlerCalls w;
     verifyCalls := S (verifyCalls w); sleeps := sleeps w; counters := counters w;
     store := store w |}.

Definition add_sleep (d : Z) (w : World) : World :=
  {| now := now w; logs := logs w; handlerCalls := handlerCalls w;
     verifyCalls := verifyCalls w; sleeps := sleeps w ++ [d]; counters := counters w;
     store := store w |}.

Definition set_counters (c : gmap string Z) (w : World) : World :=
  {| now := now w; logs := logs w; handlerCalls := handlerCalls w;
     verifyCalls := verifyCalls w; sleeps := sleeps w; counters := c; store := store w |}.

Definition set_store (s : gmap string CachedResponse) (w : World) : World :=
  {| now := now w; logs := logs w; handlerCalls := handlerCalls w;
     verifyCalls := verifyCalls w; sleeps := sleeps w; counters := counters w; store := s |}.

(** ** Promises: a state and exception monad over the world *)

Definition M (A : Type) : Type := World -> Outcome A * World.

Definition ret {A} (a : A) : M A := fun w => (Ok a, w).

Definition throw {A} (error : Thrown) : M A := fun w => (Throw error, w).

Definition bind {A B} (m : M A) (k : A -> M B) : M B :=
  fun w =>
    match m w with
    | (Ok a, w') => k a w'
    | (Throw error, w') => (Throw error, w')
    end.

(** [try { m } catch (error) { h error }]. *)
Definition tryCatch {A} (m : M A) (h : Thrown -> M A) : M A :=
  fun w =>
    match m w with
    | (Ok a, w') => (Ok a, w')
    | (Throw error, w') => h error w'
    end.

Definition lift {A} (o : Outcome A) : M A := fun w => (o, w).

Declare Scope pipeline_scope.
Delimit Scope pipeline_scope with pipeline.
Notation "'let*' x := m 'in' k" := (bind m (fun x => k))
  (at level 10, x name, m at level 100, k at level 200) : pipeline_scope.
Notation "m ;; k" := (bind m (fun _ => k))
  (at level 100, k at level 200, right associativity) : pipeline_scope.
Local Open Scope pipeline_scope.

Definition Date_now : M Z := fun w => (Ok (now w), w).

(** [await new Promise((resolve) => setTimeout(resolve, delay))]. *)
Definition sleep (delay : Z) : M unit :=
  fun w => (Ok tt, set_now (now w + Z.max 0 delay) (add_sleep delay w)).

(** [logger?.method(...)]: a call when the adapter is there.  The
    logger adapter is taken to work: its methods record the call and
    return; a logger that throws is outside this development. *)
Definition log (logger : bool) (c : LogCall) : M unit :=
  fun w => (Ok tt, if logger then add_log c w else w).

(** A function of the application, as the wrappers see it: its
    [i]-th invocation (counting from 0, over the life of the world)
    settles after some milliseconds with a value or a throw. *)
Definition Script (A : Type) : Type := nat -> N * Outcome A.

Definition invoke {A} (f : Script A) : M A :=
  fun w =>
    let '(d, r) := f (handlerCalls w) in
    (r, set_now (now w + Z.of_N d) (add_handlerCall w)).

(** ** middleware/retry.ts *)

Record RetryConfig : Type := {
  attempts : Z;
  delayMs : option Z;
  retryOn : option (list Z);
  shouldRetry : option (Thrown -> Z -> bool)
}.

Definition DEFAULT_RETRY_STATUS_CODES : list Z := [502; 503; 504].

(** The value of [shouldRetryThis] once the [catch] block has computed
    it for [error] at [attempt]. *)
Definition shouldRetryThis (config : RetryConfig) (error : Thrown) (attempt : Z) : bool :=
  match shouldRetry config with
  | Some predicate => predicate error attempt
  | None =>
      match error with
      | ThrownApiError e =>
          existsb (Z.eqb (err_status e)) (default DEFAULT_RETRY_STATUS_CODES (retryOn config))
      | _ => false
      end
  end.

(** [delayMs * Math.pow(2, attempt - 1)], with [delayMs = 100] unless given. *)
Definition retryDelay (config : RetryConfig) (attempt : Z) : Z :=
  default 100 (delayMs config) * 2 ^ (attempt - 1).

Definition requestId_json (requestId : option string) : Json :=
  match requestId with
  | Some r => JStr r
  | None => JUndefined
  end.

Definition retryWarning (config : RetryConfig) (requestId : option string) (attempt : Z) : LogCall :=
  LogWarn
    ("Retry attempt " +:+ String_of_number attempt +:+ "/" +:+ String_of_number (attempts config)
       +:+ " after " +:+ String_of_number (retryDelay config attempt) +:+ "ms")
    [("requestId", requestId_json requestId)]%string.

(** The [for] loop of [withRetry], entered with [attempt] and [lastError]
    as they stand; [remaining] counts the iterations the loop condition
    [attempt <= attempts] still allows. *)
Fixpoint retryLoop {A} (fn : M A) (config : RetryConfig) (logger : bool)
    (requestId : option string) (remaining : nat) (attempt : Z) (lastError : Thrown) : M A :=
  match remaining with
  | O => throw lastError
  | S remaining' =>
      tryCatch fn (fun error =>
        if (negb (shouldRetryThis config error attempt) || (attempt =? attempts config))%bool
        then throw error
        else
          log logger (retryWarning config requestId attempt) ;;
          sleep (retryDelay config attempt) ;;
          retryLoop fn config logger requestId remaining' (attempt + 1) error)
  end.

Definition withRetry {A} (fn : M A) (config : RetryConfig) (logger : bool)
    (requestId : option string) : M A :=
  retryLoop fn config logger requestId (Z.to_nat (attempts config)) 1 (ThrownValue PUndefined).

(** ** middleware/timeout.ts *)

Section Timeout.

(** The message of the timeout failure is not fixed by what is known
    of timeout.ts. *)
Variable timeoutMessage : string.

Definition timeoutError : ApiError :=
  {| err_message := timeoutMessage; err_status := 408; err_code := "TIMEOUT";
     err_errors := None |}.

(** Modelled from the spec: middleware/timeout.ts is missing; the
    timeout guard "throws a distinguished Timeout failure (status 408)
    if operation has not settled within ms" and "only stops waiting":
    the operation is not cancelled.  [promise] has been started by the
    caller; when it needs more than [ms] the guard throws at the
    deadline, the clock stands at the deadline, and what the abandoned
    operation does to the world stays done. *)
Definition withTimeout {A} (promise : M A) (ms : Z) : M A :=
  fun w =>
    let '(r, w') := promise w in
    if now w' - now w <=? Z.max 0 ms
    then (r, w')
    else (Throw (ThrownApiError timeoutError), set_now (now w + Z.max 0 ms) w').

End Timeout.

(** ** middleware/rate-limit.ts *)

Record RateLimitConfig : Type := {
  max : Z;
  windowMs : Z
}.

(** The own entries of the object [DEFAULT_RATE_LIMITS]. *)
Definition DEFAULT_RATE_LIMITS (method : string) : option RateLimitConfig :=
  if String.eqb method "GET" then Some {| max := 200; windowMs := 60000 |}
  else if String.eqb method "POST" then Some {| max := 50; windowMs := 60000 |}
  else if String.eqb method "PUT" then Some {| max := 50; windowMs := 60000 |}
  else if String.eqb method "PATCH" then Some {| max := 50; windowMs := 60000 |}
  else if String.eqb method "DELETE" then Some {| max := 20; windowMs := 60000 |}
  else None.

(** The names every plain object inherits from [Object.prototype].
    [table[name]] finds a function under each of them (under
    [__proto__], the prototype itself): a truthy value that is no entry
    of the table. *)
Definition Object_prototype_names : list string :=
  ["constructor"; "__defineGetter__"; "__defineSetter__"; "hasOwnProperty";
   "__lookupGetter__"; "__lookupSetter__"; "isPrototypeOf"; "propertyIsEnumerable";
   "toString"; "valueOf"; "__proto__"; "toLocaleString"]%string.

(** What [table[name]] finds in a plain object used as a table of
    rate-limit policies: an entry of the table, or a member of
    [Object.prototype], on which [max] and [windowMs] are [undefined]. *)
Inductive Policy : Type :=
| PolicyConfig (config : RateLimitConfig)
| PolicyInherited.

(** [table[name]], with [own] the own entry of the table under [name];
    [None] is [undefined]. *)
Definition table_get (own : option RateLimitConfig) (name : string) : option Policy :=
  match own with
  | Some config => Some (PolicyConfig config)
  | None =>
      if existsb (String.eqb name) Object_prototype_names then Some PolicyInherited else None
  end.

(** A number as the rate limiter hands it on: an integer, [NaN], or
    [undefined] where a number is expected. *)
Inductive JsNumber : Type :=
| Number (z : Z)
| NaN
| Undefined.

(** [String(n)]. *)
Definition String_of_JsNumber (n : JsNumber) : string :=
  match n with
  | Number z => String_of_number z
  | NaN => "NaN"
  | Undefined => "undefined"
  end.

Module RateLimit.
(** [RateLimitResult] of rate-limit.ts. *)
Record Result : Type := {
  allowed : bool;
  count : Z;
  resetAt : Z
}.
End RateLimit.

(** The cache adapter's [increment(key, ttlMs)], by its contract in
    types.ts: "Atomic increment - returns new value. Creates key with
    value 1 if doesn't exist".  Within one window no key expires;
    [_ttlMs] is [None] when the caller passes [undefined].  The cache
    adapter is taken to work: its methods return. *)
Definition cache_increment (key : string) (_ttlMs : option Z) : M Z :=
  fun w =>
    let c := default 0 (counters w !! key) + 1 in
    (Ok c, set_counters (<[key := c]> (counters w)) w).

(** The cache adapter's [get] and [set]. *)
Definition cache_get (key : string) : M (option CachedResponse) :=
  fun w => (Ok (store w !! key), w).

Definition cache_set (key : string) (value : CachedResponse) (_ttlMs : Z) : M unit :=
  fun w => (Ok tt, set_store (<[key := value]> (store w)) w).

(** [cache] tells whether the adapter is there. *)
Definition checkRateLimit (cache : bool) (key : string) (config : RateLimitConfig)
    : M RateLimit.Result :=
  if negb cache then
    let* t := Date_now in
    ret {| RateLimit.allowed := true; RateLimit.count := 0;
           RateLimit.resetAt := t + windowMs config |}
  else
    let* count := cache_increment key (Some (windowMs config)) in
    let* t := Date_now in
    let resetAt := t + windowMs config in
    ret {| RateLimit.allowed := count <=? max config; RateLimit.count := count;
           RateLimit.resetAt := resetAt |}.

Definition buildRateLimitKey (method pathname identifier : string) : string :=
  "ratelimit:" +:+ method +:+ ":" +:+ pathname +:+ ":" +:+ identifier.

(** ** middleware/cache.ts *)

(** A [Request], as far as the wrappers read it: the method, the
    [pathname] and [search] of [new URL(req.url)], and the headers. *)
Record Request : Type := {
  req_method : string;
  req_pathname : string;
  req_search : string;
  req_headers : Headers
}.

Record CacheConfig : Type := {
  ttlMs : Z;
  keyGenerator : option (Request -> string);
  successOnly : option bool
}.

Definition generateCacheKey (req : Request) : string :=
  "cache:" +:+ req_method req +:+ ":" +:+ req_pathname req +:+ req_search req.

Definition getCacheKey (req : Request) (config : CacheConfig) : string :=
  match keyGenerator config with
  | Some generator => generator req
  | None => generateCacheKey req
  end.

Definition getCachedResponse (cacheKey requestId : string) (logger : bool)
    : M (option Response) :=
  let* cached := cache_get cacheKey in
  match cached with
  | Some c =>
      log logger (LogDebug "Cache hit"
                    [("requestId", JStr requestId); ("cacheKey", JStr cacheKey)]%string) ;;
      (* [cached.body] is the text of the stored response: a string,
         never [null] *)
      let* response :=
        lift (Response_init true (cached_body c) (cached_status c)
                (record_set "X-Cache" "HIT"
                   (record_set "X-Request-ID" requestId (cached_headers c)))) in
      ret (Some response)
  | None => ret None
  end.

Definition setCachedResponse (cacheKey : string) (response : Response) (ttl : Z)
    (requestId : string) (logger : bool) : M unit :=
  let headers :=
    fold_left (fun r kv => record_assign (fst kv) (snd kv) r)
      (Headers_entries (resp_headers response)) [] in
  cache_set cacheKey
    {| cached_body := resp_body response; cached_status := resp_status response;
       cached_headers := headers |} ttl ;;
  log logger (LogDebug "Cache set"
                [("requestId", JStr requestId); ("cacheKey", JStr cacheKey);
                 ("ttlMs", JNum ttl)]%string).

Definition shouldCacheResponse (response : Response) (successOnlyFlag : bool) : bool :=
  if successOnlyFlag
  then ((200 <=? resp_status response) && (resp_status response <? 300))%bool
  else true.

(** ** wrapper/error-handler.ts *)

Definition handleError (globalT : ResponseTransformers) (error : Thrown) (logger : bool)
    (transformers : option ResponseTransformers) (requestId : option string) : M Response :=
  let effective := Some (getEffectiveTransformers globalT transformers) in
  let stamp (response : Response) : Response :=
    match requestId with
    | Some r => if String.eqb r EmptyString then response else Response_set_header "X-Request-ID" r response
    | None => response
    end in
  let internal :=
    let* response := lift (createErrorResponse globalT (ApiResponse.internalError None) effective) in
    ret (stamp response) in
  match error with
  | ThrownApiError e =>
      let* response := lift (createErrorResponse globalT e effective) in
      ret (stamp response)
  | ThrownError name msg =>
      log logger (LogError "Unhandled error" (Some error)
                    [("name", JStr name); ("message", JStr msg);
                     ("requestId", requestId_json requestId)]%string) ;;
      internal
  | ThrownValue v =>
      log logger (LogError "Unhandled error" None
                    [("error", JStr (String_of_primitive v));
                     ("requestId", requestId_json requestId)]%string) ;;
      internal
  end.

(** ** wrapper/pipeline.ts: validation helpers *)

Inductive PropertyKey : Type :=
| KeyString (s : string)
| KeyNumber (n : Z)
| KeySymbol (description : string).

(** [String(key)]. *)
Definition String_of_key (k : PropertyKey) : string :=
  match k with
  | KeyString s => s
  | KeyNumber n => String_of_number n
  | KeySymbol d => "Symbol(" +:+ d +:+ ")"
  end.

Record ZodIssue : Type := {
  issue_path : list PropertyKey;
  issue_message : string
}.

(** The validator is opaque: a schema is what [safeParseAsync] answers. *)
Inductive SafeParseResult : Type :=
| ParseSuccess (data : Json)
| ParseFailure (issues : list ZodIssue).

Definition Schema : Type := Json -> SafeParseResult.

Definition formatZodErrors (issues : list ZodIssue) : list ValidationErrorDetail :=
  map (fun issue =>
         {| detail_field := String.concat "." (map String_of_key (issue_path issue));
            detail_message := issue_message issue |})
      issues.

Definition validationError (fieldName : string) (issues : list ZodIssue) : ApiError :=
  {| err_message := "Validation failed for " +:+ fieldName;
     err_status := 422;
     err_code := "VALIDATION_ERROR";
     err_errors := Some (formatZodErrors issues) |}.

Definition validateSchema (schema : Schema) (data : Json) (fieldName : string) : M Json :=
  match schema data with
  | ParseSuccess d => ret d
  | ParseFailure issues => throw (ThrownApiError (validationError fieldName issues))
  end.

(** ** wrapper/pipeline.ts: the types of the pipeline *)

Record AuthRequestContext : Type := {
  auth_headers : Headers;
  auth_cookies : option StringRecord
}.

(** The auth adapter is opaque: each method is what it answers, a value
    or a throw. *)
Record AuthAdapter : Type := {
  verify : AuthRequestContext -> Outcome (option BaseUser);
  hasRole : BaseUser -> list string -> Outcome bool;
  isTenantValid : option (BaseUser -> AuthRequestContext -> Outcome bool)
}.

(** [cache] and [logger] tell whether the adapter is there; what the
    adapters hold is in the world. *)
Record PipelineAdapters : Type := {
  auth_adapter : option AuthAdapter;
  cache_adapter : bool;
  logger_adapter : bool
}.

Record ValidationConfig : Type := {
  validation_params : option Schema;
  validation_query : option Schema;
  validation_body : option Schema
}.

(** [rateLimit?: RateLimitConfig | false]. *)
Inductive RateLimitOption : Type :=
| RateLimitUnset
| RateLimitDisabled
| RateLimitWith (config : RateLimitConfig).

Record PipelineOptions : Type := {
  opt_auth : option (list string);
  opt_tenantScoped : option bool;
  opt_rateLimit : RateLimitOption;
  opt_timeout : option Z;
  opt_retry : option RetryConfig;
  opt_audit : option bool;
  opt_validation : option ValidationConfig
}.

Record PipelineDefaults : Type := {
  default_timeout : option Z;
  default_rateLimit : option (gmap string RateLimitConfig)
}.

Record RawInput : Type := {
  input_params : Json;
  input_query : Json;
  input_body : Json
}.

Record PipelineMeta : Type := {
  meta_requestId : string;
  meta_user : BaseUser;
  meta_durationMs : Z;
  meta_method : string;
  meta_path : string
}.

(** The [RateLimitResult] of pipeline.ts: [limit?: number] and
    [resetAt?: number]. *)
Record RateLimitResult : Type := {
  rl_allowed : bool;
  rl_limit : JsNumber;
  rl_resetAt : JsNumber
}.

Record PipelineInput (TContext TResult : Type) : Type := {
  requestId : string;
  method : string;
  path : string;
  getAuthContext : M AuthRequestContext;
  getIdentifier : BaseUser -> string;
  getRawInput : M RawInput;
  buildContext : BaseUser -> RawInput -> TContext;
  executeHandler : TContext -> M TResult;
  onRateLimited : RateLimitResult -> M TResult;
  onSuccess : TResult -> PipelineMeta -> M TResult;
  onError : Thrown -> PipelineMeta -> M TResult;
  options : PipelineOptions;
  adapters : PipelineAdapters;
  defaults : option PipelineDefaults
}.
Arguments requestId {TContext TResult}.
Arguments method {TContext TResult}.
Arguments path {TContext TResult}.
Arguments getAuthContext {TContext TResult}.
Arguments getIdentifier {TContext TResult}.
Arguments getRawInput {TContext TResult}.
Arguments buildContext {TContext TResult}.
Arguments executeHandler {TContext TResult}.
Arguments onRateLimited {TContext TResult}.
Arguments onSuccess {TContext TResult}.
Arguments onError {TContext TResult}.
Arguments options {TContext TResult}.
Arguments adapters {TContext TResult}.
Arguments defaults {TContext TResult}.

(** A number in a condition or on the left of [||]: [undefined] and [0]
    are falsy. *)
Definition truthy (n : option Z) : bool :=
  match n with
  | Some z => negb (z =? 0)
  | None => false
  end.

(** [timeout || defaults?.timeout]. *)
Definition effectiveTimeout (opts : PipelineOptions) (defs : option PipelineDefaults) : option Z :=
  if truthy (opt_timeout opts) then opt_timeout opts
  else match defs with
       | Some d => default_timeout d
       | None => None
       end.

(** [rateLimit || defaults?.rateLimit?.[method] || DEFAULT_RATE_LIMITS[method]].
    [defaults.rateLimit] is a plain object, with the own entries of
    [default_rateLimit]; so is [DEFAULT_RATE_LIMITS]. *)
Definition rateLimitConfigFor (opts : PipelineOptions) (defs : option PipelineDefaults)
    (method : string) : option Policy :=
  match opt_rateLimit opts with
  | RateLimitWith config => Some (PolicyConfig config)
  | _ =>
      match defs with
      | Some {| default_rateLimit := Some table |} =>
          match table_get (table !! method) method with
          | Some policy => Some policy
          | None => table_get (DEFAULT_RATE_LIMITS method) method
          end
      | _ => table_get (DEFAULT_RATE_LIMITS method) method
      end
  end.

(** [const { ..., audit = true, ... } = options]. *)
Definition auditEnabled (opts : PipelineOptions) : bool :=
  default true (opt_audit opts).

(** ** wrapper/pipeline.ts: [runPipeline]

    The steps of the [try] block are named after its numbered comments.
    The variable [user] is assigned once, at the end of step 2: the
    [catch] block sees [ANONYMOUS_USER] when steps 1 and 2 throw, and
    the authenticated user when a later step throws. *)

Section Pipeline.

Variable timeoutMessage : string.
Context {TContext TResult : Type}.
Variable input : PipelineInput TContext TResult.

Let opts := options input.
Let logger := logger_adapter (adapters input).

(** 1. Log start *)
Definition stepLogStart : M unit :=
  log logger (LogInfo (method input +:+ " " +:+ path input)
                [("requestId", JStr (requestId input)); ("method", JStr (method input));
                 ("path", JStr (path input))]%string).

Definition callVerify (adapter : AuthAdapter) (authCtx : AuthRequestContext)
    : M (option BaseUser) :=
  fun w => (verify adapter authCtx, add_verifyCall w).

(** 2. Authentication; the result is [user] as the block leaves it. *)
Definition stepAuthentication : M BaseUser :=
  match opt_auth opts with
  | None => ret ANONYMOUS_USER
  | Some auth =>
      match auth_adapter (adapters input) with
      | None =>
          throw (ThrownError "Error" "Auth adapter not configured but auth is required")
      | Some adapter =>
          let* authCtx := getAuthContext input in
          let* authResult := callVerify adapter authCtx in
          match authResult with
          | None => throw (ThrownApiError (ApiResponse.unauthorized None))
          | Some authUser =>
              if (0 <? length auth)%nat
              then
                let* permitted := lift (hasRole adapter authUser auth) in
                if permitted then ret authUser
                else throw (ThrownApiError (ApiResponse.forbidden None))
              else ret authUser
          end
      end
  end.

(** 3. Tenant Scoping *)
Definition stepTenantScoping (user : BaseUser) : M unit :=
  if default false (opt_tenantScoped opts)
  then
    match auth_adapter (adapters input) with
    | Some {| isTenantValid := Some check |} =>
        let* authCtx := getAuthContext input in
        let* isValid := lift (check user authCtx) in
        if isValid then ret tt
        else throw (ThrownApiError (ApiResponse.forbidden (Some "Tenant context required"%string)))
    | _ =>
        throw (ThrownError "Error"
                 "isTenantValid must be defined in auth adapter when tenantScoped is true")
    end
  else ret tt.

(** 4. Rate Limiting; [Some result] is the early [return] through
    [onRateLimited]. *)
Definition stepRateLimiting (user : BaseUser) : M (option RateLimitResult) :=
  let enabled :=
    match opt_rateLimit opts with
    | RateLimitDisabled => false
    | _ => cache_adapter (adapters input)
    end in
  if enabled
  then
    let identifier := getIdentifier input user in
    match rateLimitConfigFor opts (defaults input) (method input) with
    | Some (PolicyConfig rateLimitConfig) =>
        let key := buildRateLimitKey (method input) (path input) identifier in
        let* result := checkRateLimit (cache_adapter (adapters input)) key rateLimitConfig in
        if negb (RateLimit.allowed result)
        then ret (Some {| rl_allowed := false; rl_limit := Number (max rateLimitConfig);
                          rl_resetAt := Number (RateLimit.resetAt result) |})
        else ret None
    | Some PolicyInherited =>
        (* [checkRateLimit] on a policy without [max] and [windowMs]: the
           counter is incremented, [count <= undefined] is false and
           [Date.now() + undefined] is NaN *)
        let key := buildRateLimitKey (method input) (path input) identifier in
        cache_increment key None ;;
        ret (Some {| rl_allowed := false; rl_limit := Undefined; rl_resetAt := NaN |})
    | None => ret None
    end
  else ret None.

Definition validateSlot (schema : option Schema) (raw : Json) (fieldName : string) : M Json :=
  match schema with
  | Some sch => validateSchema sch raw fieldName
  | None => ret raw
  end.

Definition slotSchema (slot : ValidationConfig -> option Schema) : option Schema :=
  match opt_validation opts with
  | Some validation => slot validation
  | None => None
  end.

(** 5. Get & Validate Input *)
Definition stepValidateInput : M RawInput :=
  let* rawInput := getRawInput input in
  let* params := validateSlot (slotSchema validation_params) (input_params rawInput) "params" in
  let* query := validateSlot (slotSchema validation_query) (input_query rawInput) "query" in
  let* body := validateSlot (slotSchema validation_body) (input_body rawInput) "body" in
  ret {| input_params := params; input_query := query; input_body := body |}.

(** 7. Execute Handler (with retry + timeout) *)
Definition stepExecuteHandler (ctx : TContext) : M TResult :=
  let runHandler := executeHandler input ctx in
  let maybeRetry :=
    match opt_retry opts with
    | Some retry => withRetry runHandler retry logger (Some (requestId input))
    | None => runHandler
    end in
  let timeout := effectiveTimeout opts (defaults input) in
  if truthy timeout
  then withTimeout timeoutMessage maybeRetry (default 0 timeout)
  else maybeRetry.

Definition metaOf (user : BaseUser) (durationMs : Z) : PipelineMeta :=
  {| meta_requestId := requestId input; meta_user := user; meta_durationMs := durationMs;
     meta_method := method input; meta_path := path input |}.

(** 8. Log completion, 9. Audit, and the success converter *)
Definition stepComplete (startTime : Z) (user : BaseUser) (result : TResult) : M TResult :=
  let* t := Date_now in
  let durationMs := t - startTime in
  log logger (LogInfo (method input +:+ " " +:+ path input +:+ " completed")
                [("requestId", JStr (requestId input)); ("durationMs", JNum durationMs)]%string) ;;
  (if (auditEnabled opts && logger)%bool
   then log logger (LogAudit {| audit_requestId := requestId input;
                                audit_user := user;
                                audit_action := method input;
                                audit_resource := path input;
                                audit_durationMs := durationMs;
                                audit_status := 200;
                                audit_success := true;
                                audit_errorCode := None;
                                audit_timestamp := t |})
   else ret tt) ;;
  onSuccess input result (metaOf user durationMs).

Definition errorStatus (error : Thrown) : Z :=
  match error with
  | ThrownApiError e => err_status e
  | _ => 500
  end.

Definition errorCode (error : Thrown) : string :=
  match error with
  | ThrownApiError e => err_code e
  | _ => "INTERNAL_ERROR"
  end.

(** The [catch] block. *)
Definition catchBlock (startTime : Z) (user : BaseUser) (error : Thrown) : M TResult :=
  let* t := Date_now in
  let durationMs := t - startTime in
  let status := errorStatus error in
  log logger (LogInfo (method input +:+ " " +:+ path input +:+ " " +:+ String_of_number status)
                [("requestId", JStr (requestId input)); ("status", JNum status);
                 ("durationMs", JNum durationMs)]%string) ;;
  (if (auditEnabled opts && logger)%bool
   then log logger (LogAudit {| audit_requestId := requestId input;
                                audit_user := user;
                                audit_action := method input;
                                audit_resource := path input;
                                audit_durationMs := durationMs;
                                audit_status := status;
                                audit_success := false;
                                audit_errorCode := Some (errorCode error);
                                audit_timestamp := t |})
   else ret tt) ;;
  onError input error (metaOf user durationMs).

(** Steps 3 to 9, with [user] as step 2 left it. *)
Definition tryBlockAfterAuth (startTime : Z) (user : BaseUser) : M TResult :=
  stepTenantScoping user ;;
  let* limited := stepRateLimiting user in
  match limited with
  | Some result => onRateLimited input result
  | None =>
      let* validatedInput := stepValidateInput in
      let ctx := buildContext input user validatedInput in
      let* result := stepExecuteHandler ctx in
      stepComplete startTime user result
  end.

Definition runPipeline : M TResult :=
  fun w =>
    let startTime := now w in
    match (stepLogStart ;; stepAuthentication) w with
    | (Throw error, w') => catchBlock startTime ANONYMOUS_USER error w'
    | (Ok user, w') =>
        tryCatch (tryBlockAfterAuth startTime user) (catchBlock startTime user) w'
    end.

End Pipeline.

(** ** The wrappers *)

Record WrapperConfig : Type := {
  cfg_adapters : PipelineAdapters;
  cfg_defaults : option PipelineDefaults;
  cfg_transformers : option ResponseTransformers
}.

(** [user.id ? String(user.id) : fallback]. *)
Definition identifierOf (user : BaseUser) (fallback : string) : string :=
  match user_id user with
  | IdString s => if String.eqb s EmptyString then fallback else s
  | IdNumber n => if n =? 0 then fallback else String_of_number n
  end.

(** *** wrapper/api/handlers.ts *)

(** [Math.ceil(n / 1000)]. *)
Definition ceil_div_1000 (n : Z) : Z := - ((- n) / 1000).

(** [Math.ceil((resetAt - now) / 1000)]: NaN when [resetAt] is no
    number. *)
Definition retryAfterOf (resetAt : JsNumber) (t : Z) : JsNumber :=
  match resetAt with
  | Number r => Number (ceil_div_1000 (r - t))
  | _ => NaN
  end.

Module ApiResultHandlers.
Section Handlers.

Variable globalT : ResponseTransformers.
Variable transformers : ResponseTransformers.
Variable logger : bool.

Definition onRateLimited (result : RateLimitResult) (requestId : string) : M Response :=
  let* t := Date_now in
  let retryAfter := retryAfterOf (rl_resetAt result) t in
  let error := ApiResponse.tooManyRequests None in
  let* response := lift (createErrorResponse globalT error (Some transformers)) in
  ret (Response_set_header "Retry-After" (String_of_JsNumber retryAfter)
         (Response_set_header "X-RateLimit-Reset" (String_of_JsNumber (rl_resetAt result))
            (Response_set_header "X-RateLimit-Remaining" "0"
               (Response_set_header "X-RateLimit-Limit" (String_of_JsNumber (rl_limit result))
                  (Response_set_header "X-Request-ID" requestId response))))).

Definition onSuccess (response : Response) (requestId : string) : Response :=
  Response_set_header "X-Request-ID" requestId response.

Definition onError (error : Thrown) (requestId : string) : M Response :=
  match error with
  | ThrownApiError e =>
      let* response := lift (createErrorResponse globalT e (Some transformers)) in
      ret (Response_set_header "X-Request-ID" requestId response)
  | _ =>
      log logger (LogError "Unhandled API error"
                    (if instanceofError error then Some error else None)
                    [("requestId", JStr requestId)]%string) ;;
      let* response :=
        lift (createErrorResponse globalT (ApiResponse.internalError None) (Some transformers)) in
      ret (Response_set_header "X-Request-ID" requestId response)
  end.

End Handlers.
End ApiResultHandlers.

(** [cacheAdapter] tells whether the adapter is there. *)
Definition checkCache (req : Request) (cache : option CacheConfig) (cacheAdapter : bool)
    (requestId : string) (logger : bool) : M (option Response) :=
  match cache with
  | Some config =>
      if (cacheAdapter && String.eqb (req_method req) "GET")%bool
      then getCachedResponse (getCacheKey req config) requestId logger
      else ret None
  | None => ret None
  end.

(** [saveToCache] writes [X-Cache: MISS] on the response it was given;
    the result is that response as the caller finds it afterwards. *)
Definition saveToCache (req : Request) (response : Response) (cache : option CacheConfig)
    (cacheAdapter : bool) (requestId : string) (logger : bool) : M Response :=
  match cache with
  | Some config =>
      if (cacheAdapter && String.eqb (req_method req) "GET")%bool
      then
        if shouldCacheResponse response
             (match successOnly config with Some false => false | _ => true end)
        then
          setCachedResponse (getCacheKey req config) response (ttlMs config) requestId logger ;;
          ret (Response_set_header "X-Cache" "MISS" response)
        else ret response
      else ret response
  | None => ret response
  end.

(** *** wrapper/api/index.ts *)

Record ApiContext : Type := {
  ctx_req : Request;
  ctx_requestId : string;
  ctx_parsedParams : Json;
  ctx_parsedQuery : Json;
  ctx_parsedBody : Json;
  ctx_user : BaseUser;
  ctx_ip : string;
  ctx_userAgent : string;
  ctx_method : string;
  ctx_path : string
}.

(** What a route handler resolves to: a [Response], or a value to wrap. *)
Inductive HandlerResult : Type :=
| ReturnsResponse (r : Response)
| ReturnsValue (v : Json).

(** wrapper/api/parsers.ts reads the URL, the body stream and the
    cookies of the request through the platform; the wrapper takes its
    functions as they answer for a request. *)
Record Parsers : Type := {
  getClientIp : Request -> string;
  getUserAgent : Request -> string;
  parseQuery : Request -> Json;
  parseBody : Request -> Outcome Json;
  parseCookies : option string -> option StringRecord
}.

(** The per-route options: those of the pipeline, and [cache].  Routes
    are taken without [middleware] (its default, the empty chain). *)
Record WrapperOptions : Type := {
  wo_pipeline : PipelineOptions;
  wo_cache : option CacheConfig
}.

(** utils/auth-context.ts *)
Definition buildAuthContext (parsers : Parsers) (req : Request) : AuthRequestContext :=
  {| auth_headers := req_headers req;
     auth_cookies := parseCookies parsers (Headers_get "cookie" (req_headers req)) |}.

(** [a || b] on strings that may be [null]. *)
Definition or_string (a : option string) (b : string) : string :=
  match a with
  | Some s => if String.eqb s EmptyString then b else s
  | None => b
  end.

Section ApiWrapper.

Variable timeoutMessage : string.
Variable globalT : ResponseTransformers.
Variable parsers : Parsers.
Variable config : WrapperConfig.
Variable handler : ApiContext -> Script HandlerResult.
Variable wrapperOptions : WrapperOptions.

Let effectiveTransformers := getEffectiveTransformers globalT (cfg_transformers config).
Let logger := logger_adapter (cfg_adapters config).
Let cacheAdapter := cache_adapter (cfg_adapters config).

(** The pipeline input built for one request; [generatedId] is what
    [generateRequestId()] answers for it.  With the empty middleware
    chain [executeHandler] is [runHandler]; a route with middleware,
    whose members decide themselves whether and how often they call
    [next], is not modelled. *)
Definition apiPipelineInput (generatedId : string) (req : Request) (routeParams : Json)
    : PipelineInput ApiContext Response :=
  let requestId := or_string (Headers_get "x-request-id" (req_headers req)) generatedId in
  {| requestId := requestId;
     method := req_method req;
     path := req_pathname req;
     getAuthContext := ret (buildAuthContext parsers req);
     getIdentifier := fun user =>
       identifierOf user
         ("ip:" +:+ or_string (Headers_get "x-forwarded-for" (req_headers req)) "unknown");
     getRawInput :=
       (let* body :=
          if (negb (String.eqb (req_method req) "GET")
              && negb (String.eqb (req_method req) "HEAD"))%bool
          then lift (parseBody parsers req)
          else ret JUndefined in
        ret {| input_params := routeParams; input_query := parseQuery parsers req;
               input_body := body |});
     buildContext := fun user validatedInput =>
       {| ctx_req := req;
          ctx_requestId := requestId;
          ctx_parsedParams := input_params validatedInput;
          ctx_parsedQuery := input_query validatedInput;
          ctx_parsedBody := input_body validatedInput;
          ctx_user := user;
          ctx_ip := getClientIp parsers req;
          ctx_userAgent := getUserAgent parsers req;
          ctx_method := req_method req;
          ctx_path := req_pathname req |};
     executeHandler := fun ctx =>
       (let* result := invoke (handler ctx) in
        match result with
        | ReturnsResponse r => ret r
        | ReturnsValue v => lift (ApiResponse_success globalT v 200 (Some effectiveTransformers))
        end);
     onRateLimited := fun result =>
       ApiResultHandlers.onRateLimited globalT effectiveTransformers result requestId;
     onSuccess := fun response _ =>
       (let finalResponse := ApiResultHandlers.onSuccess response requestId in
        saveToCache req finalResponse (wo_cache wrapperOptions) cacheAdapter requestId logger);
     onError := fun error _ =>
       ApiResultHandlers.onError globalT effectiveTransformers logger error requestId;
     options := wo_pipeline wrapperOptions;
     adapters := cfg_adapters config;
     defaults := cfg_defaults config |}.

(** The route handler returned by [apiWrapper(handler, options)]. *)
Definition apiWrapper (generatedId : string) (req : Request) (routeParams : Json) : M Response :=
  let requestId := or_string (Headers_get "x-request-id" (req_headers req)) generatedId in
  let* cached := checkCache req (wo_cache wrapperOptions) cacheAdapter requestId logger in
  match cached with
  | Some response => ret response
  | None => runPipeline timeoutMessage (apiPipelineInput generatedId req routeParams)
  end.

End ApiWrapper.

(** *** wrapper/action/handlers.ts and wrapper/action/index.ts *)

Module ActionResultHandlers.

Definition onRateLimited {TResult} : M TResult :=
  throw (ThrownApiError (ApiResponse.tooManyRequests None)).

Definition onSuccess {TResult} (result : TResult) : TResult := result.

Definition onError {TResult} (logger : bool) (error : Thrown) (requestId : string) : M TResult :=
  match error with
  | ThrownApiError _ => throw error
  | _ =>
      log logger (LogError "Unhandled action error"
                    (if instanceofError error then Some error else None)
                    [("requestId", JStr requestId)]%string) ;;
      throw (ThrownApiError (ApiResponse.internalError None))
  end.

End ActionResultHandlers.

Record ActionContext : Type := {
  action_requestId : string;
  action_parsedBody : Json;
  action_user : BaseUser
}.

Section ActionWrapper.

Variable timeoutMessage : string.
Variable config : WrapperConfig.
(** [config.getAuthContext], when given: what it answers. *)
Variable configGetAuthContext : option (Outcome AuthRequestContext).
(** The handler and [handler.name]. *)
Variable handler : ActionContext -> Script Json.
Variable handlerName : string.
Variable actionOptions : PipelineOptions.

Let logger := logger_adapter (cfg_adapters config).

Definition actionPipelineInput (generatedId : string) (input : Json)
    : PipelineInput ActionContext Json :=
  let requestId := generatedId in
  let actionName := or_string (Some handlerName) "anonymous" in
  {| requestId := requestId;
     method := "ACTION";
     path := actionName;
     getAuthContext :=
       match configGetAuthContext with
       | None =>
           throw (ThrownError "Error"
                    "getAuthContext must be provided to use auth/tenantScoped in server actions")
       | Some answer => lift answer
       end;
     getIdentifier := fun user => identifierOf user "anonymous";
     getRawInput :=
       ret {| input_params := JUndefined; input_query := JUndefined; input_body := input |};
     buildContext := fun user validatedInput =>
       {| action_requestId := requestId;
          action_parsedBody := input_body validatedInput;
          action_user := user |};
     executeHandler := fun ctx => invoke (handler ctx);
     onRateLimited := fun _ => ActionResultHandlers.onRateLimited;
     onSuccess := fun result _ => ret (ActionResultHandlers.onSuccess result);
     onError := fun error _ => ActionResultHandlers.onError logger error requestId;
     options := actionOptions;
     adapters := cfg_adapters config;
     defaults := cfg_defaults config |}.

(** The server action returned by [actionWrapper(handler, options)]. *)
Definition actionWrapper (generatedId : string) (input : Json) : M Json :=
  runPipeline timeoutMessage (actionPipelineInput generatedId input).

End ActionWrapper.

(** ** Observations on runs *)

(** The logger calls a run added to the world: [logs] only grows. *)
Definition newLogs (w w' : World) : list LogCall :=
  skipn (length (logs w)) (logs w').

Definition auditsOf (l : list LogCall) : list AuditEvent :=
  flat_map (fun c => match c with LogAudit e => [e] | _ => [] end) l.

(** The attempt numbers [attempt], [attempt + 1], ... of [j] successive
    iterations of the retry loop. *)
Definition attemptsFrom (attempt : Z) (j : nat) : list Z :=
  map (fun i => attempt + Z.of_nat i) (seq 0 j).

(** The first slot, in the order params, query, body, whose schema
    rejects its raw value, with the issues the schema reports. *)
Definition firstFailingSlot (validation : option ValidationConfig) (raw : RawInput)
    : option (string * list ZodIssue) :=
  let check (schema : option Schema) (value : Json) (name : string)
      (rest : option (string * list ZodIssue)) :=
    match schema with
    | Some sch =>
        match sch value with
        | ParseFailure issues => Some (name, issues)
        | ParseSuccess _ => rest
        end
    | None => rest
    end in
  match validation with
  | Some v =>
      check (validation_params v) (input_params raw) "params"%string
        (check (validation_query v) (input_query raw) "query"%string
           (check (validation_body v) (input_body raw) "body"%string None))
  | None => None
  end.

(** The failing entries of all three slots together, as the words "one
    entry per failing field across all configured slots" ask for. *)
Definition allSlotErrors (validation : option ValidationConfig) (raw : RawInput)
    : list ValidationErrorDetail :=
  let issuesOf (schema : option Schema) (value : Json) :=
    match schema with
    | Some sch =>
        match sch value with
        | ParseFailure issues => formatZodErrors issues
        | ParseSuccess _ => []
        end
    | None => []
    end in
  match validation with
  | Some v =>
      issuesOf (validation_params v) (input_params raw)
        ++ issuesOf (validation_query v) (input_query raw)
        ++ issuesOf (validation_body v) (input_body raw)
  | None => []
  end.

(** ** The handler execution step, read per attempt *)

(** Step 7 as the words "timeout wraps each individual retryable
    invocation" describe it: every attempt of the retry loop runs under
    its own timeout guard.  It is here to be compared with
    [stepExecuteHandler]. *)
Definition stepExecuteHandler_perAttempt {TContext TResult : Type} (timeoutMessage : string)
    (input : PipelineInput TContext TResult) (ctx : TContext) : M TResult :=
  let runHandler := executeHandler input ctx in
  let timeout := effectiveTimeout (options input) (defaults input) in
  let guarded :=
    if truthy timeout
    then withTimeout timeoutMessage runHandler (default 0 timeout)
    else runHandler in
  match opt_retry (options input) with
  | Some retry =>
      withRetry guarded retry (logger_adapter (adapters input)) (Some (requestId input))
  | None => guarded
  end.

(** Steps 1 to 4 went through: the world [w3] and the [user] with which
    step 5 starts. *)
Definition reachesValidation {TContext TResult : Type}
    (input : PipelineInput TContext TResult) (w : World) (user : BaseUser) (w3 : World) : Prop :=
  exists w1 w2,
    (stepLogStart input ;; stepAuthentication input) w = (Ok user, w1) /\
    stepTenantScoping input user w1 = (Ok tt, w2) /\
    stepRateLimiting input user w2 = (Ok None, w3).

(** Steps 1 to 3 went through and step 4 rejected the request. *)
Definition rateLimitRejects {TContext TResult : Type}
    (input : PipelineInput TContext TResult) (w : World) (user : BaseUser)
    (result : RateLimitResult) (w3 : World) : Prop :=
  exists w1 w2,
    (stepLogStart input ;; stepAuthentication input) w = (Ok user, w1) /\
    stepTenantScoping input user w1 = (Ok tt, w2) /\
    stepRateLimiting input user w2 = (Ok (Some result), w3).

(** The same invocation with another handler executor. *)
Definition withExecuteHandler {TContext TResult : Type} (h : TContext -> M TResult)
    (input : PipelineInput TContext TResult) : PipelineInput TContext TResult :=
  {| requestId := requestId input;
     method := method input;
     path := path input;
     getAuthContext := getAuthContext input;
     getIdentifier := getIdentifier input;
     getRawInput := getRawInput input;
     buildContext := buildContext input;
     executeHandler := h;
     onRateLimited := onRateLimited input;
     onSuccess := onSuccess input;
     onError := onError input;
     options := options input;
     adapters := adapters input;
     defaults := defaults input |}.

(** The response served from a stored envelope, with its header list
    written out. *)
Definition hitResponseOf (cached : CachedResponse) (requestId : string) : Response :=
  {| resp_body := cached_body cached;
     resp_status := cached_status cached;
     resp_headers :=
       map (fun kv => (lower (fst kv), snd kv))
         (record_set "X-Cache" "HIT"
            (record_set "X-Request-ID" requestId (cached_headers cached))) |}.

(** [n + 1] checks of one key in a row; the answer of the last. *)
Fixpoint checkAgain (n : nat) (key : string) (config : RateLimitConfig) : M RateLimit.Result :=
  match n with
  | O => checkRateLimit true key config
  | S n' => checkRateLimit true key config ;; checkAgain n' key config
  end.

(** [n + 1] requests of one user in a row that reach step 4; what the
    step answers to the last. *)
Fixpoint limitAgain {TContext TResult : Type} (n : nat)
    (input : PipelineInput TContext TResult) (user : BaseUser) : M (option RateLimitResult) :=
  match n with
  | O => stepRateLimiting input user
  | S n' => stepRateLimiting input user ;; limitAgain n' input user
  end.

(** One request after the other through a route handler, each with the
    request id generated for it. *)
Fixpoint serveAll (route : string -> M Response) (generatedIds : list string)
    : M (list Response) :=
  match generatedIds with
  | [] => ret []
  | gid :: rest =>
      let* response := route gid in
      let* responses := serveAll route rest in
      ret (response :: responses)
  end.

(** [w'] is [w] after some logger calls, none of them an audit call. *)
Definition quietFrom (w w' : World) : Prop :=
  exists l, logs w' = logs w ++ l /\ auditsOf l = [].

(** A computation that makes no audit call of its own. *)
Definition emitsNoAudit {A} (m : M A) : Prop :=
  forall w, quietFrom w (snd (m w)).

(** The three ways an invocation from [w] can end in [(r, w')], by the
    audit records it left: one record of success, and the outcome is
    the success converter's; one record of failure with the status and
    code of the error caught, and the outcome is the error converter's;
    none, and the outcome is what [onRateLimited] returned for a
    rejected request. *)
Definition auditedSuccess {TContext TResult : Type} (input : PipelineInput TContext TResult)
    (w w' : World) (r : Outcome TResult) : Prop :=
  exists a result meta w'',
    auditsOf (newLogs w w') = [a] /\
    audit_success a = true /\ audit_status a = 200 /\ audit_errorCode a = None /\
    (r, w') = onSuccess input result meta w''.

Definition auditedFailure {TContext TResult : Type} (input : PipelineInput TContext TResult)
    (w w' : World) (r : Outcome TResult) : Prop :=
  exists a error meta w'',
    auditsOf (newLogs w w') = [a] /\
    audit_success a = false /\ audit_status a = errorStatus error /\
    audit_errorCode a = Some (errorCode error) /\
    (r, w') = onError input error meta w''.

Definition rateLimitedUnaudited {TContext TResult : Type}
    (input : PipelineInput TContext TResult) (w w' : World) (r : Outcome TResult) : Prop :=
  exists user result w3 value,
    rateLimitRejects input w user result w3 /\
    onRateLimited input result w3 = (Ok value, w') /\
    r = Ok value /\
    auditsOf (newLogs w w') = [].

(** ** Scenarios: concrete routes, used to run the definitions *)

Module Scenarios.

Definition world0 : World :=
  {| now := 1000; logs := []; handlerCalls := 0; verifyCalls := 0; sleeps := [];
     counters := ∅; store := ∅ |}.

Definition plainParsers : Parsers :=
  {| getClientIp := fun _ => "unknown"%string;
     getUserAgent := fun _ => "unknown"%string;
     parseQuery := fun _ => JObj [];
     parseBody := fun _ => Ok (JObj [("name", JStr EmptyString); ("email", JStr "invalid")]%string);
     parseCookies := fun _ => None |}.

Definition getTest : Request :=
  {| req_method := "GET"; req_pathname := "/api/test"; req_search := EmptyString;
     req_headers := Headers_of_record [("Content-Type", "application/json")]%string |}.

Definition postTest : Request :=
  {| req_method := "POST"; req_pathname := "/api/test"; req_search := EmptyString;
     req_headers := Headers_of_record [("Content-Type", "application/json")]%string |}.

Definition noOptions : PipelineOptions :=
  {| opt_auth := None; opt_tenantScoped := None; opt_rateLimit := RateLimitUnset;
     opt_timeout := None; opt_retry := None; opt_audit := None; opt_validation := None |}.

Definition adaptersOf (auth : option AuthAdapter) (cache logger : bool) : WrapperConfig :=
  {| cfg_adapters := {| auth_adapter := auth; cache_adapter := cache; logger_adapter := logger |};
     cfg_defaults := None; cfg_transformers := None |}.

Definition okBody : Json := JObj [("ok", JBool true)]%string.

(** A handler that settles at once with [{ ok: true }]. *)
Definition okHandler : ApiContext -> Script HandlerResult :=
  fun _ _ => (0%N, Ok (ReturnsValue okBody)).

Definition serviceUnavailable : Thrown :=
  ThrownApiError (ApiResponse.error "Service unavailable" (Some 503) None).

(** Each call takes 30 ms; the first two throw a 503, the third
    settles with [{ ok: true }]. *)
Definition flaky : Script HandlerResult :=
  fun i => (30%N, if (i <? 2)%nat then Throw serviceUnavailable else Ok (ReturnsValue okBody)).

Definition retry3 : RetryConfig :=
  {| attempts := 3; delayMs := Some 10; retryOn := None; shouldRetry := None |}.

(** [{ retry: { attempts: 3, delayMs: 10 }, timeout: 50 }] *)
Definition retryAndTimeout : PipelineOptions :=
  {| opt_auth := None; opt_tenantScoped := None; opt_rateLimit := RateLimitUnset;
     opt_timeout := Some 50; opt_retry := Some retry3; opt_audit := None;
     opt_validation := None |}.

Definition flakyInput : PipelineInput ApiContext Response :=
  apiPipelineInput defaultTransformers plainParsers (adaptersOf None false true)
    (fun _ => flaky) {| wo_pipeline := retryAndTimeout; wo_cache := None |}
    "req-1" getTest (JObj []).

Definition flakyCtx : ApiContext :=
  buildContext flakyInput ANONYMOUS_USER
    {| input_params := JObj []; input_query := JObj []; input_body := JUndefined |}.

(** A route that requires authentication, in a wrapper without auth
    adapter. *)
Definition authRequired : PipelineOptions :=
  {| opt_auth := Some []; opt_tenantScoped := None; opt_rateLimit := RateLimitUnset;
     opt_timeout := None; opt_retry := None; opt_audit := None; opt_validation := None |}.

Definition unwiredRoute : string -> Request -> Json -> M Response :=
  apiWrapper "Request timeout" defaultTransformers plainParsers (adaptersOf None false true)
    okHandler {| wo_pipeline := authRequired; wo_cache := None |}.

Definition unwiredInput : PipelineInput ApiContext Response :=
  apiPipelineInput defaultTransformers plainParsers (adaptersOf None false true)
    okHandler {| wo_pipeline := authRequired; wo_cache := None |} "req-1" getTest (JObj []).

(** An auth adapter that knows one user, with role [user]. *)
Definition user1 : BaseUser :=
  {| user_id := IdString "user-1"; user_fields := [("role", JStr "user")]%string |}.

Definition authAdapter (answer : option BaseUser) : AuthAdapter :=
  {| verify := fun _ => Ok answer;
     hasRole := fun u roles =>
       Ok (match roles with
           | [] => true
           | _ => existsb (fun r => match user_fields u with
                                    | [(_, JStr role)] => String.eqb r role
                                    | _ => false
                                    end) roles
           end);
     isTenantValid := None |}.

Definition authOptions (roles : list string) : PipelineOptions :=
  {| opt_auth := Some roles; opt_tenantScoped := None; opt_rateLimit := RateLimitUnset;
     opt_timeout := None; opt_retry := None; opt_audit := None; opt_validation := None |}.

Definition authInput (answer : option BaseUser) (roles : list string)
    : PipelineInput ApiContext Response :=
  apiPipelineInput defaultTransformers plainParsers
    (adaptersOf (Some (authAdapter answer)) false true)
    okHandler {| wo_pipeline := authOptions roles; wo_cache := None |}
    "req-1" getTest (JObj []).

(** Schemas in the manner of [z.object({ id: z.string().uuid() })] and
    [z.object({ name: z.string().min(1), email: z.string().email() })]:
    each reports one issue per field it rejects. *)
Definition paramsSchema : Schema :=
  fun raw =>
    match raw with
    | JObj [("id", JStr "550e8400-e29b-41d4-a716-446655440000")]%string => ParseSuccess raw
    | _ => ParseFailure [{| issue_path := [KeyString "id"]; issue_message := "Invalid uuid" |}]
    end.

Definition bodySchema : Schema :=
  fun raw =>
    match raw with
    | JObj [("name", JStr name); ("email", JStr email)]%string =>
        let nameIssues :=
          if String.eqb name EmptyString
          then [{| issue_path := [KeyString "name"]; issue_message := "Too short" |}]
          else [] in
        let emailIssues :=
          if String.eqb email "invalid"
          then [{| issue_path := [KeyString "email"]; issue_message := "Invalid email" |}]
          else [] in
        match nameIssues ++ emailIssues with
        | [] => ParseSuccess raw
        | issues => ParseFailure issues
        end
    | _ => ParseFailure [{| issue_path := []; issue_message := "Expected object" |}]
    end.

Definition validated : PipelineOptions :=
  {| opt_auth := None; opt_tenantScoped := None; opt_rateLimit := RateLimitUnset;
     opt_timeout := None; opt_retry := None; opt_audit := None;
     opt_validation := Some {| validation_params := Some paramsSchema;
                               validation_query := None;
                               validation_body := Some bodySchema |} |}.

(** A POST route validating params and body; [plainParsers] reads the
    body [{ name: EmptyString, email: "invalid" }]. *)
Definition validatedRoute : string -> Request -> Json -> M Response :=
  apiWrapper "Request timeout" defaultTransformers plainParsers (adaptersOf None false true)
    okHandler {| wo_pipeline := validated; wo_cache := None |}.

Definition validatedInput : PipelineInput ApiContext Response :=
  apiPipelineInput defaultTransformers plainParsers (adaptersOf None false true)
    okHandler {| wo_pipeline := validated; wo_cache := None |}
    "gen-1" postTest (JObj [("id", JStr "not-a-uuid")]%string).

Definition rawOfValidated : RawInput :=
  {| input_params := JObj [("id", JStr "not-a-uuid")]%string;
     input_query := JObj [];
     input_body := JObj [("name", JStr EmptyString); ("email", JStr "invalid")]%string |}.

(** A GET route cached for a minute, in a wrapper with cache adapter
    and logger; rate limiting is off. *)
Definition cachedOptions : WrapperOptions :=
  {| wo_pipeline :=
       {| opt_auth := None; opt_tenantScoped := None; opt_rateLimit := RateLimitDisabled;
          opt_timeout := None; opt_retry := None; opt_audit := None;
          opt_validation := None |};
     wo_cache := Some {| ttlMs := 60000; keyGenerator := None; successOnly := None |} |}.

Definition cachedRoute : string -> Request -> Json -> M Response :=
  apiWrapper "Request timeout" defaultTransformers plainParsers (adaptersOf None true true)
    okHandler cachedOptions.

(** The world after a first request to [cachedRoute], a miss. *)
Definition worldAfterMiss : World :=
  snd (cachedRoute "gen-1" getTest (JObj []) world0).

Definition storedEnvelope : CachedResponse :=
  {| cached_body := JObj [("success", JBool true); ("data", okBody)]%string;
     cached_status := 200;
     cached_headers := [("content-type", "application/json"); ("x-request-id", "gen-1")]%string |}.

(** A route limited to one request per minute. *)
Definition limitedOptions : WrapperOptions :=
  {| wo_pipeline :=
       {| opt_auth := None; opt_tenantScoped := None;
          opt_rateLimit := RateLimitWith {| max := 1; windowMs := 60000 |};
          opt_timeout := None; opt_retry := None; opt_audit := None;
          opt_validation := None |};
     wo_cache := None |}.

Definition limitedRoute : string -> Request -> Json -> M Response :=
  apiWrapper "Request timeout" defaultTransformers plainParsers (adaptersOf None true true)
    okHandler limitedOptions.

Definition limitedInput : PipelineInput ApiContext Response :=
  apiPipelineInput defaultTransformers plainParsers (adaptersOf None true true)
    okHandler limitedOptions "gen-1" getTest (JObj []).

(** The same route with a window of minus one minute. *)
Definition backdatedInput : PipelineInput ApiContext Response :=
  apiPipelineInput defaultTransformers plainParsers (adaptersOf None true true)
    okHandler
    {| wo_pipeline :=
         {| opt_auth := None; opt_tenantScoped := None;
            opt_rateLimit := RateLimitWith {| max := 1; windowMs := -60000 |};
            opt_timeout := None; opt_retry := None; opt_audit := None;
            opt_validation := None |};
       wo_cache := None |}
    "gen-1" getTest (JObj []).

(** The world after a first request to [limitedRoute]. *)
Definition worldAfterFirst : World :=
  snd (limitedRoute "gen-1" getTest (JObj []) world0).

(** The routes of the test suite. *)
Definition publicRoute : string -> Request -> Json -> M Response :=
  apiWrapper "Request timeout" defaultTransformers plainParsers (adaptersOf None false false)
    okHandler {| wo_pipeline := noOptions; wo_cache := None |}.

Definition authRoute (answer : option BaseUser) (roles : list string)
    : string -> Request -> Json -> M Response :=
  apiWrapper "Request timeout" defaultTransformers plainParsers
    (adaptersOf (Some (authAdapter answer)) false true)
    okHandler {| wo_pipeline := authOptions roles; wo_cache := None |}.

Definition failingRoute : string -> Request -> Json -> M Response :=
  apiWrapper "Request timeout" defaultTransformers plainParsers (adaptersOf None false true)
    (fun _ _ => (0%N, Throw (ThrownError "Error" "Database connection failed")))
    {| wo_pipeline := noOptions; wo_cache := None |}.

Definition retryOnly : PipelineOptions :=
  {| opt_auth := None; opt_tenantScoped := None; opt_rateLimit := RateLimitUnset;
     opt_timeout := None; opt_retry := Some retry3; opt_audit := None;
     opt_validation := None |}.

Definition flakyRoute : string -> Request -> Json -> M Response :=
  apiWrapper "Request timeout" defaultTransformers plainParsers (adaptersOf None false true)
    (fun _ => flaky) {| wo_pipeline := retryOnly; wo_cache := None |}.

Definition timeout50 : PipelineOptions :=
  {| opt_auth := None; opt_tenantScoped := None; opt_rateLimit := RateLimitUnset;
     opt_timeout := Some 50; opt_retry := None; opt_audit := None;
     opt_validation := None |}.

Definition slowRoute : string -> Request -> Json -> M Response :=
  apiWrapper "Request timeout" defaultTransformers plainParsers (adaptersOf None false false)
    (fun _ _ => (200%N, Ok (ReturnsValue okBody)))
    {| wo_pipeline := timeout50; wo_cache := None |}.

End Scenarios.


(** ** Further code: error.ts, response/base.ts, response/api.ts, utils/redact.ts *)

(** error.ts: [toJSON] and [toResponse] of [ApiError]. *)
Definition ApiError_toJSON (e : ApiError) : Json :=
  let json := [("success", JBool false); ("message", JStr (err_message e));
               ("code", JStr (err_code e))]%string in
  match err_errors e with
  | Some (d :: ds) => JObj (json ++ [("errors"%string, JArr (map detail_to_json (d :: ds)))])
  | _ => JObj json
  end.

Definition ApiError_toResponse (e : ApiError) : Outcome Response :=
  Response_new (ApiError_toJSON e) (err_status e) [("Content-Type", "application/json")]%string.

(** response/base.ts: [ErrorInfo] and the error methods of the abstract
    [BaseResponse], over the [wrapError] of the subclass. *)
Record ErrorInfo : Type := {
  info_message : string;
  info_status : Z;
  info_code : string;
  info_errors : option (list ValidationErrorDetail)
}.

Module BaseResponse.
Section ErrorMethods.

Context {TError : Type}.
Variable wrapError : ErrorInfo -> TError.

Definition error (message : string) (status : option Z) (code : option string)
    (errors : option (list ValidationErrorDetail)) : TError :=
  wrapError {| info_message := message; info_status := default 400 status;
               info_code := default "BAD_REQUEST"%string code; info_errors := errors |}.

Definition badRequest (message : option string) : TError :=
  wrapError {| info_message := default "Bad request"%string message; info_status := 400;
               info_code := "BAD_REQUEST"; info_errors := None |}.

Definition unauthorized (message : option string) : TError :=
  wrapError {| info_message := default "Authentication required"%string message;
               info_status := 401; info_code := "UNAUTHORIZED"; info_errors := None |}.

Definition forbidden (message : option string) : TError :=
  wrapError {| info_message := default "Access denied"%string message; info_status := 403;
               info_code := "FORBIDDEN"; info_errors := None |}.

Definition notFound (message : option string) : TError :=
  wrapError {| info_message := default "Resource not found"%string message; info_status := 404;
               info_code := "NOT_FOUND"; info_errors := None |}.

Definition conflict (message : option string) : TError :=
  wrapError {| info_message := default "Resource already exists"%string message;
               info_status := 409; info_code := "CONFLICT"; info_errors := None |}.

Definition validationError (message : option string)
    (errors : option (list ValidationErrorDetail)) : TError :=
  wrapError {| info_message := default "Validation failed"%string message; info_status := 422;
               info_code := "VALIDATION_ERROR"; info_errors := errors |}.

Definition tooManyRequests (message : option string) : TError :=
  wrapError {| info_message := default "Rate limit exceeded"%string message; info_status := 429;
               info_code := "TOO_MANY_REQUESTS"; info_errors := None |}.

Definition internalError (message : option string) : TError :=
  wrapError {| info_message := default "Internal server error"%string message;
               info_status := 500; info_code := "INTERNAL_ERROR"; info_errors := None |}.

Definition badGateway (message : option string) : TError :=
  wrapError {| info_message := default "Bad gateway"%string message; info_status := 502;
               info_code := "BAD_GATEWAY"; info_errors := None |}.

Definition serviceUnavailable (message : option string) : TError :=
  wrapError {| info_message := default "Service temporarily unavailable"%string message;
               info_status := 503; info_code := "SERVICE_UNAVAILABLE"; info_errors := None |}.

Definition gatewayTimeout (message : option string) : TError :=
  wrapError {| info_message := default "Gateway timeout"%string message; info_status := 504;
               info_code := "GATEWAY_TIMEOUT"; info_errors := None |}.

End ErrorMethods.
End BaseResponse.

(** response/api.ts: [ApiResponseClass.wrapError]. *)
Definition ApiResponseClass_wrapError (info : ErrorInfo) : ApiError :=
  {| err_message := info_message info; err_status := info_status info;
     err_code := info_code info; err_errors := info_errors info |}.

(** utils/redact.ts. *)
Definition SENSITIVE_FIELDS : list string :=
  ["password"; "token"; "secret"; "apiKey"; "api_key"; "authorization"; "cookie";
   "creditCard"; "credit_card"; "ssn"; "cvv"]%string.

Definition REDACTED : string := "[REDACTED]".

(** [s.includes(sub)] *)
Fixpoint String_includes (s sub : string) : bool :=
  (String.prefix sub s
   || match s with
      | EmptyString => false
      | String _ s' => String_includes s' sub
      end)%bool.

Definition sensitiveHeaders : list string :=
  ["authorization"; "cookie"; "set-cookie"; "x-api-key"; "x-auth-token";
   "x-access-token"]%string.

(** The argument of [redactHeaders]: a [Headers] object or a record. *)
Inductive HeadersOrRecord : Type :=
| OfHeaders (h : Headers)
| OfRecord (r : StringRecord).

Section Redact.

(** [String.prototype.toLowerCase], the platform's: on ASCII strings it
    is [lower], on others it follows the Unicode case mappings. *)
Variable toLowerCase : string -> string.

(** The members of [sensitiveSet], in insertion order. *)
Definition sensitiveSet (additionalFields : list string) : list string :=
  SENSITIVE_FIELDS ++ map toLowerCase additionalFields.

(** Whether the loop of [redact] replaces the value under [key]: the
    lower-cased key is in the set, or contains a member, or is contained
    in one. *)
Definition isSensitiveKey (additionalFields : list string) (key : string) : bool :=
  let lowerKey := toLowerCase key in
  (existsb (String.eqb lowerKey) (sensitiveSet additionalFields)
   || existsb (fun field => String_includes lowerKey field || String_includes field lowerKey)
        (sensitiveSet additionalFields))%bool.

(** [redact(obj, additionalFields)].  The fields of a [JObj] are the
    own entries of the object in the order of [Object.entries], with
    distinct keys; the result has its entries in the same order.  The
    result is filled by [result[key] = ...]: for the key [__proto__]
    that assignment makes no own entry (it goes to the setter of
    [Object.prototype], which changes at most the prototype of the
    result), so such an entry of [obj] is not among the entries of the
    result. *)
Fixpoint redact (additionalFields : list string) (obj : Json) : Json :=
  match obj with
  | JArr items => JArr (map (redact additionalFields) items)
  | JObj fields =>
      JObj (flat_map
              (fun kv =>
                 match kv with
                 | (key, value) =>
                     if String.eqb key "__proto__" then []
                     else
                       [(key,
                         if isSensitiveKey additionalFields key then JStr REDACTED
                         else match value with
                              | JArr _ | JObj _ => redact additionalFields value
                              | _ => value
                              end)]
                 end) fields)
  | _ => obj
  end.

(** [redactHeaders(headers)]; [result[key] = ...] as in [redact]. *)
Definition redactHeaders (headers : HeadersOrRecord) : StringRecord :=
  let entries :=
    match headers with
    | OfHeaders h => Headers_entries h
    | OfRecord r => r
    end in
  fold_left
    (fun result kv =>
       record_assign (fst kv)
         (if existsb (String.eqb (toLowerCase (fst kv))) sensitiveHeaders
          then REDACTED else snd kv)
         result)
    entries [].

(** Whether every value under a sensitive key, at any depth, reads
    [REDACTED]. *)
Fixpoint isClean (additionalFields : list string) (obj : Json) : bool :=
  match obj with
  | JArr items => forallb (isClean additionalFields) items
  | JObj fields =>
      forallb (fun kv =>
                 match kv with
                 | (key, value) =>
                     if isSensitiveKey additionalFields key
                     then match value with
                          | JStr s => String.eqb s REDACTED
                          | _ => false
                          end
                     else isClean additionalFields value
                 end) fields
  | _ => true
  end.

(** Whether some key, at any depth, is sensitive. *)
Fixpoint hasSensitiveKey (additionalFields : list string) (obj : Json) : bool :=
  match obj with
  | JArr items => existsb (hasSensitiveKey additionalFields) items
  | JObj fields =>
      existsb (fun kv =>
                 match kv with
                 | (key, value) =>
                     (isSensitiveKey additionalFields key
                      || hasSensitiveKey additionalFields value)%bool
                 end) fields
  | _ => false
  end.

End Redact.

(** Whether a string has only characters below 128, on which
    [toLowerCase] is [lower]. *)
Definition isAscii (s : string) : bool :=
  forallb (fun c => (nat_of_ascii c <? 128)%nat) (list_ascii_of_string s).

(** Whether some object, at any depth, has an own key [__proto__]. *)
Fixpoint hasProtoKey (obj : Json) : bool :=
  match obj with
  | JArr items => existsb hasProtoKey items
  | JObj fields =>
      existsb (fun kv =>
                 match kv with
                 | (key, value) => (String.eqb key "__proto__" || hasProtoKey value)%bool
                 end) fields
  | _ => false
  end.

(** Whether the constructor of [Response] takes a body with the status. *)
Definition statusTakesBody (status : Z) : bool :=
  ((200 <=? status) && (status <=? 599) && negb (nullBodyStatus status))%bool.

(** An error thrown by the constructor of [Response], for a status with
    which it takes no body. *)
Definition constructorFailure (error : Thrown) : Prop :=
  exists hasBody body status headers,
    Response_init hasBody body status headers = Throw error /\
    statusTakesBody status = false.

(** ** Further observations on runs *)

(** A computation that leaves a component of the world as it found it. *)
Definition keeps {X A : Type} (proj : World -> X) (m : M A) : Prop :=
  forall w, proj (snd (m w)) = proj w.

Definition sumZ (l : list Z) : Z := fold_right Z.add 0 l.

(** The sleeps a run from [w] to [w'] added. *)
Definition newSleeps (w w' : World) : list Z :=
  skipn (length (sleeps w)) (sleeps w').

(** What step 5 leaves in a slot that passes: the output of its schema,
    or the raw value when the slot has no schema. *)
Definition parsedSlot (schema : option Schema) (raw : Json) : Json :=
  match schema with
  | Some sch =>
      match sch raw with
      | ParseSuccess data => data
      | ParseFailure _ => raw
      end
  | None => raw
  end.

(** A computation that invokes the business handler at most [n] times. *)
Definition callsAtMost {A : Type} (n : nat) (m : M A) : Prop :=
  forall w, (handlerCalls (snd (m w)) <= handlerCalls w + n)%nat.

(** ** More scenarios *)

Module MoreScenarios.

(** A server action [createUser], in a wrapper with cache adapter and
    logger and no options. *)
Definition createUser : ActionContext -> Script Json :=
  fun ctx _ => (0%N, Ok (action_parsedBody ctx)).

Definition createUserInput : PipelineInput ActionContext Json :=
  actionPipelineInput (Scenarios.adaptersOf None true true) None createUser "createUser"
    Scenarios.noOptions "gen-1" (JObj []).

(** The same action behind an auth requirement, in a wrapper with no
    auth adapter. *)
Definition guardedInput : PipelineInput ActionContext Json :=
  actionPipelineInput (Scenarios.adaptersOf None true true) None createUser "createUser"
    Scenarios.authRequired "gen-1" (JObj []).

(** A tenant-scoped route behind an auth adapter that knows [user1]
    and finds no tenant for it; cache adapter and logger are there. *)
Definition tenantAdapter : AuthAdapter :=
  {| verify := fun _ => Ok (Some Scenarios.user1);
     hasRole := fun _ _ => Ok true;
     isTenantValid := Some (fun _ _ => Ok false) |}.

Definition tenantScopedOptions : WrapperOptions :=
  {| wo_pipeline :=
       {| opt_auth := Some []; opt_tenantScoped := Some true; opt_rateLimit := RateLimitUnset;
          opt_timeout := None; opt_retry := None; opt_audit := None;
          opt_validation := None |};
     wo_cache := None |}.

Definition tenantInput : PipelineInput ApiContext Response :=
  apiPipelineInput defaultTransformers Scenarios.plainParsers
    (Scenarios.adaptersOf (Some tenantAdapter) true true) Scenarios.okHandler
    tenantScopedOptions "gen-1" Scenarios.getTest (JObj []).

End MoreScenarios.
(** * Properties *)

(** ** The retry loop *)

Lemma attemptsFrom_S a j : attemptsFrom a (S j) = a :: attemptsFrom (a + 1) j.
Proof.
  unfold attemptsFrom. simpl. f_equal. { f_equal. lia. }
  rewrite <- seq_shift, map_map. apply map_ext. intros. lia.
Qed.

Lemma attemptsFrom_length a j : length (attemptsFrom a j) = j.
Proof. unfold attemptsFrom. now rewrite length_map, length_seq. Qed.

(** [j] retryable failures, then a call that ends the loop: the loop
    answers what that call answered, after [j] warnings and [j] sleeps. *)
Lemma retryLoop_run A (f : Script A) config logger requestId :
  forall (j remaining : nat) (attempt : Z) (lastError : Thrown) (w : World),
    (j < remaining)%nat ->
    attempts config = attempt + Z.of_nat remaining - 1 ->
    (forall i, (i < j)%nat -> exists e,
        snd (f (handlerCalls w + i)%nat) = Throw e /\
        shouldRetryThis config e (attempt + Z.of_nat i) = true) ->
    (match snd (f (handlerCalls w + j)%nat) with
     | Ok _ => True
     | Throw e => shouldRetryThis config e (attempt + Z.of_nat j) = false
                  \/ attempt + Z.of_nat j = attempts config
     end) ->
    let '(r, w') := retryLoop (invoke f) config logger requestId remaining attempt lastError w in
    r = snd (f (handlerCalls w + j)%nat) /\
    handlerCalls w' = (handlerCalls w + S j)%nat /\
    sleeps w' = sleeps w ++ map (retryDelay config) (attemptsFrom attempt j) /\
    logs w' = logs w ++ (if logger then map (retryWarning config requestId) (attemptsFrom attempt j)
                         else []).
Proof.
  induction j as [|j IH]; intros remaining attempt lastError w Hlt Hatt Hfail Hfinal.
  - destruct remaining as [|remaining]; [lia|].
    cbn [retryLoop]. unfold tryCatch, invoke.
    replace (handlerCalls w + 0)%nat with (handlerCalls w) in * by lia.
    destruct (f (handlerCalls w)) as [d r] eqn:Ef. cbn [snd] in *.
    replace (attempt + Z.of_nat 0) with attempt in Hfinal by lia.
    destruct r as [v|e].
    + destruct logger; cbn; rewrite ?app_nil_r; repeat split; try lia; reflexivity.
    + assert (Hstop : (negb (shouldRetryThis config e attempt)
                       || (attempt =? attempts config))%bool = true).
      { destruct Hfinal as [-> | ->]; [reflexivity|]. rewrite Z.eqb_refl. apply orb_true_r. }
      rewrite Hstop. destruct logger; cbn; rewrite ?app_nil_r; repeat split; try lia; reflexivity.
  - destruct remaining as [|remaining]; [lia|].
    cbn [retryLoop]. unfold tryCatch at 1. unfold invoke at 1.
    destruct (Hfail O ltac:(lia)) as [e [He Hre]].
    replace (handlerCalls w + 0)%nat with (handlerCalls w) in He by lia.
    replace (attempt + Z.of_nat 0) with attempt in Hre by lia.
    destruct (f (handlerCalls w)) as [d r] eqn:Ef. cbn [snd] in He. subst r.
    rewrite Hre. cbn [negb orb].
    replace (attempt =? attempts config) with false by (symmetry; apply Z.eqb_neq; lia).
    unfold bind at 1. unfold log at 1. unfold bind at 1. unfold sleep at 1.
    set (w1 := set_now _ (add_sleep _ _)).
    specialize (IH remaining (attempt + 1) e w1).
    assert (Hc : handlerCalls w1 = S (handlerCalls w)) by (subst w1; destruct logger; reflexivity).
    rewrite Hc in IH.
    destruct (retryLoop (invoke f) config logger requestId remaining (attempt + 1) e w1) as [r w'].
    destruct IH as (Hr & Hcalls & Hsleeps & Hlogs).
    + lia.
    + lia.
    + intros i Hi. destruct (Hfail (S i) ltac:(lia)) as [e' [He' Hre']].
      exists e'. split.
      * rewrite <- He'. do 2 f_equal. lia.
      * rewrite <- Hre'. f_equal. lia.
    + replace (S (handlerCalls w) + j)%nat with (handlerCalls w + S j)%nat by lia.
      replace (attempt + 1 + Z.of_nat j) with (attempt + Z.of_nat (S j)) by lia.
      exact Hfinal.
    + rewrite attemptsFrom_S. cbn [map].
      repeat split.
      * rewrite Hr. do 2 f_equal. lia.
      * lia.
      * rewrite Hsleeps. subst w1. destruct logger; cbn; rewrite <- app_assoc; reflexivity.
      * rewrite Hlogs. subst w1. destruct logger; cbn; rewrite <- ?app_assoc; reflexivity.
Qed.

Lemma newLogs_app (w w' : World) (l : list LogCall) :
  logs w' = logs w ++ l -> newLogs w w' = l.
Proof.
  intros H. unfold newLogs. rewrite H, skipn_app, skipn_all, Nat.sub_diag. reflexivity.
Qed.

Lemma retryWarnings_are_warn config requestId (l : list Z) :
  length (List.filter is_warn (map (retryWarning config requestId) l)) = length l.
Proof. induction l as [|a l IH]; cbn; [reflexivity|]. now rewrite IH. Qed.

(** C7: with [attempts >= 1], an operation whose calls 1..k-1 fail
    retryably and whose call [k <= attempts] either succeeds, or fails
    with a failure that is not retryable or is the last attempt's, makes
    [withRetry] answer what call [k] answered (the success, or that
    failure rethrown) after exactly [k] calls, [k-1] warn-level lines and
    [k-1] sleeps of [delayMs * 2^(attempt-1)], none after call [k]; a
    custom [shouldRetry] alone decides what is retryable, and without
    one only [ApiError]s whose status is in [retryOn] are. *)
Theorem withRetry_kth_attempt A (f : Script A) (config : RetryConfig) (logger : bool)
    (requestId : option string) (w : World) (k : nat) :
  1 <= attempts config ->
  (1 <= k)%nat ->
  Z.of_nat k <= attempts config ->
  (forall i, (i < k - 1)%nat -> exists e,
      snd (f (handlerCalls w + i)%nat) = Throw e /\
      shouldRetryThis config e (Z.of_nat i + 1) = true) ->
  (match snd (f (handlerCalls w + (k - 1))%nat) with
   | Ok _ => True
   | Throw e => shouldRetryThis config e (Z.of_nat k) = false \/ Z.of_nat k = attempts config
   end) ->
  let '(r, w') := withRetry (invoke f) config logger requestId w in
  r = snd (f (handlerCalls w + (k - 1))%nat) /\
  handlerCalls w' = (handlerCalls w + k)%nat /\
  sleeps w' = sleeps w ++ map (fun attempt => default 100 (delayMs config) * 2 ^ (attempt - 1))
                            (attemptsFrom 1 (k - 1)) /\
  logs w' = logs w ++ (if logger
                       then map (retryWarning config requestId) (attemptsFrom 1 (k - 1))
                       else []) /\
  length (List.filter is_warn (newLogs w w')) = (if logger then (k - 1)%nat else O) /\
  (forall error attempt,
      shouldRetryThis config error attempt =
      match shouldRetry config with
      | Some predicate => predicate error attempt
      | None =>
          match error with
          | ThrownApiError e =>
              existsb (Z.eqb (err_status e)) (default [502; 503; 504] (retryOn config))
          | _ => false
          end
      end).
Proof.
  intros Hatt Hk Hle Hfail Hfinal. unfold withRetry.
  pose proof (retryLoop_run A f config logger requestId (k - 1)
                (Z.to_nat (attempts config)) 1 (ThrownValue PUndefined) w) as H.
  destruct (retryLoop (invoke f) config logger requestId (Z.to_nat (attempts config)) 1
              (ThrownValue PUndefined) w) as [r w'].
  destruct H as (Hr & Hcalls & Hsleeps & Hlogs).
  - lia.
  - lia.
  - intros i Hi. destruct (Hfail i Hi) as [e [He Hre]]. exists e. split; [exact He|].
    rewrite <- Hre. f_equal. lia.
  - destruct (snd (f (handlerCalls w + (k - 1))%nat)); [exact I|].
    replace (1 + Z.of_nat (k - 1)) with (Z.of_nat k) by lia. exact Hfinal.
  - repeat split.
    + exact Hr.
    + lia.
    + exact Hsleeps.
    + exact Hlogs.
    + rewrite (newLogs_app _ _ _ Hlogs).
      destruct logger; [|reflexivity].
      now rewrite retryWarnings_are_warn, attemptsFrom_length.
Qed.

Lemma withRetry_kth_attempt_witness :
  let '(r, w') := withRetry (invoke Scenarios.flaky) Scenarios.retry3 true (Some "req-1"%string)
                    Scenarios.world0 in
  r = Ok (ReturnsValue Scenarios.okBody) /\
  handlerCalls w' = 3%nat /\
  sleeps w' = [10; 20] /\
  length (List.filter is_warn (newLogs Scenarios.world0 w')) = 2%nat.
Proof.
  pose proof (withRetry_kth_attempt _ Scenarios.flaky Scenarios.retry3 true
                (Some "req-1"%string) Scenarios.world0 3) as H.
  destruct (withRetry (invoke Scenarios.flaky) Scenarios.retry3 true (Some "req-1"%string)
              Scenarios.world0) as [r w'].
  destruct H as (Hr & Hc & Hs & _ & Hw & _).
  - vm_compute. discriminate.
  - lia.
  - vm_compute. discriminate.
  - intros i Hi. exists Scenarios.serviceUnavailable.
    destruct i as [|[|i]]; [split; reflexivity | split; reflexivity | cbn in Hi; lia].
  - exact I.
  - repeat split; assumption.
Defined.

(** C10: with [attempts <= 0] the loop body never runs: whatever the
    operation is, it is not invoked, nothing is logged or awaited, and
    [withRetry] throws [undefined], the value [lastError] was declared
    with, which is no [Error] object. *)
Theorem withRetry_no_attempts A (fn : M A) (config : RetryConfig) (logger : bool)
    (requestId : option string) (w : World) :
  attempts config <= 0 ->
  withRetry fn config logger requestId w = (Throw (ThrownValue PUndefined), w) /\
  instanceofError (ThrownValue PUndefined) = false.
Proof.
  intros H. unfold withRetry.
  replace (Z.to_nat (attempts config)) with O by lia.
  split; reflexivity.
Qed.

Lemma withRetry_no_attempts_witness :
  withRetry (invoke Scenarios.flaky)
    {| attempts := 0; delayMs := None; retryOn := None; shouldRetry := None |}
    true None Scenarios.world0
  = (Throw (ThrownValue PUndefined), Scenarios.world0).
Proof.
  apply (withRetry_no_attempts _ (invoke Scenarios.flaky)). simpl. lia.
Defined.

(** ** The handler execution step *)

(** C1, as the code has it: with a retry policy and a timeout [t > 0]
    configured, one timeout guard wraps the whole retry loop, so all
    attempts and backoff sleeps share one budget: the step never waits
    longer than [t]; it answers what the loop answers when the loop
    settles within [t], and the Timeout failure at [t] otherwise. *)
Theorem stepExecuteHandler_shared_budget (timeoutMessage : string) (TContext TResult : Type)
    (input : PipelineInput TContext TResult) (ctx : TContext) (w : World)
    (retry : RetryConfig) (t : Z) :
  opt_retry (options input) = Some retry ->
  effectiveTimeout (options input) (defaults input) = Some t ->
  0 < t ->
  let loop := withRetry (executeHandler input ctx) retry (logger_adapter (adapters input))
                (Some (requestId input)) in
  let '(r, w') := stepExecuteHandler timeoutMessage input ctx w in
  now w' - now w <= t /\
  (now (snd (loop w)) - now w <= t -> (r, w') = loop w) /\
  (t < now (snd (loop w)) - now w ->
   r = Throw (ThrownApiError (timeoutError timeoutMessage)) /\ now w' = now w + t).
Proof.
  intros Hretry Ht Hpos loop. unfold stepExecuteHandler. rewrite Hretry, Ht.
  assert (Htruthy : truthy (Some t) = true).
  { cbn. apply negb_true_iff, Z.eqb_neq. lia. }
  rewrite Htruthy. cbn [default from_option id]. unfold withTimeout. fold loop.
  destruct (loop w) as [r0 w0] eqn:Eloop. cbn [snd].
  rewrite Z.max_r by lia.
  destruct (now w0 - now w <=? t) eqn:Ecmp.
  - apply Z.leb_le in Ecmp. split; [lia|]. split; [reflexivity | lia].
  - apply Z.leb_gt in Ecmp. cbn [now set_now]. split; [lia|]. split; [lia|].
    intros _. split; [reflexivity | lia].
Qed.

Lemma stepExecuteHandler_shared_budget_witness :
  let '(r, w') := stepExecuteHandler "Request timeout" Scenarios.flakyInput Scenarios.flakyCtx
                    Scenarios.world0 in
  now w' - now Scenarios.world0 <= 50.
Proof.
  pose proof (stepExecuteHandler_shared_budget "Request timeout" _ _ Scenarios.flakyInput
                Scenarios.flakyCtx Scenarios.world0 Scenarios.retry3 50) as H.
  destruct (stepExecuteHandler "Request timeout" Scenarios.flakyInput Scenarios.flakyCtx
              Scenarios.world0) as [r w'].
  apply H; [reflexivity | reflexivity | lia].
Defined.

(** C1, as stated, fails: every attempt of [flaky] takes 30 ms, within a
    budget of 50 ms of its own, and the third succeeds after 120 ms; read
    per attempt the step succeeds, but the code gives up at 50 ms with
    the Timeout failure. *)
Lemma timeout_is_not_per_attempt :
  (forall i, (fst (Scenarios.flaky i) <= 50)%N) /\
  (exists response w',
      stepExecuteHandler_perAttempt "Request timeout" Scenarios.flakyInput Scenarios.flakyCtx
        Scenarios.world0 = (Ok response, w') /\
      now w' - now Scenarios.world0 = 120) /\
  (exists w',
      stepExecuteHandler "Request timeout" Scenarios.flakyInput Scenarios.flakyCtx
        Scenarios.world0 = (Throw (ThrownApiError (timeoutError "Request timeout")), w') /\
      now w' - now Scenarios.world0 = 50).
Proof.
  split; [intros i; cbn; lia|].
  split.
  - eexists. eexists. split; [vm_compute; reflexivity | reflexivity].
  - eexists. split; [vm_compute; reflexivity | reflexivity].
Qed.

(** ** The pipeline around its steps *)

Section PipelineFacts.

Variable timeoutMessage : string.
Context {TContext TResult : Type}.
Variable input : PipelineInput TContext TResult.

(** A throw in steps 1 and 2 enters the [catch] block with the
    anonymous user. *)
Lemma runPipeline_auth_throws (w w1 : World) (error : Thrown) :
  (stepLogStart input ;; stepAuthentication input) w = (Throw error, w1) ->
  runPipeline timeoutMessage input w = catchBlock input (now w) ANONYMOUS_USER error w1.
Proof. intros H. unfold runPipeline. now rewrite H. Qed.

Lemma runPipeline_auth_passes (w w1 : World) (user : BaseUser) :
  (stepLogStart input ;; stepAuthentication input) w = (Ok user, w1) ->
  runPipeline timeoutMessage input w =
  tryCatch (tryBlockAfterAuth timeoutMessage input (now w) user)
    (catchBlock input (now w) user) w1.
Proof. intros H. unfold runPipeline. now rewrite H. Qed.

Lemma steps_1_2 (w : World) :
  (stepLogStart input ;; stepAuthentication input) w =
  stepAuthentication input (snd (stepLogStart input w)).
Proof. reflexivity. Qed.

(** The steps before the handler do not look at the executor. *)
Lemma runPipeline_auth_throws_any_executor (w w1 : World) (error : Thrown)
    (h : TContext -> M TResult) :
  (stepLogStart input ;; stepAuthentication input) w = (Throw error, w1) ->
  runPipeline timeoutMessage (withExecuteHandler h input) w = runPipeline timeoutMessage input w.
Proof.
  intros H. rewrite (runPipeline_auth_throws _ _ _ H).
  unfold runPipeline.
  change (stepLogStart (withExecuteHandler h input)) with (stepLogStart input).
  change (stepAuthentication (withExecuteHandler h input)) with (stepAuthentication input).
  now rewrite H.
Qed.

End PipelineFacts.

(** ** Authentication *)

(** C9: with an auth requirement and an auth adapter, a [null] answer of
    [verify] ends the invocation in the [catch] block with the
    Unauthorized failure (401); an empty role list admits whoever
    [verify] answered, without asking [hasRole]; a non-empty list admits
    that user when [hasRole] answers [true] and otherwise ends in the
    Forbidden failure (403).  Admitted means: steps 3 to 9 run with that
    user. *)
Theorem authentication_decides (timeoutMessage : string) (TContext TResult : Type)
    (input : PipelineInput TContext TResult) (roles : list string) (adapter : AuthAdapter)
    (authCtx : AuthRequestContext) (w w1 : World) :
  opt_auth (options input) = Some roles ->
  auth_adapter (adapters input) = Some adapter ->
  getAuthContext input (snd (stepLogStart input w)) = (Ok authCtx, w1) ->
  let unauthorized :=
    {| err_message := "Authentication required"; err_status := 401; err_code := "UNAUTHORIZED";
       err_errors := None |} in
  let forbidden :=
    {| err_message := "Access denied"; err_status := 403; err_code := "FORBIDDEN";
       err_errors := None |} in
  let admitted (user : BaseUser) :=
    runPipeline timeoutMessage input w =
    tryCatch (tryBlockAfterAuth timeoutMessage input (now w) user)
      (catchBlock input (now w) user) (add_verifyCall w1) in
  let rejected (error : ApiError) :=
    runPipeline timeoutMessage input w =
    catchBlock input (now w) ANONYMOUS_USER (ThrownApiError error) (add_verifyCall w1) in
  (verify adapter authCtx = Ok None -> rejected unauthorized) /\
  (forall user, verify adapter authCtx = Ok (Some user) -> roles = [] -> admitted user) /\
  (forall user, verify adapter authCtx = Ok (Some user) -> roles <> [] ->
     (hasRole adapter user roles = Ok true -> admitted user) /\
     (hasRole adapter user roles = Ok false -> rejected forbidden)).
Proof.
  intros Hauth Hadapter Hctx unauthorized forbidden admitted rejected.
  assert (Hsteps : (stepLogStart input ;; stepAuthentication input) w =
                   match verify adapter authCtx with
                   | Ok None => (Throw (ThrownApiError unauthorized), add_verifyCall w1)
                   | Ok (Some user) =>
                       if (0 <? length roles)%nat
                       then match hasRole adapter user roles with
                            | Ok true => (Ok user, add_verifyCall w1)
                            | Ok false => (Throw (ThrownApiError forbidden), add_verifyCall w1)
                            | Throw e => (Throw e, add_verifyCall w1)
                            end
                       else (Ok user, add_verifyCall w1)
                   | Throw e => (Throw e, add_verifyCall w1)
                   end).
  { rewrite steps_1_2. unfold stepAuthentication. rewrite Hauth, Hadapter.
    unfold bind at 1. rewrite Hctx. unfold bind at 1, callVerify.
    destruct (verify adapter authCtx) as [[user|]|e]; try reflexivity.
    destruct (0 <? length roles)%nat; [|reflexivity].
    unfold bind, lift. destruct (hasRole adapter user roles) as [[|]|e]; reflexivity. }
  split; [|split].
  - intros Hv. rewrite Hv in Hsteps. apply runPipeline_auth_throws, Hsteps.
  - intros user Hv ->. rewrite Hv in Hsteps. cbn in Hsteps.
    apply runPipeline_auth_passes, Hsteps.
  - intros user Hv Hroles. rewrite Hv in Hsteps.
    replace (0 <? length roles)%nat with true in Hsteps
      by (destruct roles; [congruence | reflexivity]).
    split; intros Hrole; rewrite Hrole in Hsteps.
    + apply runPipeline_auth_passes, Hsteps.
    + apply runPipeline_auth_throws, Hsteps.
Qed.

Lemma authentication_decides_witness :
  runPipeline "Request timeout" (Scenarios.authInput None []) Scenarios.world0 =
  catchBlock (Scenarios.authInput None []) (now Scenarios.world0) ANONYMOUS_USER
    (ThrownApiError (ApiResponse.unauthorized None))
    (add_verifyCall (snd (stepLogStart (Scenarios.authInput None []) Scenarios.world0))).
Proof.
  refine (proj1 (authentication_decides "Request timeout" _ _ (Scenarios.authInput None []) []
                   (Scenarios.authAdapter None)
                   (buildAuthContext Scenarios.plainParsers Scenarios.getTest)
                   Scenarios.world0 _ _ _ _) _); reflexivity.
Defined.

(** ** Configuration errors *)




(** ** Rate limiting *)

Lemma checkRateLimit_counts (key : string) (config : RateLimitConfig) (w : World) :
  let c := default 0 (counters w !! key) + 1 in
  checkRateLimit true key config w =
  (Ok {| RateLimit.allowed := c <=? max config; RateLimit.count := c;
         RateLimit.resetAt := now w + windowMs config |},
   set_counters (<[key := c]> (counters w)) w).
Proof. reflexivity. Qed.

Lemma checkAgain_counts (key : string) (config : RateLimitConfig) :
  forall (n : nat) (w : World),
    exists w',
      checkAgain n key config w =
      (Ok {| RateLimit.allowed := default 0 (counters w !! key) + Z.of_nat (S n) <=? max config;
             RateLimit.count := default 0 (counters w !! key) + Z.of_nat (S n);
             RateLimit.resetAt := now w + windowMs config |}, w') /\
      now w' = now w /\ handlerCalls w' = handlerCalls w.
Proof.
  induction n as [|n IH]; intros w.
  - eexists. cbn [checkAgain]. rewrite checkRateLimit_counts. split; [reflexivity|].
    split; reflexivity.
  - cbn [checkAgain]. unfold bind at 1. rewrite checkRateLimit_counts.
    set (w1 := set_counters _ w).
    destruct (IH w1) as (w' & Hrun & Hnow & Hcalls).
    exists w'. rewrite Hrun. split; [|split; [rewrite Hnow | rewrite Hcalls]; reflexivity].
    subst w1. cbn [counters set_counters now]. rewrite lookup_insert_eq.
    cbn [default from_option id].
    replace (default 0 (counters w !! key) + 1 + Z.of_nat (S n))
      with (default 0 (counters w !! key) + Z.of_nat (S (S n))) by lia.
    reflexivity.
Qed.

Lemma stepRateLimiting_counts {TContext TResult : Type} (input : PipelineInput TContext TResult)
    (user : BaseUser) (config : RateLimitConfig) (w : World) :
  cache_adapter (adapters input) = true ->
  opt_rateLimit (options input) <> RateLimitDisabled ->
  rateLimitConfigFor (options input) (defaults input) (method input)
  = Some (PolicyConfig config) ->
  let key := buildRateLimitKey (method input) (path input) (getIdentifier input user) in
  let c := default 0 (counters w !! key) + 1 in
  stepRateLimiting input user w =
  (Ok (if c <=? max config then None
       else Some {| rl_allowed := false; rl_limit := Number (max config);
                    rl_resetAt := Number (now w + windowMs config) |}),
   set_counters (<[key := c]> (counters w)) w).
Proof.
  intros Hcache Hon Hconfig. cbv zeta. unfold stepRateLimiting.
  rewrite Hcache, Hconfig.
  destruct (opt_rateLimit (options input)); [|congruence|];
    unfold bind at 1; rewrite checkRateLimit_counts; cbn [RateLimit.allowed RateLimit.resetAt];
    destruct (_ <=? max config); reflexivity.
Qed.

Lemma limitAgain_counts {TContext TResult : Type} (input : PipelineInput TContext TResult)
    (user : BaseUser) (config : RateLimitConfig) :
  cache_adapter (adapters input) = true ->
  opt_rateLimit (options input) <> RateLimitDisabled ->
  rateLimitConfigFor (options input) (defaults input) (method input)
  = Some (PolicyConfig config) ->
  let key := buildRateLimitKey (method input) (path input) (getIdentifier input user) in
  forall (n : nat) (w : World),
    exists w',
      limitAgain n input user w =
      (Ok (if default 0 (counters w !! key) + Z.of_nat (S n) <=? max config then None
           else Some {| rl_allowed := false; rl_limit := Number (max config);
                        rl_resetAt := Number (now w + windowMs config) |}), w') /\
      counters w' !! key = Some (default 0 (counters w !! key) + Z.of_nat (S n)) /\
      now w' = now w /\ handlerCalls w' = handlerCalls w.
Proof.
  intros Hcache Hon Hconfig key. induction n as [|n IH]; intros w.
  - eexists. cbn [limitAgain].
    rewrite (stepRateLimiting_counts input user config w Hcache Hon Hconfig).
    fold key. split; [reflexivity|]. cbn [counters set_counters now handlerCalls].
    rewrite lookup_insert_eq. repeat split.
  - cbn [limitAgain]. unfold bind at 1.
    rewrite (stepRateLimiting_counts input user config w Hcache Hon Hconfig). fold key.
    set (w1 := set_counters _ w).
    destruct (IH w1) as (w' & Hrun & Hcount & Hnow & Hcalls).
    assert (Hw1 : default 0 (counters w1 !! key) + Z.of_nat (S n)
                  = default 0 (counters w !! key) + Z.of_nat (S (S n))).
    { subst w1. cbn [counters set_counters]. rewrite lookup_insert_eq.
      cbn [default from_option id]. lia. }
    rewrite Hw1 in Hrun, Hcount.
    exists w'. rewrite Hrun. split; [reflexivity|]. split; [exact Hcount|].
    split; [rewrite Hnow | rewrite Hcalls]; reflexivity.
Qed.

Lemma stepRateLimiting_rejects {TContext TResult : Type} (input : PipelineInput TContext TResult)
    (user : BaseUser) (w2 w3 : World) (result : RateLimitResult) :
  stepRateLimiting input user w2 = (Ok (Some result), w3) ->
  rl_allowed result = false /\
  match rateLimitConfigFor (options input) (defaults input) (method input) with
  | Some (PolicyConfig config) =>
      result = {| rl_allowed := false; rl_limit := Number (max config);
                  rl_resetAt := Number (now w2 + windowMs config) |}
  | Some PolicyInherited =>
      result = {| rl_allowed := false; rl_limit := Undefined; rl_resetAt := NaN |}
  | None => False
  end /\
  now w3 = now w2 /\ handlerCalls w3 = handlerCalls w2 /\ logs w3 = logs w2.
Proof.
  unfold stepRateLimiting.
  destruct (match opt_rateLimit (options input) with
            | RateLimitDisabled => false
            | _ => cache_adapter (adapters input)
            end) eqn:Eenabled; [|discriminate].
  assert (Hcache : cache_adapter (adapters input) = true).
  { destruct (opt_rateLimit (options input)); congruence. }
  destruct (rateLimitConfigFor (options input) (defaults input) (method input))
    as [[config|]|]; [| |discriminate].
  - rewrite Hcache. unfold bind at 1. rewrite checkRateLimit_counts. cbn [RateLimit.allowed].
    destruct (default 0 (counters w2 !! _) + 1 <=? max config); cbn [negb]; [discriminate|].
    intros H. injection H as <- <-. repeat split.
  - unfold bind, cache_increment, ret. intros H. injection H as <- <-. repeat split.
Qed.

(** C8, as the code has it: without a counter adapter every check
    admits and step 4 admits every request.  With one, and a policy
    that is a configuration, the [N]-th request of a user to a route in
    a window is admitted by step 4 iff [N <= max]; the others are
    rejected with the configured limit and a [resetAt] that is
    [now + windowMs] at check time: not before [now] when the window is
    not negative.  A rejection goes to [onRateLimited], and the handler
    executor plays no part in the run. *)
Theorem rate_limit_decides (TContext TResult : Type) (input : PipelineInput TContext TResult)
    (user : BaseUser) (config : RateLimitConfig) (w : World) :
  let key := buildRateLimitKey (method input) (path input) (getIdentifier input user) in
  (forall k cfg w0,
      checkRateLimit false k cfg w0 =
      (Ok {| RateLimit.allowed := true; RateLimit.count := 0;
             RateLimit.resetAt := now w0 + windowMs cfg |}, w0)) /\
  (cache_adapter (adapters input) = false ->
   forall n, limitAgain n input user w = (Ok None, w)) /\
  (cache_adapter (adapters input) = true ->
   opt_rateLimit (options input) <> RateLimitDisabled ->
   rateLimitConfigFor (options input) (defaults input) (method input)
   = Some (PolicyConfig config) ->
   counters w !! key = None ->
   forall N : nat,
     (1 <= N)%nat ->
     exists w',
       limitAgain (N - 1) input user w =
       (Ok (if Z.of_nat N <=? max config then None
            else Some {| rl_allowed := false; rl_limit := Number (max config);
                         rl_resetAt := Number (now w + windowMs config) |}), w') /\
       counters w' !! key = Some (Z.of_nat N) /\
       handlerCalls w' = handlerCalls w /\
       (0 <= windowMs config -> now w <= now w + windowMs config)) /\
  (forall N : nat,
      (1 <= N)%nat ->
      counters w !! key = None ->
      exists result w',
        checkAgain (N - 1) key config w = (Ok result, w') /\
        (RateLimit.allowed result = true <-> Z.of_nat N <= max config) /\
        RateLimit.resetAt result = now w + windowMs config /\
        (0 <= windowMs config -> now w <= RateLimit.resetAt result) /\
        handlerCalls w' = handlerCalls w) /\
  (forall (timeoutMessage : string) (w0 w3 : World) (result : RateLimitResult),
      rateLimitConfigFor (options input) (defaults input) (method input)
      = Some (PolicyConfig config) ->
      rateLimitRejects input w0 user result w3 ->
      rl_allowed result = false /\
      rl_limit result = Number (max config) /\
      rl_resetAt result = Number (now w3 + windowMs config) /\
      runPipeline timeoutMessage input w0 =
        tryCatch (onRateLimited input result) (catchBlock input (now w0) user) w3 /\
      forall h, runPipeline timeoutMessage (withExecuteHandler h input) w0 =
                runPipeline timeoutMessage input w0).
Proof.
  cbv zeta. split; [reflexivity|]. split; [|split; [|split]].
  - intros Hcache n.
    assert (Hstep : forall w0, stepRateLimiting input user w0 = (Ok None, w0)).
    { intros w0. unfold stepRateLimiting. rewrite Hcache.
      destruct (opt_rateLimit (options input)); reflexivity. }
    induction n as [|n IH]; cbn [limitAgain]; [apply Hstep|].
    unfold bind. rewrite Hstep. exact IH.
  - intros Hcache Hon Hconfig Hfresh N HN.
    destruct (limitAgain_counts input user config Hcache Hon Hconfig (N - 1) w)
      as (w' & Hrun & Hcount & _ & Hcalls).
    rewrite Hfresh in Hrun, Hcount. cbn [default from_option id] in Hrun, Hcount.
    replace (0 + Z.of_nat (S (N - 1))) with (Z.of_nat N) in Hrun, Hcount by lia.
    exists w'. split; [exact Hrun|]. split; [exact Hcount|]. split; [exact Hcalls | lia].
  - intros N HN Hfresh.
    destruct (checkAgain_counts (buildRateLimitKey (method input) (path input)
                                   (getIdentifier input user)) config (N - 1) w)
      as (w' & Hrun & Hnow & Hcalls).
    rewrite Hfresh in Hrun. cbn [default from_option id] in Hrun.
    eexists. exists w'. split; [exact Hrun|]. cbn.
    replace (S (N - 1)) with N by lia.
    split; [apply Z.leb_le|]. split; [reflexivity|]. split; [lia | exact Hcalls].
  - intros timeoutMessage w0 w3 result Hconfig (w1 & w2 & Hsteps & Htenant & Hlimit).
    destruct (stepRateLimiting_rejects input user w2 w3 result Hlimit)
      as (Hallowed & Hresult & Hnow & _).
    rewrite Hconfig in Hresult.
    assert (Hrun : forall h, runPipeline timeoutMessage (withExecuteHandler h input) w0 =
                             tryCatch (onRateLimited input result)
                               (catchBlock input (now w0) user) w3).
    { intros h. unfold runPipeline.
      change (stepLogStart (withExecuteHandler h input)) with (stepLogStart input).
      change (stepAuthentication (withExecuteHandler h input)) with (stepAuthentication input).
      rewrite Hsteps. unfold tryCatch at 1. unfold tryBlockAfterAuth.
      change (stepTenantScoping (withExecuteHandler h input)) with (stepTenantScoping input).
      change (stepRateLimiting (withExecuteHandler h input)) with (stepRateLimiting input).
      unfold bind at 1. rewrite Htenant. unfold bind at 1. rewrite Hlimit. reflexivity. }
    assert (Hinput : runPipeline timeoutMessage input w0 =
                     runPipeline timeoutMessage (withExecuteHandler (executeHandler input) input) w0)
      by (destruct input; reflexivity).
    split; [exact Hallowed|].
    split; [rewrite Hresult; reflexivity|].
    split; [rewrite Hresult, Hnow; reflexivity|].
    split.
    + rewrite Hinput. apply Hrun.
    + intros h. rewrite Hinput, !Hrun. reflexivity.
Qed.

Lemma rate_limit_decides_witness :
  exists w',
    limitAgain 1 Scenarios.limitedInput ANONYMOUS_USER Scenarios.world0 =
    (Ok (Some {| rl_allowed := false; rl_limit := Number 1; rl_resetAt := Number 61000 |}), w') /\
    handlerCalls w' = handlerCalls Scenarios.world0.
Proof.
  destruct (proj1 (proj2 (proj2 (rate_limit_decides _ _ Scenarios.limitedInput ANONYMOUS_USER
                                   {| max := 1; windowMs := 60000 |} Scenarios.world0)))
              eq_refl ltac:(discriminate) eq_refl eq_refl 2%nat ltac:(lia))
    as (w' & Hrun & _ & Hcalls & _).
  exists w'. split; [exact Hrun | exact Hcalls].
Defined.

(** C8, as stated, fails for a configuration whose window is negative:
    the second request to a route limited to one request per window of
    minus one minute is rejected with a [resetAt] one minute before
    [now]. *)
Lemma negative_window_resets_before_now :
  exists result w' resetAt,
    limitAgain 1 Scenarios.backdatedInput ANONYMOUS_USER Scenarios.world0
    = (Ok (Some result), w') /\
    rl_allowed result = false /\
    rl_resetAt result = Number resetAt /\
    resetAt < now Scenarios.world0.
Proof.
  eexists. eexists. eexists. split; [vm_compute; reflexivity|].
  split; [reflexivity|]. split; [reflexivity|]. reflexivity.
Qed.

(** ** Validation *)

Lemma stepValidateInput_first_failure {TContext TResult : Type}
    (input : PipelineInput TContext TResult) (w3 w4 : World) (raw : RawInput)
    (slot : string) (issues : list ZodIssue) :
  getRawInput input w3 = (Ok raw, w4) ->
  firstFailingSlot (opt_validation (options input)) raw = Some (slot, issues) ->
  stepValidateInput input w3 = (Throw (ThrownApiError (validationError slot issues)), w4).
Proof.
  intros Hraw Hfirst. unfold stepValidateInput. unfold bind at 1. rewrite Hraw.
  unfold firstFailingSlot in Hfirst. unfold slotSchema.
  destruct (opt_validation (options input)) as [v|]; [|discriminate].
  unfold bind, validateSlot, validateSchema.
  destruct (validation_params v) as [sp|].
  - destruct (sp (input_params raw)) as [dp|ip]; [|now injection Hfirst as <- <-].
    destruct (validation_query v) as [sq|].
    + destruct (sq (input_query raw)) as [dq|iq]; [|now injection Hfirst as <- <-].
      destruct (validation_body v) as [sb|]; [|discriminate].
      destruct (sb (input_body raw)) as [db|ib]; [discriminate|now injection Hfirst as <- <-].
    + destruct (validation_body v) as [sb|]; [|discriminate].
      destruct (sb (input_body raw)) as [db|ib]; [discriminate|now injection Hfirst as <- <-].
  - destruct (validation_query v) as [sq|].
    + destruct (sq (input_query raw)) as [dq|iq]; [|now injection Hfirst as <- <-].
      destruct (validation_body v) as [sb|]; [|discriminate].
      destruct (sb (input_body raw)) as [db|ib]; [discriminate|now injection Hfirst as <- <-].
    + destruct (validation_body v) as [sb|]; [|discriminate].
      destruct (sb (input_body raw)) as [db|ib]; [discriminate|now injection Hfirst as <- <-].
Qed.

(** C2, as the code has it: when the invocation reaches step 5 and a
    configured slot fails validation, the slots are validated in the
    order params, query, body and the first failing slot throws: the
    invocation ends in the [catch] block with one 422 VALIDATION_ERROR
    failure whose error list has one entry per issue of that slot, in
    order, each field the dot-joined path of its issue (a failure at
    path [email] gives field "email"); later slots are not validated and
    the handler executor plays no part in the run. *)
Theorem validation_reports_first_failing_slot (timeoutMessage : string)
    (TContext TResult : Type) (input : PipelineInput TContext TResult)
    (w0 w3 w4 : World) (user : BaseUser) (raw : RawInput) (slot : string)
    (issues : list ZodIssue) :
  reachesValidation input w0 user w3 ->
  getRawInput input w3 = (Ok raw, w4) ->
  firstFailingSlot (opt_validation (options input)) raw = Some (slot, issues) ->
  let error :=
    {| err_message := "Validation failed for " +:+ slot;
       err_status := 422;
       err_code := "VALIDATION_ERROR";
       err_errors :=
         Some (map (fun issue =>
                      {| detail_field :=
                           String.concat "." (map String_of_key (issue_path issue));
                         detail_message := issue_message issue |}) issues) |} in
  runPipeline timeoutMessage input w0 =
    catchBlock input (now w0) user (ThrownApiError error) w4 /\
  (forall h, runPipeline timeoutMessage (withExecuteHandler h input) w0 =
             runPipeline timeoutMessage input w0) /\
  (exists entries, err_errors error = Some entries /\ length entries = length issues) /\
  (forall message,
      formatZodErrors [{| issue_path := [KeyString "email"]; issue_message := message |}] =
      [{| detail_field := "email"; detail_message := message |}]).
Proof.
  intros (w1 & w2 & Hsteps & Htenant & Hlimit) Hraw Hfirst error.
  pose proof (stepValidateInput_first_failure input w3 w4 raw slot issues Hraw Hfirst) as Hvalidate.
  assert (Hrun : forall h, runPipeline timeoutMessage (withExecuteHandler h input) w0 =
                           catchBlock input (now w0) user (ThrownApiError error) w4).
  { intros h. unfold runPipeline.
    change (stepLogStart (withExecuteHandler h input)) with (stepLogStart input).
    change (stepAuthentication (withExecuteHandler h input)) with (stepAuthentication input).
    rewrite Hsteps. unfold tryCatch at 1. unfold tryBlockAfterAuth.
    change (stepTenantScoping (withExecuteHandler h input)) with (stepTenantScoping input).
    change (stepRateLimiting (withExecuteHandler h input)) with (stepRateLimiting input).
    change (stepValidateInput (withExecuteHandler h input)) with (stepValidateInput input).
    unfold bind at 1. rewrite Htenant. unfold bind at 1. rewrite Hlimit.
    unfold bind at 1. rewrite Hvalidate. reflexivity. }
  assert (Hinput : runPipeline timeoutMessage input w0 =
                   runPipeline timeoutMessage (withExecuteHandler (executeHandler input) input) w0)
    by (destruct input; reflexivity).
  split; [rewrite Hinput; apply Hrun|].
  split; [intros h; rewrite Hinput, !Hrun; reflexivity|].
  split; [|reflexivity].
  eexists. split; [reflexivity|]. apply length_map.
Qed.

Lemma validation_reports_first_failing_slot_witness :
  runPipeline "Request timeout" Scenarios.validatedInput Scenarios.world0 =
  catchBlock Scenarios.validatedInput (now Scenarios.world0) ANONYMOUS_USER
    (ThrownApiError
       {| err_message := "Validation failed for params"; err_status := 422;
          err_code := "VALIDATION_ERROR";
          err_errors := Some [{| detail_field := "id"; detail_message := "Invalid uuid" |}] |})
    (snd (stepLogStart Scenarios.validatedInput Scenarios.world0)).
Proof.
  refine (proj1 (validation_reports_first_failing_slot "Request timeout" _ _
                   Scenarios.validatedInput Scenarios.world0
                   (snd (stepLogStart Scenarios.validatedInput Scenarios.world0))
                   (snd (stepLogStart Scenarios.validatedInput Scenarios.world0))
                   ANONYMOUS_USER Scenarios.rawOfValidated "params"
                   [{| issue_path := [KeyString "id"]; issue_message := "Invalid uuid" |}]
                   _ _ _)).
  - eexists. eexists. repeat split.
  - reflexivity.
  - reflexivity.
Defined.

(** C2, as stated, fails: with params and body both failing, the 422
    response lists the failing field of params only; the two failing
    fields of the body, which all slots together would add, are not in
    it. *)
Lemma validation_stops_at_first_slot :
  exists response w',
    Scenarios.validatedRoute "gen-1" Scenarios.postTest (JObj [("id", JStr "not-a-uuid")]%string)
      Scenarios.world0 = (Ok response, w') /\
    resp_status response = 422 /\
    resp_body response =
      default_error "Validation failed for params" "VALIDATION_ERROR" 422
        (Some [{| detail_field := "id"; detail_message := "Invalid uuid" |}]) /\
    allSlotErrors (opt_validation Scenarios.validated) Scenarios.rawOfValidated =
      [{| detail_field := "id"; detail_message := "Invalid uuid" |};
       {| detail_field := "name"; detail_message := "Too short" |};
       {| detail_field := "email"; detail_message := "Invalid email" |}] /\
    resp_body response <>
      default_error "Validation failed for params" "VALIDATION_ERROR" 422
        (Some (allSlotErrors (opt_validation Scenarios.validated) Scenarios.rawOfValidated)).
Proof.
  eexists. eexists. split; [vm_compute; reflexivity|].
  split; [reflexivity|]. split; [reflexivity|]. split; [reflexivity|].
  vm_compute. discriminate.
Qed.

(** ** The response cache *)

Lemma Headers_of_record_map (r : StringRecord) :
  Headers_of_record r = map (fun kv => (lower (fst kv), snd kv)) r.
Proof.
  unfold Headers_of_record.
  enough (H : forall acc, fold_left (fun h kv => Headers_append (fst kv) (snd kv) h) r acc
                          = acc ++ map (fun kv => (lower (fst kv), snd kv)) r)
    by apply (H []).
  induction r as [|kv r IH]; intros acc; cbn [fold_left map].
  - now rewrite app_nil_r.
  - rewrite IH. unfold Headers_append. now rewrite <- app_assoc.
Qed.

Lemma record_set_In_same (key value : string) (r : StringRecord) :
  In (key, value) (record_set key value r).
Proof.
  induction r as [|[k v] r IH]; cbn; [now left|].
  destruct (String.eqb_spec k key) as [->|Hne]; [now left | now right].
Qed.

Lemma record_set_In_other (key value k v : string) (r : StringRecord) :
  In (k, v) r -> k <> key -> In (k, v) (record_set key value r).
Proof.
  intros Hin Hne. induction r as [|[k' v'] r IH]; [destruct Hin|].
  cbn. destruct Hin as [Heq|Hin].
  - injection Heq as -> ->.
    destruct (String.eqb_spec k key) as [->|_]; [congruence | now left].
  - destruct (String.eqb_spec k' key); right; [exact Hin | now apply IH].
Qed.

Lemma record_set_fresh (key value : string) (r : StringRecord) :
  (forall v, ~ In (key, v) r) -> record_set key value r = r ++ [(key, value)].
Proof.
  induction r as [|[k v] r IH]; intros Hfresh; [reflexivity|].
  cbn. destruct (String.eqb_spec k key) as [->|Hne].
  - exfalso. apply (Hfresh v). now left.
  - rewrite IH; [reflexivity|]. intros v' Hin. apply (Hfresh v'). now right.
Qed.

(** The constructor of [Response] takes a body exactly with a status in
    200..599 that is no null body status. *)
Lemma Response_init_accepts (hasBody : bool) (body : Json) (status : Z) (headers : StringRecord) :
  statusTakesBody status = true ->
  Response_init hasBody body status headers =
  Ok {| resp_body := body; resp_status := status; resp_headers := Headers_of_record headers |}.
Proof.
  unfold statusTakesBody, Response_init. intros H.
  apply andb_prop in H as [H Hnull]. apply andb_prop in H as [Hlo Hhi].
  apply Z.leb_le in Hlo. apply Z.leb_le in Hhi. apply negb_true_iff in Hnull.
  rewrite Hnull. cbn [andb].
  destruct (Z.ltb_spec status 200); [lia|]. destruct (Z.ltb_spec 599 status); [lia|].
  reflexivity.
Qed.

Lemma Response_init_refuses (body : Json) (status : Z) (headers : StringRecord) :
  statusTakesBody status = false ->
  exists name message,
    Response_init true body status headers = Throw (ThrownError name message) /\
    (name = "RangeError"%string \/ name = "TypeError"%string).
Proof.
  unfold statusTakesBody, Response_init. intros H.
  destruct (Z.ltb_spec status 200); cbn [orb]; [eexists; eexists; split; [reflexivity | now left]|].
  destruct (Z.ltb_spec 599 status); [eexists; eexists; split; [reflexivity | now left]|].
  destruct (nullBodyStatus status); cbn [andb];
    [eexists; eexists; split; [reflexivity | now right]|].
  exfalso. cbn [negb] in H. rewrite andb_true_r in H.
  apply andb_false_iff in H as [H | H]; [apply Z.leb_gt in H | apply Z.leb_gt in H]; lia.
Qed.

Section CacheHit.

Variable timeoutMessage : string.
Variable globalT : ResponseTransformers.
Variable parsers : Parsers.
Variable config : WrapperConfig.
Variable handler : ApiContext -> Script HandlerResult.
Variable wrapperOptions : WrapperOptions.
Variable req : Request.
Variable routeParams : Json.
Variable cacheConfig : CacheConfig.
Variable cached : CachedResponse.

Hypothesis isGet : req_method req = "GET"%string.
Hypothesis cacheConfigured : wo_cache wrapperOptions = Some cacheConfig.
Hypothesis cachePresent : cache_adapter (cfg_adapters config) = true.
Hypothesis statusAccepted : statusTakesBody (cached_status cached) = true.

Local Abbreviation route :=
  (apiWrapper timeoutMessage globalT parsers config handler wrapperOptions).
Local Abbreviation requestIdOf generatedId :=
  (or_string (Headers_get "x-request-id" (req_headers req)) generatedId).
Local Abbreviation hitResponse generatedId :=
  (hitResponseOf cached (requestIdOf generatedId)).

Lemma hit_once (generatedId : string) (w : World) :
  store w !! getCacheKey req cacheConfig = Some cached ->
  route generatedId req routeParams w =
  (Ok (hitResponse generatedId),
   if logger_adapter (cfg_adapters config)
   then add_log (LogDebug "Cache hit"
                   [("requestId", JStr (requestIdOf generatedId));
                    ("cacheKey", JStr (getCacheKey req cacheConfig))]%string) w
   else w).
Proof.
  intros Hstored. unfold route, apiWrapper, checkCache.
  rewrite cacheConfigured, cachePresent, isGet. cbn [andb String.eqb Ascii.eqb Bool.eqb].
  unfold bind at 1. unfold getCachedResponse. unfold bind at 1. unfold cache_get.
  rewrite Hstored. unfold bind, log, ret, lift, hitResponseOf.
  rewrite (Response_init_accepts _ _ _ _ statusAccepted), Headers_of_record_map.
  destruct (logger_adapter (cfg_adapters config)); reflexivity.
Qed.

Lemma hit_repeatedly (generatedIds : list string) :
  forall w : World,
    store w !! getCacheKey req cacheConfig = Some cached ->
    exists w',
      serveAll (fun generatedId => route generatedId req routeParams) generatedIds w =
      (Ok (map (fun gid => hitResponse gid) generatedIds), w') /\
      handlerCalls w' = handlerCalls w /\ verifyCalls w' = verifyCalls w /\
      counters w' = counters w /\ store w' = store w.
Proof.
  induction generatedIds as [|gid rest IH]; intros w Hstored.
  - exists w. repeat split.
  - cbn [serveAll map]. unfold bind at 1. rewrite (hit_once gid w Hstored).
    set (w1 := if logger_adapter (cfg_adapters config) then _ else w).
    assert (Hw1 : handlerCalls w1 = handlerCalls w /\ verifyCalls w1 = verifyCalls w /\
                  counters w1 = counters w /\ store w1 = store w).
    { subst w1. destruct (logger_adapter (cfg_adapters config)); repeat split. }
    destruct Hw1 as (Hc & Hv & Hn & Hs).
    destruct (IH w1) as (w' & Hrun & Hc' & Hv' & Hn' & Hs'); [now rewrite Hs|].
    exists w'. unfold bind at 1. rewrite Hrun. split; [reflexivity|].
    repeat split; congruence.
Qed.


End CacheHit.



(** ** Unstructured errors *)



(** ** Audit records *)

Lemma auditsOf_app (l1 l2 : list LogCall) : auditsOf (l1 ++ l2) = auditsOf l1 ++ auditsOf l2.
Proof. apply flat_map_app. Qed.

Lemma quietFrom_refl (w : World) : quietFrom w w.
Proof. exists []. now rewrite app_nil_r. Qed.

Lemma quietFrom_trans (w1 w2 w3 : World) :
  quietFrom w1 w2 -> quietFrom w2 w3 -> quietFrom w1 w3.
Proof.
  intros (l1 & H1 & A1) (l2 & H2 & A2). exists (l1 ++ l2).
  rewrite H2, H1, app_assoc, auditsOf_app, A1, A2. now split.
Qed.

Lemma quietFrom_same_logs (w1 w2 : World) : logs w2 = logs w1 -> quietFrom w1 w2.
Proof. intros H. exists []. now rewrite app_nil_r. Qed.

Lemma emitsNoAudit_run {A} (m : M A) (w w' : World) (r : Outcome A) :
  emitsNoAudit m -> m w = (r, w') -> quietFrom w w'.
Proof. intros H E. specialize (H w). now rewrite E in H. Qed.

Lemma quiet_ret {A} (a : A) : emitsNoAudit (ret a).
Proof. intros w. apply quietFrom_refl. Qed.

Lemma quiet_throw {A} (e : Thrown) : emitsNoAudit (@throw A e).
Proof. intros w. apply quietFrom_refl. Qed.

Lemma quiet_lift {A} (o : Outcome A) : emitsNoAudit (lift o).
Proof. intros w. apply quietFrom_refl. Qed.

Lemma quiet_bind {A B} (m : M A) (k : A -> M B) :
  emitsNoAudit m -> (forall a, emitsNoAudit (k a)) -> emitsNoAudit (bind m k).
Proof.
  intros Hm Hk w. unfold bind. specialize (Hm w).
  destruct (m w) as [[a|e] w1]; cbn [snd] in *; [|exact Hm].
  eapply quietFrom_trans; [exact Hm | apply Hk].
Qed.

Lemma quiet_tryCatch {A} (m : M A) (h : Thrown -> M A) :
  emitsNoAudit m -> (forall e, emitsNoAudit (h e)) -> emitsNoAudit (tryCatch m h).
Proof.
  intros Hm Hh w. unfold tryCatch. specialize (Hm w).
  destruct (m w) as [[a|e] w1]; cbn [snd] in *; [exact Hm|].
  eapply quietFrom_trans; [exact Hm | apply Hh].
Qed.

Lemma quiet_log (logger : bool) (c : LogCall) : is_audit c = false -> emitsNoAudit (log logger c).
Proof.
  intros Hc w. unfold log. destruct logger; cbn [snd]; [|apply quietFrom_refl].
  exists [c]. split; [reflexivity|]. destruct c; try discriminate; reflexivity.
Qed.

Lemma quiet_sleep (d : Z) : emitsNoAudit (sleep d).
Proof. intros w. now apply quietFrom_same_logs. Qed.

Lemma quiet_invoke {A} (f : Script A) : emitsNoAudit (invoke f).
Proof. intros w. unfold invoke. destruct (f (handlerCalls w)). now apply quietFrom_same_logs. Qed.

Lemma quiet_retryLoop {A} (fn : M A) config logger requestId :
  emitsNoAudit fn ->
  forall remaining attempt lastError,
    emitsNoAudit (retryLoop fn config logger requestId remaining attempt lastError).
Proof.
  intros Hfn. induction remaining as [|remaining IH]; intros attempt lastError.
  - apply quiet_throw.
  - cbn [retryLoop]. apply quiet_tryCatch; [exact Hfn|]. intros e.
    destruct (negb (shouldRetryThis config e attempt) || (attempt =? attempts config))%bool.
    + apply quiet_throw.
    + apply quiet_bind; [now apply quiet_log|]. intros _.
      apply quiet_bind; [apply quiet_sleep|]. intros _. apply IH.
Qed.

Lemma quiet_withTimeout {A} (timeoutMessage : string) (m : M A) (ms : Z) :
  emitsNoAudit m -> emitsNoAudit (withTimeout timeoutMessage m ms).
Proof.
  intros Hm w. unfold withTimeout. specialize (Hm w).
  destruct (m w) as [r w1]. cbn [snd] in Hm.
  destruct (now w1 - now w <=? Z.max 0 ms); cbn [snd]; [exact Hm|].
  eapply quietFrom_trans; [exact Hm | now apply quietFrom_same_logs].
Qed.

Lemma quiet_checkRateLimit (cache : bool) key config : emitsNoAudit (checkRateLimit cache key config).
Proof. intros w. destruct cache; now apply quietFrom_same_logs. Qed.

Lemma quiet_validateSlot schema raw name : emitsNoAudit (validateSlot schema raw name).
Proof.
  intros w. unfold validateSlot, validateSchema.
  destruct schema as [sch|]; [destruct (sch raw)|]; apply quietFrom_refl.
Qed.

Create HintDb quiet.
#[local] Hint Resolve quiet_ret quiet_throw quiet_lift quiet_sleep quiet_invoke
  quiet_checkRateLimit quiet_validateSlot : quiet.

Section QuietSteps.

Variable timeoutMessage : string.
Context {TContext TResult : Type}.
Variable input : PipelineInput TContext TResult.

Hypothesis quiet_getAuthContext : emitsNoAudit (getAuthContext input).
Hypothesis quiet_getRawInput : emitsNoAudit (getRawInput input).
Hypothesis quiet_executeHandler : forall ctx, emitsNoAudit (executeHandler input ctx).

Lemma quiet_stepLogStart : emitsNoAudit (stepLogStart input).
Proof. now apply quiet_log. Qed.

Lemma quiet_stepAuthentication : emitsNoAudit (stepAuthentication input).
Proof.
  unfold stepAuthentication.
  destruct (opt_auth (options input)) as [auth|]; [|apply quiet_ret].
  destruct (auth_adapter (adapters input)) as [adapter|]; [|apply quiet_throw].
  apply quiet_bind; [exact quiet_getAuthContext|]. intros authCtx.
  apply quiet_bind.
  { intros w. now apply quietFrom_same_logs. }
  intros [user|]; [|apply quiet_throw].
  destruct (0 <? length auth)%nat; [|apply quiet_ret].
  apply quiet_bind; [apply quiet_lift|]. intros [|]; [apply quiet_ret | apply quiet_throw].
Qed.

Lemma quiet_stepTenantScoping (user : BaseUser) : emitsNoAudit (stepTenantScoping input user).
Proof.
  unfold stepTenantScoping.
  destruct (default false (opt_tenantScoped (options input))); [|apply quiet_ret].
  destruct (auth_adapter (adapters input)) as [[v h [check|]]|]; try apply quiet_throw.
  apply quiet_bind; [exact quiet_getAuthContext|]. intros authCtx.
  apply quiet_bind; [apply quiet_lift|]. intros [|]; [apply quiet_ret | apply quiet_throw].
Qed.

Lemma quiet_stepRateLimiting (user : BaseUser) : emitsNoAudit (stepRateLimiting input user).
Proof.
  unfold stepRateLimiting.
  destruct (match opt_rateLimit (options input) with
            | RateLimitDisabled => false
            | _ => cache_adapter (adapters input)
            end); [|apply quiet_ret].
  destruct (rateLimitConfigFor (options input) (defaults input) (method input)) as [[c|]|];
    [| |apply quiet_ret].
  - apply quiet_bind; [auto with quiet|]. intros result.
    destruct (negb (RateLimit.allowed result)); auto with quiet.
  - apply quiet_bind; [|intros _; apply quiet_ret].
    intros w. now apply quietFrom_same_logs.
Qed.

Lemma quiet_stepValidateInput : emitsNoAudit (stepValidateInput input).
Proof.
  unfold stepValidateInput.
  apply quiet_bind; [exact quiet_getRawInput|]. intros raw.
  repeat (apply quiet_bind; [auto with quiet|]; intros ?).
  auto with quiet.
Qed.

Lemma quiet_stepExecuteHandler (ctx : TContext) :
  emitsNoAudit (stepExecuteHandler timeoutMessage input ctx).
Proof.
  unfold stepExecuteHandler.
  assert (Hretry : emitsNoAudit
                     match opt_retry (options input) with
                     | Some retry =>
                         withRetry (executeHandler input ctx) retry
                           (logger_adapter (adapters input)) (Some (requestId input))
                     | None => executeHandler input ctx
                     end).
  { destruct (opt_retry (options input)) as [retry|]; [|apply quiet_executeHandler].
    apply quiet_retryLoop, quiet_executeHandler. }
  destruct (truthy (effectiveTimeout (options input) (defaults input)));
    [now apply quiet_withTimeout | exact Hretry].
Qed.

End QuietSteps.

Lemma quietFrom_audits (w w' : World) : quietFrom w w' -> auditsOf (newLogs w w') = [].
Proof. intros (l & Hl & Ha). now rewrite (newLogs_app _ _ _ Hl). Qed.

Lemma quietFrom_one_audit (w w1 w2 w' : World) (a : AuditEvent) :
  quietFrom w w1 -> logs w2 = logs w1 ++ [LogAudit a] -> quietFrom w2 w' ->
  auditsOf (newLogs w w') = [a].
Proof.
  intros (l1 & H1 & A1) H2 (l3 & H3 & A3).
  rewrite (newLogs_app w w' (l1 ++ [LogAudit a] ++ l3)).
  - rewrite !auditsOf_app, A1, A3. reflexivity.
  - rewrite H3, H2, H1, <- !app_assoc. reflexivity.
Qed.

(** The world [wk'] of the equation [E] continues a quiet run. *)
Ltac quiet_step Hprev E :=
  eapply quietFrom_trans; [exact Hprev|]; eapply emitsNoAudit_run; [|exact E].

(** The run goes on in the [catch] block, after a quiet run so far. *)
Ltac enters_catch Hcatch Hq :=
  match goal with
  | |- context [catchBlock ?i ?s ?u ?e ?wk] =>
      specialize (Hcatch u e _ wk Hq);
      destruct (catchBlock i s u e wk); right; left; exact Hcatch
  end.

Section AuditOnce.

Variable timeoutMessage : string.
Context {TContext TResult : Type}.
Variable input : PipelineInput TContext TResult.

Hypothesis loggerPresent : logger_adapter (adapters input) = true.
Hypothesis auditOn : auditEnabled (options input) = true.
Hypothesis quiet_getAuthContext : emitsNoAudit (getAuthContext input).
Hypothesis quiet_getRawInput : emitsNoAudit (getRawInput input).
Hypothesis quiet_executeHandler : forall ctx, emitsNoAudit (executeHandler input ctx).
Hypothesis quiet_onRateLimited : forall result, emitsNoAudit (onRateLimited input result).
Hypothesis quiet_onSuccess : forall result meta, emitsNoAudit (onSuccess input result meta).
Hypothesis quiet_onError : forall error meta, emitsNoAudit (onError input error meta).
Hypothesis onSuccess_returns :
  forall result meta w, exists value, fst (onSuccess input result meta w) = Ok value.

Lemma catchBlock_audits_once (startTime : Z) (user : BaseUser) (error : Thrown)
    (w w1 : World) :
  quietFrom w w1 ->
  auditedFailure input w (snd (catchBlock input startTime user error w1))
    (fst (catchBlock input startTime user error w1)).
Proof.
  intros Hq. unfold catchBlock, bind, Date_now, log. rewrite loggerPresent, auditOn.
  cbn [andb].
  set (info := LogInfo _ _). set (a := Build_AuditEvent _ _ _ _ _ _ _ _ _).
  set (meta := metaOf input user _).
  set (w2 := add_log (LogAudit a) (add_log info w1)).
  exists a, error, meta, w2. split; [|repeat split].
  - apply (quietFrom_one_audit w (add_log info w1) w2).
    + eapply quietFrom_trans; [exact Hq|]. exists [info]. now split.
    + reflexivity.
    + apply (quiet_onError error meta w2).
  - now destruct (onError input error meta w2).
Qed.

Lemma stepComplete_audits_once (startTime : Z) (user : BaseUser) (result : TResult)
    (w w1 : World) :
  quietFrom w w1 ->
  auditedSuccess input w (snd (stepComplete input startTime user result w1))
    (fst (stepComplete input startTime user result w1)) /\
  exists value, fst (stepComplete input startTime user result w1) = Ok value.
Proof.
  intros Hq. unfold stepComplete, bind, Date_now, log. rewrite loggerPresent, auditOn.
  cbn [andb].
  set (info := LogInfo _ _). set (a := Build_AuditEvent _ _ _ _ _ _ _ _ _).
  set (meta := metaOf input user _).
  set (w2 := add_log (LogAudit a) (add_log info w1)).
  split; [|apply onSuccess_returns].
  exists a, result, meta, w2. split; [|repeat split].
  - apply (quietFrom_one_audit w (add_log info w1) w2).
    + eapply quietFrom_trans; [exact Hq|]. exists [info]. now split.
    + reflexivity.
    + apply (quiet_onSuccess result meta w2).
  - now destruct (onSuccess input result meta w2).
Qed.

(** C3, as the code has it: with audit enabled and a logger present,
    converters and input providers that make no audit call themselves
    and a success converter that returns, an invocation leaves exactly
    one audit record: of success (status 200) when every step through
    handler execution went through, and then the outcome is the
    success converter's; of failure, with the status and code of the
    error caught, when a step threw, and then the outcome is the error
    converter's.  The exception is the early return of step 4: a
    request rejected by the rate limit whose [onRateLimited] returns
    leaves no audit record. *)
Theorem one_audit_record_unless_rate_limited (w : World) :
  let '(r, w') := runPipeline timeoutMessage input w in
  auditedSuccess input w w' r \/
  auditedFailure input w w' r \/
  rateLimitedUnaudited input w w' r.
Proof.
  pose proof (catchBlock_audits_once (now w)) as Hcatch.
  unfold runPipeline.
  (* steps 1 and 2 *)
  destruct ((stepLogStart input ;; stepAuthentication input) w) as [o1 w1] eqn:E1.
  assert (Hq1 : quietFrom w w1).
  { eapply emitsNoAudit_run; [|exact E1].
    apply quiet_bind; [apply quiet_stepLogStart|]. intros _.
    now apply quiet_stepAuthentication. }
  destruct o1 as [user|e]; [|enters_catch Hcatch Hq1].
  unfold tryCatch, tryBlockAfterAuth.
  (* step 3 *)
  unfold bind at 1.
  destruct (stepTenantScoping input user w1) as [o2 w2] eqn:E2.
  assert (Hq2 : quietFrom w w2).
  { quiet_step Hq1 E2. now apply quiet_stepTenantScoping. }
  destruct o2 as [[]|e]; [|enters_catch Hcatch Hq2].
  (* step 4 *)
  unfold bind at 1.
  destruct (stepRateLimiting input user w2) as [o3 w3] eqn:E3.
  assert (Hq3 : quietFrom w w3).
  { quiet_step Hq2 E3. apply quiet_stepRateLimiting. }
  destruct o3 as [[result|]|e]; [| |enters_catch Hcatch Hq3].
  { (* the early return *)
    destruct (onRateLimited input result w3) as [o4 w4] eqn:E4.
    assert (Hq4 : quietFrom w w4).
    { quiet_step Hq3 E4. apply quiet_onRateLimited. }
    destruct o4 as [value|e]; [|enters_catch Hcatch Hq4].
    right. right. exists user, result, w3, value.
    split; [exists w1, w2; repeat split; assumption|].
    split; [exact E4|]. split; [reflexivity|].
    now apply quietFrom_audits. }
  (* step 5 *)
  unfold bind at 1.
  destruct (stepValidateInput input w3) as [o4 w4] eqn:E4.
  assert (Hq4 : quietFrom w w4).
  { quiet_step Hq3 E4. now apply quiet_stepValidateInput. }
  destruct o4 as [validatedInput|e]; [|enters_catch Hcatch Hq4].
  (* steps 6 and 7 *)
  unfold bind at 1.
  destruct (stepExecuteHandler timeoutMessage input
              (buildContext input user validatedInput) w4) as [o5 w5] eqn:E5.
  assert (Hq5 : quietFrom w w5).
  { quiet_step Hq4 E5. now apply quiet_stepExecuteHandler. }
  destruct o5 as [result|e]; [|enters_catch Hcatch Hq5].
  (* steps 8 and 9 *)
  destruct (stepComplete_audits_once (now w) user result w w5 Hq5) as (Hok & value & Hvalue).
  destruct (stepComplete input (now w) user result w5) as [r w6]. cbn [fst snd] in *.
  subst r. left. exact Hok.
Qed.

End AuditOnce.

(** The converters and providers of the HTTP shape make no audit call,
    and its success converter returns. *)
Section ApiShape.

Variable globalT : ResponseTransformers.
Variable parsers : Parsers.
Variable config : WrapperConfig.
Variable handler : ApiContext -> Script HandlerResult.
Variable wrapperOptions : WrapperOptions.
Variable generatedId : string.
Variable req : Request.
Variable routeParams : Json.

Local Abbreviation input :=
  (apiPipelineInput globalT parsers config handler wrapperOptions generatedId req routeParams).

Lemma api_quiet_getAuthContext : emitsNoAudit (getAuthContext input).
Proof. apply quiet_ret. Qed.

Lemma api_quiet_getRawInput : emitsNoAudit (getRawInput input).
Proof.
  cbn [getRawInput apiPipelineInput]. apply quiet_bind; [|intros; apply quiet_ret].
  destruct (negb (String.eqb (req_method req) "GET")
            && negb (String.eqb (req_method req) "HEAD"))%bool;
    [apply quiet_lift | apply quiet_ret].
Qed.

Lemma api_quiet_executeHandler (ctx : ApiContext) : emitsNoAudit (executeHandler input ctx).
Proof.
  cbn [executeHandler apiPipelineInput]. apply quiet_bind; [apply quiet_invoke|].
  intros [r|v]; apply quiet_ret.
Qed.

Lemma api_quiet_onRateLimited (result : RateLimitResult) :
  emitsNoAudit (onRateLimited input result).
Proof. intros w. now apply quietFrom_same_logs. Qed.

Lemma quiet_saveToCache (response : Response) (cache : option CacheConfig)
    (cacheAdapter : bool) (requestId : string) (logger : bool) :
  emitsNoAudit (saveToCache req response cache cacheAdapter requestId logger).
Proof.
  unfold saveToCache. destruct cache as [c|]; [|apply quiet_ret].
  destruct (cacheAdapter && String.eqb (req_method req) "GET")%bool; [|apply quiet_ret].
  destruct (shouldCacheResponse response _); [|apply quiet_ret].
  apply quiet_bind; [|intros; apply quiet_ret].
  unfold setCachedResponse. apply quiet_bind; [|intros; now apply quiet_log].
  intros w. now apply quietFrom_same_logs.
Qed.

Lemma api_quiet_onSuccess (result : Response) (meta : PipelineMeta) :
  emitsNoAudit (onSuccess input result meta).
Proof. apply quiet_saveToCache. Qed.

Lemma api_quiet_onError (error : Thrown) (meta : PipelineMeta) :
  emitsNoAudit (onError input error meta).
Proof.
  cbn [onError apiPipelineInput]. unfold ApiResultHandlers.onError.
  destruct error;
    repeat (apply quiet_bind; [first [now apply quiet_log | apply quiet_lift] | intros]);
    apply quiet_ret.
Qed.

Lemma api_onSuccess_returns (result : Response) (meta : PipelineMeta) (w : World) :
  exists value, fst (onSuccess input result meta w) = Ok value.
Proof.
  cbn [onSuccess apiPipelineInput]. unfold saveToCache.
  destruct (wo_cache wrapperOptions) as [c|]; [|now eexists].
  destruct (cache_adapter (cfg_adapters config) && String.eqb (req_method req) "GET")%bool;
    [|now eexists].
  destruct (shouldCacheResponse _ _); now eexists.
Qed.

End ApiShape.

Lemma one_audit_record_unless_rate_limited_witness :
  let '(r, w') := runPipeline "Request timeout" Scenarios.validatedInput Scenarios.world0 in
  auditedSuccess Scenarios.validatedInput Scenarios.world0 w' r \/
  auditedFailure Scenarios.validatedInput Scenarios.world0 w' r \/
  rateLimitedUnaudited Scenarios.validatedInput Scenarios.world0 w' r.
Proof.
  apply (one_audit_record_unless_rate_limited "Request timeout" Scenarios.validatedInput).
  - reflexivity.
  - reflexivity.
  - apply api_quiet_getAuthContext.
  - apply api_quiet_getRawInput.
  - apply api_quiet_executeHandler.
  - apply api_quiet_onRateLimited.
  - apply api_quiet_onSuccess.
  - apply api_quiet_onError.
  - apply api_onSuccess_returns.
Defined.

(** C3, as stated, fails on the rate-limit rejection: the second
    request to a route limited to one per minute, with audit enabled by
    default and a logger present, is answered 429 and leaves no audit
    record. *)
Lemma rate_limited_request_is_not_audited :
  exists response w',
    Scenarios.limitedRoute "gen-2" Scenarios.getTest (JObj []) Scenarios.worldAfterFirst
    = (Ok response, w') /\
    resp_status response = 429 /\
    logger_adapter (cfg_adapters (Scenarios.adaptersOf None true true)) = true /\
    auditEnabled (wo_pipeline Scenarios.limitedOptions) = true /\
    auditsOf (newLogs Scenarios.worldAfterFirst w') = [] /\
    length (auditsOf (newLogs Scenarios.worldAfterFirst w')) <> 1%nat.
Proof.
  eexists. eexists. split; [vm_compute; reflexivity|].
  repeat split. vm_compute. discriminate.
Qed.

(** ** The scenarios of the test suite, run on the model *)

(** No auth required, the handler returns [{ ok: true }]. *)
Example scenario_public :
  fst (Scenarios.publicRoute "gen-1" Scenarios.getTest (JObj []) Scenarios.world0) =
  Ok {| resp_body := JObj [("success", JBool true); ("data", Scenarios.okBody)]%string;
        resp_status := 200;
        resp_headers := [("content-type", "application/json"); ("x-request-id", "gen-1")]%string |}.
Proof. vm_compute. reflexivity. Qed.

(** Auth required, [verify] answers [null]. *)
Example scenario_unauthorized :
  exists response,
    fst (Scenarios.authRoute None [] "gen-1" Scenarios.getTest (JObj []) Scenarios.world0)
    = Ok response /\
    resp_status response = 401 /\
    resp_body response = default_error "Authentication required" "UNAUTHORIZED" 401 None.
Proof. eexists. split; [vm_compute; reflexivity|]. split; reflexivity. Qed.

(** A user with role [user] on a route for [admin]. *)
Example scenario_forbidden :
  exists response,
    fst (Scenarios.authRoute (Some Scenarios.user1) ["admin"%string] "gen-1" Scenarios.getTest
           (JObj []) Scenarios.world0) = Ok response /\
    resp_status response = 403.
Proof. eexists. split; [vm_compute; reflexivity|]. reflexivity. Qed.

(** Rate limit of one per minute: the second request is answered 429. *)
Example scenario_rate_limited :
  exists response w',
    Scenarios.limitedRoute "gen-2" Scenarios.getTest (JObj []) Scenarios.worldAfterFirst
    = (Ok response, w') /\
    resp_status response = 429 /\
    Headers_get "Retry-After" (resp_headers response) = Some "60"%string /\
    Headers_get "X-RateLimit-Remaining" (resp_headers response) = Some "0"%string /\
    handlerCalls w' = handlerCalls Scenarios.worldAfterFirst.
Proof. eexists. eexists. split; [vm_compute; reflexivity|]. repeat split. Qed.

(** The handler throws [new Error('Database connection failed')]. *)
Example scenario_sanitized :
  exists response w',
    Scenarios.failingRoute "gen-1" Scenarios.getTest (JObj []) Scenarios.world0
    = (Ok response, w') /\
    resp_status response = 500 /\
    resp_body response = default_error "Internal server error" "INTERNAL_ERROR" 500 None /\
    List.filter is_error_level (logs w') =
      [LogError "Unhandled API error"
         (Some (ThrownError "Error" "Database connection failed"))
         [("requestId", JStr "gen-1")]%string].
Proof. eexists. eexists. split; [vm_compute; reflexivity|]. repeat split. Qed.

(** Two failures with 503, then success, under [{ attempts: 3, delayMs: 10 }]. *)
Example scenario_retry :
  exists response w',
    Scenarios.flakyRoute "gen-1" Scenarios.getTest (JObj []) Scenarios.world0
    = (Ok response, w') /\
    resp_status response = 200 /\
    handlerCalls w' = 3%nat /\
    length (List.filter is_warn (logs w')) = 2%nat.
Proof. eexists. eexists. split; [vm_compute; reflexivity|]. repeat split. Qed.

(** A handler of 200 ms under a timeout of 50 ms. *)
Example scenario_timeout :
  exists response w',
    Scenarios.slowRoute "gen-1" Scenarios.getTest (JObj []) Scenarios.world0
    = (Ok response, w') /\
    resp_status response = 408 /\
    resp_body response = default_error "Request timeout" "TIMEOUT" 408 None /\
    now w' - now Scenarios.world0 = 50.
Proof. eexists. eexists. split; [vm_compute; reflexivity|]. repeat split. Qed.

(** A cached GET route: a miss, then a hit; the handler ran once. *)
Example scenario_cache :
  exists miss hit w',
    serveAll (fun gid => Scenarios.cachedRoute gid Scenarios.getTest (JObj []))
      ["gen-1"; "gen-2"]%string Scenarios.world0 = (Ok [miss; hit], w') /\
    Headers_get "X-Cache" (resp_headers miss) = Some "MISS"%string /\
    Headers_get "X-Cache" (resp_headers hit) = Some "HIT"%string /\
    handlerCalls w' = 1%nat.
Proof. eexists. eexists. eexists. split; [vm_compute; reflexivity|]. repeat split. Qed.

(** * Further properties *)

(** ** middleware/retry.ts: the shape of every run *)

Lemma newSleeps_app (w w' : World) (l : list Z) :
  sleeps w' = sleeps w ++ l -> newSleeps w w' = l.
Proof.
  intros H. unfold newSleeps. rewrite H, skipn_app, skipn_all, Nat.sub_diag. reflexivity.
Qed.

(** Whatever the operation does, the loop stops after some [j] retried
    failures, [j] smaller than the iterations left, with the outcome of
    the call that followed them. *)
Lemma retryLoop_shape A (f : Script A) config logger requestId :
  forall (remaining : nat) (attempt : Z) (lastError : Thrown) (w : World),
    (1 <= remaining)%nat ->
    attempts config = attempt + Z.of_nat remaining - 1 ->
    exists (j : nat) (w' : World),
      retryLoop (invoke f) config logger requestId remaining attempt lastError w
        = (snd (f (handlerCalls w + j)%nat), w') /\
      (j < remaining)%nat /\
      handlerCalls w' = (handlerCalls w + S j)%nat /\
      sleeps w' = sleeps w ++ map (retryDelay config) (attemptsFrom attempt j).
Proof.
  induction remaining as [|remaining IH]; intros attempt lastError w Hpos Hatt; [lia|].
  cbn [retryLoop]. unfold tryCatch at 1. unfold invoke at 1.
  destruct (f (handlerCalls w)) as [d r] eqn:Ef.
  destruct r as [v|e].
  - exists O. eexists. replace (handlerCalls w + 0)%nat with (handlerCalls w) by lia.
    rewrite Ef. split; [reflexivity|]. cbn. rewrite app_nil_r.
    repeat split; first [lia | reflexivity].
  - destruct (negb (shouldRetryThis config e attempt) || (attempt =? attempts config))%bool
      eqn:Estop.
    + exists O. eexists. replace (handlerCalls w + 0)%nat with (handlerCalls w) by lia.
      rewrite Ef. split; [reflexivity|]. cbn. rewrite app_nil_r.
      repeat split; first [lia | reflexivity].
    + apply orb_false_iff in Estop. destruct Estop as [_ Hne]. apply Z.eqb_neq in Hne.
      unfold bind at 1. unfold log at 1. unfold bind at 1. unfold sleep at 1.
      set (w1 := set_now _ (add_sleep _ _)).
      assert (Hc : handlerCalls w1 = S (handlerCalls w))
        by (subst w1; destruct logger; reflexivity).
      assert (Hs : sleeps w1 = sleeps w ++ [retryDelay config attempt])
        by (subst w1; destruct logger; reflexivity).
      destruct (IH (attempt + 1) e w1) as (j & w' & Hrun & Hj & Hcalls & Hsleeps);
        [lia | lia |].
      exists (S j), w'. rewrite Hrun, Hcalls, Hsleeps, Hc, Hs, attemptsFrom_S.
      cbn [map]. rewrite <- app_assoc. repeat split.
      * do 3 f_equal. lia.
      * lia.
      * lia.
Qed.

Lemma sumZ_backoff (d : Z) :
  forall (j : nat) (attempt : Z),
    1 <= attempt ->
    sumZ (map (fun a => d * 2 ^ (a - 1)) (attemptsFrom attempt j))
    = d * 2 ^ (attempt - 1) * (2 ^ Z.of_nat j - 1).
Proof.
  induction j as [|j IH]; intros attempt Ha.
  - cbn. lia.
  - rewrite attemptsFrom_S. cbn [map sumZ fold_right]. fold (sumZ (map (fun a => d * 2 ^ (a - 1))
                                                                   (attemptsFrom (attempt + 1) j))).
    rewrite IH by lia.
    replace (attempt + 1 - 1) with (Z.succ (attempt - 1)) by lia.
    rewrite Z.pow_succ_r by lia.
    replace (Z.of_nat (S j)) with (Z.succ (Z.of_nat j)) by lia.
    rewrite Z.pow_succ_r by lia. ring.
Qed.

(** X1: with [attempts >= 1] and whatever the operation does, [withRetry]
    calls it at least once and at most [attempts] times, sleeps once
    between two calls, and answers what the last call answered. *)
Theorem withRetry_calls_bounded A (f : Script A) (config : RetryConfig) (logger : bool)
    (requestId : option string) (w : World) :
  1 <= attempts config ->
  let '(r, w') := withRetry (invoke f) config logger requestId w in
  exists j : nat,
    Z.of_nat j < attempts config /\
    handlerCalls w' = (handlerCalls w + S j)%nat /\
    length (newSleeps w w') = j /\
    r = snd (f (handlerCalls w + j)%nat).
Proof.
  intros Hatt. unfold withRetry.
  destruct (retryLoop_shape A f config logger requestId (Z.to_nat (attempts config)) 1
              (ThrownValue PUndefined) w) as (j & w' & Hrun & Hj & Hcalls & Hsleeps);
    [lia | lia |].
  rewrite Hrun. set (r := snd (f (handlerCalls w + j)%nat)). assert (Hr : r = r) by reflexivity.
  unfold r at 2 in Hr.
  exists j. split; [lia|]. split; [exact Hcalls|]. split; [|exact Hr].
  rewrite (newSleeps_app _ _ _ Hsleeps), length_map. apply attemptsFrom_length.
Qed.

Lemma withRetry_calls_bounded_witness :
  let '(r, w') := withRetry (invoke Scenarios.flaky) Scenarios.retry3 true None
                    Scenarios.world0 in
  exists j : nat,
    Z.of_nat j < 3 /\
    handlerCalls w' = (0 + S j)%nat /\
    length (newSleeps Scenarios.world0 w') = j /\
    r = snd (Scenarios.flaky (0 + j)%nat).
Proof.
  apply (withRetry_calls_bounded _ Scenarios.flaky Scenarios.retry3 true None Scenarios.world0).
  simpl. lia.
Defined.

(** X2: the sleeps of a run of [withRetry] add up to
    [delayMs * (2^retries - 1)], where [retries] is the number of calls
    after the first; with [delayMs >= 0] that is at most
    [delayMs * (2^(attempts-1) - 1)]. *)
Theorem withRetry_total_backoff A (f : Script A) (config : RetryConfig) (logger : bool)
    (requestId : option string) (w : World) :
  1 <= attempts config ->
  let '(r, w') := withRetry (invoke f) config logger requestId w in
  let retries := (handlerCalls w' - handlerCalls w - 1)%nat in
  sumZ (newSleeps w w') = default 100 (delayMs config) * (2 ^ Z.of_nat retries - 1) /\
  (0 <= default 100 (delayMs config) ->
   sumZ (newSleeps w w') <= default 100 (delayMs config) * (2 ^ (attempts config - 1) - 1)).
Proof.
  intros Hatt. unfold withRetry.
  destruct (retryLoop_shape A f config logger requestId (Z.to_nat (attempts config)) 1
              (ThrownValue PUndefined) w) as (j & w' & Hrun & Hj & Hcalls & Hsleeps);
    [lia | lia |].
  rewrite Hrun. cbv zeta. rewrite Hcalls.
  replace (handlerCalls w + S j - handlerCalls w - 1)%nat with j by lia.
  rewrite (newSleeps_app _ _ _ Hsleeps).
  assert (Hsum : sumZ (map (retryDelay config) (attemptsFrom 1 j))
                 = default 100 (delayMs config) * (2 ^ Z.of_nat j - 1)).
  { unfold retryDelay. rewrite (sumZ_backoff (default 100 (delayMs config)) j 1) by lia.
    cbn [Z.sub Z.pow]. replace (2 ^ (1 - 1)) with 1 by reflexivity. ring. }
  rewrite Hsum. split; [reflexivity|]. intros Hd.
  apply Z.mul_le_mono_nonneg_l; [exact Hd|].
  assert (2 ^ Z.of_nat j <= 2 ^ (attempts config - 1)); [|lia].
  apply Z.pow_le_mono_r; lia.
Qed.

Lemma withRetry_total_backoff_witness :
  let '(r, w') := withRetry (invoke Scenarios.flaky) Scenarios.retry3 true None
                    Scenarios.world0 in
  sumZ (newSleeps Scenarios.world0 w') = 30.
Proof.
  pose proof (withRetry_total_backoff _ Scenarios.flaky Scenarios.retry3 true None
                Scenarios.world0) as H.
  destruct (withRetry (invoke Scenarios.flaky) Scenarios.retry3 true None Scenarios.world0)
    as [r w'] eqn:E.
  destruct H as [H _]; [simpl; lia|]. rewrite H.
  assert (Hc : handlerCalls w' = 3%nat) by (pose proof (f_equal snd E) as E'; cbn in E';
                                            rewrite <- E'; reflexivity).
  rewrite Hc. reflexivity.
Defined.

(** X3: under the default retry policy (no [retryOn], no [shouldRetry])
    the errors of [ApiResponse.badGateway], [serviceUnavailable] and
    [gatewayTimeout] are retried; those of the other error methods,
    whatever their message, and every throw that is no [ApiError], are
    not. *)
Theorem default_policy_retries_gateway_errors (config : RetryConfig) (attempt : Z)
    (message : option string) (details : option (list ValidationErrorDetail)) :
  retryOn config = None ->
  shouldRetry config = None ->
  let retried (e : ApiError) := shouldRetryThis config (ThrownApiError e) attempt in
  retried (BaseResponse.badGateway ApiResponseClass_wrapError message) = true /\
  retried (BaseResponse.serviceUnavailable ApiResponseClass_wrapError message) = true /\
  retried (BaseResponse.gatewayTimeout ApiResponseClass_wrapError message) = true /\
  retried (BaseResponse.badRequest ApiResponseClass_wrapError message) = false /\
  retried (BaseResponse.unauthorized ApiResponseClass_wrapError message) = false /\
  retried (BaseResponse.forbidden ApiResponseClass_wrapError message) = false /\
  retried (BaseResponse.notFound ApiResponseClass_wrapError message) = false /\
  retried (BaseResponse.conflict ApiResponseClass_wrapError message) = false /\
  retried (BaseResponse.validationError ApiResponseClass_wrapError message details) = false /\
  retried (BaseResponse.tooManyRequests ApiResponseClass_wrapError message) = false /\
  retried (BaseResponse.internalError ApiResponseClass_wrapError message) = false /\
  (forall name msg, shouldRetryThis config (ThrownError name msg) attempt = false) /\
  (forall v, shouldRetryThis config (ThrownValue v) attempt = false).
Proof.
  intros Hon Hpred retried. unfold retried, shouldRetryThis. rewrite Hon, Hpred.
  repeat split.
Qed.

Lemma default_policy_retries_gateway_errors_witness :
  shouldRetryThis Scenarios.retry3
    (ThrownApiError (BaseResponse.serviceUnavailable ApiResponseClass_wrapError None)) 1 = true /\
  shouldRetryThis Scenarios.retry3
    (ThrownApiError (BaseResponse.notFound ApiResponseClass_wrapError None)) 1 = false.
Proof.
  destruct (default_policy_retries_gateway_errors Scenarios.retry3 1 None None eq_refl eq_refl)
    as (_ & H503 & _ & _ & _ & _ & H404 & _).
  split; [exact H503 | exact H404].
Defined.

(** ** middleware/rate-limit.ts: counters *)

Lemma checkAgain_frame (key : string) (config : RateLimitConfig) :
  forall (n : nat) (w : World) (other : string),
    other <> key ->
    counters (snd (checkAgain n key config w)) !! other = counters w !! other /\
    now (snd (checkAgain n key config w)) = now w.
Proof.
  induction n as [|n IH]; intros w other Hne.
  - cbn [checkAgain]. rewrite checkRateLimit_counts. cbn [snd counters set_counters now].
    split; [|reflexivity]. apply lookup_insert_ne. congruence.
  - cbn [checkAgain]. unfold bind at 1 2. rewrite checkRateLimit_counts.
    set (w1 := set_counters _ w).
    destruct (IH w1 other Hne) as [Hc Hn]. rewrite Hc, Hn. subst w1.
    cbn [counters set_counters now]. split; [|reflexivity].
    apply lookup_insert_ne. congruence.
Qed.

(** X4: the counters of different keys do not meet: any number of checks
    of one key leaves the answer to a check of another key as it was. *)
Theorem rate_limit_keys_are_independent (key other : string)
    (config otherConfig : RateLimitConfig) (n : nat) (w : World) :
  other <> key ->
  fst (checkRateLimit true other otherConfig (snd (checkAgain n key config w)))
  = fst (checkRateLimit true other otherConfig w).
Proof.
  intros Hne. rewrite !checkRateLimit_counts. cbn [fst].
  destruct (checkAgain_frame key config n w other Hne) as [-> ->]. reflexivity.
Qed.

Lemma rate_limit_keys_are_independent_witness :
  fst (checkRateLimit true "ratelimit:GET:/api/test:user-2" {| max := 1; windowMs := 60000 |}
         (snd (checkAgain 5 "ratelimit:GET:/api/test:user-1" {| max := 1; windowMs := 60000 |}
                 Scenarios.world0)))
  = fst (checkRateLimit true "ratelimit:GET:/api/test:user-2" {| max := 1; windowMs := 60000 |}
           Scenarios.world0).
Proof.
  apply rate_limit_keys_are_independent. discriminate.
Defined.

(** X5: every check counts, admitted or not: the [n+1]-th check in a
    row answers the count before the first plus [n+1]; so once a check
    of a key is rejected, every later check of that key in the window
    is rejected too. *)
Theorem rate_limit_stays_rejected (key : string) (config : RateLimitConfig) (w : World)
    (n m : nat) (rejected later : RateLimit.Result) (wn wm : World) :
  (n <= m)%nat ->
  checkAgain n key config w = (Ok rejected, wn) ->
  checkAgain m key config w = (Ok later, wm) ->
  RateLimit.allowed rejected = false ->
  RateLimit.allowed later = false /\
  RateLimit.count later = RateLimit.count rejected + Z.of_nat (m - n) /\
  RateLimit.count rejected = default 0 (counters w !! key) + Z.of_nat (S n).
Proof.
  intros Hle Hn Hm Hrejected.
  destruct (checkAgain_counts key config n w) as (wn' & Hn' & _).
  destruct (checkAgain_counts key config m w) as (wm' & Hm' & _).
  rewrite Hn in Hn'. rewrite Hm in Hm'.
  injection Hn' as -> _. injection Hm' as -> _.
  cbn [RateLimit.allowed RateLimit.count] in *.
  apply Z.leb_gt in Hrejected.
  split; [apply Z.leb_gt; lia|]. split; lia.
Qed.

Lemma rate_limit_stays_rejected_witness :
  exists later wm,
    checkAgain 4 "k" {| max := 1; windowMs := 60000 |} Scenarios.world0 = (Ok later, wm) /\
    RateLimit.allowed later = false /\ RateLimit.count later = 5.
Proof.
  destruct (checkAgain 4 "k" {| max := 1; windowMs := 60000 |} Scenarios.world0)
    as [[later|e] wm] eqn:Em; [|vm_compute in Em; discriminate].
  destruct (checkAgain 1 "k" {| max := 1; windowMs := 60000 |} Scenarios.world0)
    as [[rejected|e] wn] eqn:En; [|vm_compute in En; discriminate].
  destruct (rate_limit_stays_rejected "k" {| max := 1; windowMs := 60000 |} Scenarios.world0
              1 4 rejected later wn wm ltac:(lia) En Em) as (Ha & Hc & Hr).
  - vm_compute in En. injection En as <- _. reflexivity.
  - exists later, wm. split; [reflexivity|]. split; [exact Ha|].
    rewrite Hc, Hr. reflexivity.
Defined.

(** X6: a method without an entry in [DEFAULT_RATE_LIMITS] (anything but
    GET, POST, PUT, PATCH, DELETE: HEAD, OPTIONS, the ACTION of server
    actions) and without a policy from the call or the wrapper's
    defaults is not rate limited, step 4 admits and touches nothing,
    unless it is named like a member of [Object.prototype]
    (constructor, toString, ...): the lookup in the plain object then
    finds that member, and with a cache adapter every request is
    counted and rejected, with no limit and no reset time to report. *)
Theorem unlisted_methods_are_not_limited (TContext TResult : Type)
    (input : PipelineInput TContext TResult) (user : BaseUser) (w : World) :
  (forall config, opt_rateLimit (options input) <> RateLimitWith config) ->
  match defaults input with
  | Some {| default_rateLimit := Some table |} => table !! method input = None
  | _ => True
  end ->
  ~ In (method input) ["GET"; "POST"; "PUT"; "PATCH"; "DELETE"]%string ->
  (~ In (method input) Object_prototype_names ->
   stepRateLimiting input user w = (Ok None, w)) /\
  (In (method input) Object_prototype_names ->
   cache_adapter (adapters input) = true ->
   opt_rateLimit (options input) <> RateLimitDisabled ->
   let key := buildRateLimitKey (method input) (path input) (getIdentifier input user) in
   stepRateLimiting input user w =
   (Ok (Some {| rl_allowed := false; rl_limit := Undefined; rl_resetAt := NaN |}),
    set_counters (<[key := default 0 (counters w !! key) + 1]> (counters w)) w)).
Proof.
  intros Hunset Hdefaults Hmethod.
  assert (Hdefault : DEFAULT_RATE_LIMITS (method input) = None).
  { unfold DEFAULT_RATE_LIMITS.
    repeat match goal with
           | |- context [String.eqb ?a ?b] =>
               destruct (String.eqb_spec a b) as [Heq|_];
               [exfalso; apply Hmethod; rewrite Heq; cbn; tauto|]
           end.
    reflexivity. }
  assert (Hpolicy : rateLimitConfigFor (options input) (defaults input) (method input)
                    = table_get None (method input)).
  { unfold rateLimitConfigFor.
    destruct (opt_rateLimit (options input)) as [| |config]; [| |now destruct (Hunset config)];
      (destruct (defaults input) as [[t [table|]]|];
       [rewrite Hdefaults, Hdefault; destruct (table_get None (method input))| |];
       rewrite ?Hdefault; reflexivity). }
  assert (Hnames : existsb (String.eqb (method input)) Object_prototype_names = true
                   <-> In (method input) Object_prototype_names).
  { rewrite existsb_exists. split.
    - intros (x & Hin & Heq). apply String.eqb_eq in Heq. now subst x.
    - intros Hin. exists (method input). split; [exact Hin | apply String.eqb_refl]. }
  split.
  - intros Hplain. unfold stepRateLimiting. rewrite Hpolicy. unfold table_get.
    destruct (existsb (String.eqb (method input)) Object_prototype_names) eqn:E;
      [exfalso; apply Hplain, Hnames; reflexivity|].
    destruct (match opt_rateLimit (options input) with
              | RateLimitDisabled => false
              | _ => cache_adapter (adapters input)
              end); reflexivity.
  - intros Hinherited Hcache Hon. cbv zeta. unfold stepRateLimiting.
    rewrite Hpolicy, Hcache. unfold table_get.
    apply Hnames in Hinherited. rewrite Hinherited.
    destruct (opt_rateLimit (options input)); [reflexivity | congruence | reflexivity].
Qed.

Lemma unlisted_methods_are_not_limited_witness :
  stepRateLimiting MoreScenarios.createUserInput ANONYMOUS_USER Scenarios.world0
  = (Ok None, Scenarios.world0).
Proof.
  apply unlisted_methods_are_not_limited.
  - discriminate.
  - exact I.
  - cbn. intuition discriminate.
  - cbn. intuition discriminate.
Defined.

(** ** wrapper/api/handlers.ts: the rate-limited response *)

(** X7: the response of [onRateLimited] has status 429 and the error
    TOO_MANY_REQUESTS, carries the request id, the limit, zero remaining
    requests and the reset time as [String] renders them, and a
    [Retry-After] that is the time to the reset in seconds, rounded up
    (NaN when the reset time is no number); nothing is logged and
    nothing else changes. *)
Theorem rate_limited_response_headers (globalT transformers : ResponseTransformers)
    (result : RateLimitResult) (requestId : string) (w : World) :
  exists response : Response,
    ApiResultHandlers.onRateLimited globalT transformers result requestId w
      = (Ok response, w) /\
    resp_status response = 429 /\
    resp_body response =
      pick_error (Some transformers) globalT "Rate limit exceeded" "TOO_MANY_REQUESTS" 429
        None /\
    Headers_get "X-Request-ID" (resp_headers response) = Some requestId /\
    Headers_get "X-RateLimit-Limit" (resp_headers response)
      = Some (String_of_JsNumber (rl_limit result)) /\
    Headers_get "X-RateLimit-Remaining" (resp_headers response) = Some "0"%string /\
    Headers_get "X-RateLimit-Reset" (resp_headers response)
      = Some (String_of_JsNumber (rl_resetAt result)) /\
    Headers_get "Retry-After" (resp_headers response)
      = Some (String_of_JsNumber (retryAfterOf (rl_resetAt result) (now w))) /\
    (forall limit resetAt : Z,
        rl_limit result = Number limit ->
        rl_resetAt result = Number resetAt ->
        exists retryAfter : Z,
          Headers_get "X-RateLimit-Limit" (resp_headers response)
            = Some (String_of_number limit) /\
          Headers_get "X-RateLimit-Reset" (resp_headers response)
            = Some (String_of_number resetAt) /\
          Headers_get "Retry-After" (resp_headers response)
            = Some (String_of_number retryAfter) /\
          1000 * (retryAfter - 1) < resetAt - now w <= 1000 * retryAfter).
Proof.
  eexists. split; [reflexivity|]. repeat (split; [reflexivity|]).
  intros limit resetAt Hlimit Hreset. exists (ceil_div_1000 (resetAt - now w)).
  cbn [resp_headers Response_set_header]. rewrite Hlimit, Hreset.
  split; [reflexivity|]. split; [reflexivity|]. split; [reflexivity|].
  unfold ceil_div_1000. generalize (resetAt - now w). intros n.
  pose proof (Z.div_mod (- n) 1000 ltac:(lia)) as Hdiv.
  pose proof (Z.mod_pos_bound (- n) 1000 ltac:(lia)) as Hmod.
  lia.
Qed.

(** ** middleware/cache.ts and the cache helpers of wrapper/api/handlers.ts *)

Lemma string_app_inv_head (s a b : string) : s +:+ a = s +:+ b -> a = b.
Proof.
  induction s as [|c s IH]; cbn; intros H; [exact H|].
  injection H as H. now apply IH.
Qed.

(** X8: under the default key, two requests with the same method and
    path share a cache entry only if their query strings are the same. *)
Theorem default_cache_key_separates_queries (req1 req2 : Request) :
  req_method req1 = req_method req2 ->
  req_pathname req1 = req_pathname req2 ->
  generateCacheKey req1 = generateCacheKey req2 ->
  req_search req1 = req_search req2.
Proof.
  unfold generateCacheKey. intros -> -> H.
  repeat apply string_app_inv_head in H. exact H.
Qed.

Lemma default_cache_key_separates_queries_witness :
  req_search Scenarios.getTest =
  req_search {| req_method := "GET"; req_pathname := "/api/test"; req_search := EmptyString;
                req_headers := Headers_of_record [("Accept", "text/html")]%string |}.
Proof.
  apply (default_cache_key_separates_queries Scenarios.getTest
           {| req_method := "GET"; req_pathname := "/api/test"; req_search := EmptyString;
              req_headers := Headers_of_record [("Accept", "text/html")]%string |});
    reflexivity.
Defined.

(** What [getCachedResponse] makes of a stored envelope. *)
Lemma getCachedResponse_hit (cacheKey requestId : string) (logger : bool) (w : World)
    (cached : CachedResponse) :
  store w !! cacheKey = Some cached ->
  let w' := snd (log logger (LogDebug "Cache hit"
                               [("requestId", JStr requestId);
                                ("cacheKey", JStr cacheKey)]%string) w) in
  (statusTakesBody (cached_status cached) = true ->
   getCachedResponse cacheKey requestId logger w
   = (Ok (Some (hitResponseOf cached requestId)), w')) /\
  (statusTakesBody (cached_status cached) = false ->
   exists name message,
     getCachedResponse cacheKey requestId logger w = (Throw (ThrownError name message), w') /\
     (name = "RangeError"%string \/ name = "TypeError"%string)).
Proof.
  intros Hstored. cbv zeta. unfold getCachedResponse, bind, cache_get. rewrite Hstored.
  unfold log, lift, ret. cbn [snd]. split.
  - intros Hok. rewrite (Response_init_accepts _ _ _ _ Hok), Headers_of_record_map.
    reflexivity.
  - intros Hbad.
    destruct (Response_init_refuses (cached_body cached) (cached_status cached)
                (record_set "X-Cache" "HIT"
                   (record_set "X-Request-ID" requestId (cached_headers cached))) Hbad)
      as (name & message & -> & Hname).
    exists name, message. split; [reflexivity | exact Hname].
Qed.


(** The envelope [setCachedResponse] stores for a response. *)
Lemma setCachedResponse_stores (cacheKey : string) (response : Response) (ttl : Z)
    (requestId : string) (logger : bool) (w : World) :
  exists w',
    setCachedResponse cacheKey response ttl requestId logger w = (Ok tt, w') /\
    store w' =
      <[cacheKey :=
          {| cached_body := resp_body response; cached_status := resp_status response;
             cached_headers :=
               fold_left (fun r kv => record_assign (fst kv) (snd kv) r)
                 (Headers_entries (resp_headers response)) [] |}]> (store w) /\
    counters w' = counters w /\ handlerCalls w' = handlerCalls w /\ now w' = now w.
Proof.
  unfold setCachedResponse, bind, cache_set, log.
  destruct logger; eexists; (split; [reflexivity|]); repeat split.
Qed.

(** X10: [saveToCache] writes only for a GET request with caching
    configured, the adapter there and a response that qualifies (a 2xx
    status, or any status when [successOnly] is [false]); then it stores
    the body and the status of the response under the key of the
    request and marks the response [X-Cache: MISS].  In every other case
    the store and the response stay as they are; and no other key of
    the store is ever touched. *)
Theorem saveToCache_writes_iff (req : Request) (response : Response)
    (cache : option CacheConfig) (cacheAdapter : bool) (requestId : string) (logger : bool)
    (w : World) :
  let qualifies (config : CacheConfig) :=
    (cacheAdapter && String.eqb (req_method req) "GET"
     && (match successOnly config with
         | Some false => true
         | _ => (200 <=? resp_status response) && (resp_status response <? 300)
         end))%bool in
  exists (result : Response) (w' : World),
    saveToCache req response cache cacheAdapter requestId logger w = (Ok result, w') /\
    match cache with
    | Some config =>
        if qualifies config
        then
          result = Response_set_header "X-Cache" "MISS" response /\
          (exists cached,
              store w' !! getCacheKey req config = Some cached /\
              cached_body cached = resp_body response /\
              cached_status cached = resp_status response) /\
          (forall key, key <> getCacheKey req config -> store w' !! key = store w !! key)
        else result = response /\ store w' = store w
    | None => result = response /\ store w' = store w
    end.
Proof.
  cbv zeta. unfold saveToCache. destruct cache as [config|]; [|now eexists; eexists].
  destruct cacheAdapter; cbn [andb]; [|now eexists; eexists].
  destruct (String.eqb (req_method req) "GET"); cbn [andb]; [|now eexists; eexists].
  unfold shouldCacheResponse.
  assert (Hcase : (if match successOnly config with
                      | Some false => false
                      | _ => true
                      end
                   then (200 <=? resp_status response) && (resp_status response <? 300)
                   else true)%bool
                  = match successOnly config with
                    | Some false => true
                    | _ => ((200 <=? resp_status response) && (resp_status response <? 300))%bool
                    end).
  { destruct (successOnly config) as [[|]|]; reflexivity. }
  rewrite Hcase.
  destruct (match successOnly config with
            | Some false => true
            | _ => ((200 <=? resp_status response) && (resp_status response <? 300))%bool
            end); [|now eexists; eexists].
  destruct (setCachedResponse_stores (getCacheKey req config) response (ttlMs config)
              requestId logger w) as (w' & Hrun & Hstore & _).
  unfold bind at 1. rewrite Hrun. eexists. exists w'. split; [reflexivity|].
  split; [reflexivity|]. split.
  - eexists. rewrite Hstore, lookup_insert_eq. split; [reflexivity|]. split; reflexivity.
  - intros key Hkey. rewrite Hstore. apply lookup_insert_ne. congruence.
Qed.



(** ** wrapper/pipeline.ts: how an invocation ends *)

Section Ends.

Variable timeoutMessage : string.
Context {TContext TResult : Type}.
Variable input : PipelineInput TContext TResult.

Lemma catchBlock_ends_in_onError (startTime : Z) (user : BaseUser) (error : Thrown)
    (w : World) :
  exists meta w1, catchBlock input startTime user error w = onError input error meta w1.
Proof.
  unfold catchBlock, bind, Date_now, log.
  destruct (logger_adapter (adapters input)), (auditEnabled (options input));
    cbn [andb]; unfold ret; eexists; eexists; reflexivity.
Qed.

Lemma stepComplete_ends_in_onSuccess (startTime : Z) (user : BaseUser) (result : TResult)
    (w : World) :
  exists meta w1, stepComplete input startTime user result w = onSuccess input result meta w1.
Proof.
  unfold stepComplete, bind, Date_now, log.
  destruct (logger_adapter (adapters input)), (auditEnabled (options input));
    cbn [andb]; unfold ret; eexists; eexists; reflexivity.
Qed.

(** The outcome of an invocation is the outcome of one of the three
    converters of its input; the first two only when they return. *)
Lemma runPipeline_ends_in_converter (w : World) :
  (exists result w1 value,
      onRateLimited input result w1 = runPipeline timeoutMessage input w /\
      fst (runPipeline timeoutMessage input w) = Ok value) \/
  (exists result meta w1 value,
      onSuccess input result meta w1 = runPipeline timeoutMessage input w /\
      fst (runPipeline timeoutMessage input w) = Ok value) \/
  (exists error meta w1,
      onError input error meta w1 = runPipeline timeoutMessage input w).
Proof.
  unfold runPipeline.
  destruct ((stepLogStart input;; stepAuthentication input) w) as [[user|e] w1].
  2:{ right; right. destruct (catchBlock_ends_in_onError (now w) ANONYMOUS_USER e w1)
        as (meta & w2 & H). exists e, meta, w2. now rewrite H. }
  unfold tryCatch.
  destruct (tryBlockAfterAuth timeoutMessage input (now w) user w1) as [[v|e] w2] eqn:E.
  2:{ right; right. destruct (catchBlock_ends_in_onError (now w) user e w2)
        as (meta & w3 & H). exists e, meta, w3. now rewrite H. }
  unfold tryBlockAfterAuth, bind in E.
  destruct (stepTenantScoping input user w1) as [[[]|e] w3]; [|discriminate].
  destruct (stepRateLimiting input user w3) as [[[res|]|e] w4]; [| |discriminate].
  - left. exists res, w4, v. now split.
  - destruct (stepValidateInput input w4) as [[raw|e] w5]; [|discriminate].
    destruct (stepExecuteHandler timeoutMessage input _ w5) as [[result|e] w6]; [|discriminate].
    right; left.
    destruct (stepComplete_ends_in_onSuccess (now w) user result w6) as (meta & w7 & H).
    exists result, meta, w7, v. rewrite <- H. now split.
Qed.

End Ends.



(** ** The two shapes: what a route and an action can end with *)

Lemma filter_name_none (name : string) (h : Headers) :
  Headers_has name h = false ->
  List.filter (fun kv : string * string => String.eqb (fst kv) (lower name)) h = [].
Proof.
  unfold Headers_has. induction h as [|[k v] h IH]; cbn; [reflexivity|].
  destruct (String.eqb k (lower name)); cbn; [discriminate | exact IH].
Qed.

Lemma filter_name_skips (n m : string) (h : list (string * string)) :
  n <> m ->
  List.filter (fun kv : string * string => String.eqb (fst kv) n)
    (List.filter (fun kv : string * string => negb (String.eqb (fst kv) m)) h)
  = List.filter (fun kv : string * string => String.eqb (fst kv) n) h.
Proof.
  intros Hnm. induction h as [|[k v] h IH]; cbn; [reflexivity|].
  destruct (String.eqb_spec k m) as [->|Hkm]; cbn.
  - destruct (String.eqb_spec m n) as [->|_]; [congruence | exact IH].
  - now rewrite IH.
Qed.

Lemma filter_name_cleared (m : string) (h : list (string * string)) :
  List.filter (fun kv : string * string => String.eqb (fst kv) m)
    (List.filter (fun kv : string * string => negb (String.eqb (fst kv) m)) h) = [].
Proof.
  induction h as [|[k v] h IH]; cbn; [reflexivity|].
  destruct (String.eqb k m) eqn:E; cbn; [exact IH | now rewrite E].
Qed.

(** [headers.get(name)] after [headers.set(name, value)]. *)
Lemma Headers_get_set_same (name value : string) (h : Headers) :
  Headers_get name (Headers_set name value h) = Some value.
Proof.
  unfold Headers_get, Headers_set.
  destruct (Headers_has name h) eqn:Hhas.
  - assert (H : List.filter (fun kv : string * string => String.eqb (fst kv) (lower name))
                  (Headers_replace_first (lower name) value h) = [(lower name, value)]).
    { unfold Headers_has in Hhas. induction h as [|[k v] h IH]; cbn in *; [discriminate|].
      destruct (String.eqb k (lower name)) eqn:E; cbn.
      - rewrite E. apply String.eqb_eq in E. subst k. now rewrite filter_name_cleared.
      - rewrite E. apply IH. exact Hhas. }
    rewrite H. reflexivity.
  - unfold Headers_append. rewrite List.filter_app, filter_name_none by exact Hhas.
    cbn. now rewrite String.eqb_refl.
Qed.

Lemma filter_name_set_other (name other value : string) (h : Headers) :
  lower name <> lower other ->
  List.filter (fun kv : string * string => String.eqb (fst kv) (lower name))
    (Headers_set other value h)
  = List.filter (fun kv : string * string => String.eqb (fst kv) (lower name)) h.
Proof.
  intros Hne. unfold Headers_set. destruct (Headers_has other h).
  - induction h as [|[k v] h IH]; cbn; [reflexivity|].
    destruct (String.eqb_spec k (lower other)) as [->|Hk]; cbn.
    + destruct (String.eqb_spec (lower other) (lower name)) as [E|_]; [congruence|].
      now apply filter_name_skips.
    + now rewrite IH.
  - unfold Headers_append. rewrite List.filter_app. cbn.
    destruct (String.eqb_spec (lower other) (lower name)) as [E|_]; [congruence|].
    apply app_nil_r.
Qed.

(** [headers.set] of one name leaves [headers.get] of another as it was. *)
Lemma Headers_get_set_other (name other value : string) (h : Headers) :
  lower name <> lower other ->
  Headers_get name (Headers_set other value h) = Headers_get name h.
Proof.
  intros Hne. unfold Headers_get. now rewrite filter_name_set_other.
Qed.

Lemma Response_init_throws (hasBody : bool) (body : Json) (status : Z) (headers : StringRecord)
    (error : Thrown) :
  Response_init hasBody body status headers = Throw error -> constructorFailure error.
Proof.
  intros H. exists hasBody, body, status, headers. split; [exact H|].
  destruct (statusTakesBody status) eqn:E; [|reflexivity].
  rewrite (Response_init_accepts _ _ _ _ E) in H. discriminate.
Qed.

Lemma createErrorResponse_throws (globalT : ResponseTransformers) (e : ApiError)
    (transformers : option ResponseTransformers) (error : Thrown) :
  createErrorResponse globalT e transformers = Throw error -> constructorFailure error.
Proof. unfold createErrorResponse, Response_new. apply Response_init_throws. Qed.

Section ApiEnds.

Variable timeoutMessage : string.
Variable globalT : ResponseTransformers.
Variable parsers : Parsers.
Variable config : WrapperConfig.
Variable handler : ApiContext -> Script HandlerResult.
Variable wrapperOptions : WrapperOptions.
Variable generatedId : string.
Variable req : Request.
Variable routeParams : Json.

Local Abbreviation input :=
  (apiPipelineInput globalT parsers config handler wrapperOptions generatedId req routeParams).

(** How a converter of the routes can end: with a response that carries
    the request id, or with a failure of the constructor of
    [Response]. *)
Local Abbreviation endsWell run :=
  (match run with
   | (Ok response, _) =>
       Headers_get "X-Request-ID" (resp_headers response) = Some (requestId input)
   | (Throw error, _) => constructorFailure error
   end).

Lemma api_onError_ends (error : Thrown) (meta : PipelineMeta) (w : World) :
  endsWell (onError input error meta w).
Proof.
  cbn [onError apiPipelineInput requestId]. unfold ApiResultHandlers.onError.
  destruct error as [e|name msg|v]; unfold bind, log, ret, lift;
    match goal with
    | |- context [createErrorResponse ?g ?e ?t] =>
        destruct (createErrorResponse g e t) as [response|error] eqn:E
    end;
    first [ cbn [resp_headers Response_set_header]; apply Headers_get_set_same
          | eapply createErrorResponse_throws, E ].
Qed.

Lemma api_onRateLimited_ends (result : RateLimitResult) (w : World) :
  endsWell (onRateLimited input result w).
Proof.
  cbn [onRateLimited apiPipelineInput requestId]. unfold ApiResultHandlers.onRateLimited.
  unfold bind, Date_now, ret, lift.
  match goal with
  | |- context [createErrorResponse ?g ?e ?t] =>
      destruct (createErrorResponse g e t) as [response|error] eqn:E
  end; [|eapply createErrorResponse_throws, E].
  cbn [resp_headers Response_set_header].
  rewrite !Headers_get_set_other by (vm_compute; discriminate).
  apply Headers_get_set_same.
Qed.

Lemma api_onSuccess_responds (result : Response) (meta : PipelineMeta) (w : World) :
  exists response w',
    onSuccess input result meta w = (Ok response, w') /\
    Headers_get "X-Request-ID" (resp_headers response) = Some (requestId input).
Proof.
  cbn [onSuccess apiPipelineInput requestId].
  unfold saveToCache, ApiResultHandlers.onSuccess.
  destruct (wo_cache wrapperOptions) as [c|].
  2:{ unfold ret. eexists; eexists; (split; [reflexivity|]). apply Headers_get_set_same. }
  destruct (cache_adapter (cfg_adapters config) && String.eqb (req_method req) "GET")%bool.
  2:{ unfold ret. eexists; eexists; (split; [reflexivity|]). apply Headers_get_set_same. }
  destruct (shouldCacheResponse _ _).
  2:{ unfold ret. eexists; eexists; (split; [reflexivity|]). apply Headers_get_set_same. }
  unfold bind, setCachedResponse, cache_set, log, ret.
  eexists; eexists; (split; [reflexivity|]).
  cbn [resp_headers Response_set_header].
  rewrite Headers_get_set_other by (vm_compute; discriminate).
  apply Headers_get_set_same.
Qed.

Lemma api_runPipeline_ends (w : World) :
  endsWell (runPipeline timeoutMessage input w).
Proof.
  destruct (runPipeline_ends_in_converter timeoutMessage input w)
    as [(res & w1 & v & H & _) | [(res & meta & w1 & v & H & _) | (error & meta & w1 & H)]];
    rewrite <- H.
  - apply api_onRateLimited_ends.
  - destruct (api_onSuccess_responds res meta w1) as (response & w' & -> & Hid). exact Hid.
  - apply api_onError_ends.
Qed.

End ApiEnds.


Lemma retryLoop_answer {A} (fn : M A) (config : RetryConfig) (logger : bool)
    (requestId : option string) (P : A -> Prop) :
  (forall w a w', fn w = (Ok a, w') -> P a) ->
  forall remaining attempt lastError w a w',
    retryLoop fn config logger requestId remaining attempt lastError w = (Ok a, w') -> P a.
Proof.
  intros Hfn. induction remaining as [|remaining IH]; intros attempt lastError w a w' H.
  - discriminate.
  - cbn [retryLoop] in H. unfold tryCatch in H.
    destruct (fn w) as [[a0|e] w1] eqn:E.
    + injection H as <- _. eapply Hfn, E.
    + destruct (negb (shouldRetryThis config e attempt) || (attempt =? attempts config))%bool;
        [discriminate|].
      unfold bind, log, sleep in H. eapply IH, H.
Qed.

(** X14: a server action built by [actionWrapper], with a logger that
    does not throw, resolves only with a value its handler returned,
    and rejects only with an [ApiError]: any other failure of a step or
    of the handler is replaced. *)
Theorem action_resolves_with_handler_value (timeoutMessage : string) (config : WrapperConfig)
    (configGetAuthContext : option (Outcome AuthRequestContext))
    (handler : ActionContext -> Script Json) (handlerName : string)
    (actionOptions : PipelineOptions) (generatedId : string) (input : Json) (w : World) :
  match actionWrapper timeoutMessage config configGetAuthContext handler handlerName
          actionOptions generatedId input w with
  | (Ok value, _) => exists ctx i, snd (handler ctx i) = Ok value
  | (Throw error, _) => isApiError error = true
  end.
Proof.
  unfold actionWrapper.
  set (pin := actionPipelineInput config configGetAuthContext handler handlerName
                actionOptions generatedId input).
  assert (HonError : forall error meta w1,
             exists e w2, onError pin error meta w1 = (Throw (ThrownApiError e), w2)).
  { intros error meta w1. cbn [pin onError actionPipelineInput].
    unfold ActionResultHandlers.onError.
    destruct error; unfold bind, log, throw; eexists; eexists; reflexivity. }
  unfold runPipeline.
  destruct ((stepLogStart pin;; stepAuthentication pin) w) as [[user|e] w1].
  2:{ destruct (catchBlock_ends_in_onError pin (now w) ANONYMOUS_USER e w1) as (meta & w2 & ->).
      destruct (HonError e meta w2) as (e' & w3 & ->). reflexivity. }
  unfold tryCatch.
  destruct (tryBlockAfterAuth timeoutMessage pin (now w) user w1) as [[v|e] w2] eqn:E.
  2:{ destruct (catchBlock_ends_in_onError pin (now w) user e w2) as (meta & w3 & ->).
      destruct (HonError e meta w3) as (e' & w4 & ->). reflexivity. }
  unfold tryBlockAfterAuth, bind in E.
  destruct (stepTenantScoping pin user w1) as [[[]|e] w3]; [|discriminate].
  destruct (stepRateLimiting pin user w3) as [[[res|]|e] w4]; [discriminate| |discriminate].
  destruct (stepValidateInput pin w4) as [[raw|e] w5]; [|discriminate].
  destruct (stepExecuteHandler timeoutMessage pin _ w5) as [[result|e] w6] eqn:Ex; [|discriminate].
  destruct (stepComplete_ends_in_onSuccess pin (now w) user result w6) as (meta & w7 & H).
  rewrite H in E. cbn [pin onSuccess actionPipelineInput] in E.
  unfold ret, ActionResultHandlers.onSuccess in E. injection E as <- _.
  assert (Hinvoke : forall ctx w a w', invoke (handler ctx) w = (Ok a, w') ->
                                       exists ctx i, snd (handler ctx i) = Ok a).
  { intros ctx wa a wb Hi. unfold invoke in Hi. exists ctx, (handlerCalls wa).
    destruct (handler ctx (handlerCalls wa)) as [d r]. now injection Hi as -> _. }
  unfold stepExecuteHandler in Ex. cbn [pin executeHandler actionPipelineInput] in Ex.
  set (maybeRetry :=
         match opt_retry (options pin) with
         | Some retry => _
         | None => _
         end) in Ex.
  assert (Hmaybe : forall wa a wb, maybeRetry wa = (Ok a, wb) ->
                                   exists ctx i, snd (handler ctx i) = Ok a).
  { intros wa a wb. unfold maybeRetry.
    destruct (opt_retry (options pin)) as [retry|]; [|apply Hinvoke].
    unfold withRetry.
    apply (retryLoop_answer _ _ _ _ (fun a => exists ctx i, snd (handler ctx i) = Ok a)).
    intros w0 a0 w0'. apply Hinvoke. }
  destruct (truthy (effectiveTimeout (options pin) (defaults pin))).
  - unfold withTimeout in Ex. destruct (maybeRetry w5) as [r wb] eqn:Em.
    destruct (now wb - now w5 <=? _); [|discriminate].
    injection Ex as -> _. eapply Hmaybe, Em.
  - eapply Hmaybe, Ex.
Qed.

(** ** What an invocation leaves untouched *)

Section Keeps.

Context {X : Type}.
Variable proj : World -> X.

Lemma keeps_ret {A} (a : A) : keeps proj (ret a).
Proof. intros w. reflexivity. Qed.

Lemma keeps_throw {A} (e : Thrown) : keeps proj (@throw A e).
Proof. intros w. reflexivity. Qed.

Lemma keeps_lift {A} (o : Outcome A) : keeps proj (lift o).
Proof. intros w. reflexivity. Qed.

Lemma keeps_Date_now : keeps proj Date_now.
Proof. intros w. reflexivity. Qed.

Lemma keeps_bind {A B} (m : M A) (k : A -> M B) :
  keeps proj m -> (forall a, keeps proj (k a)) -> keeps proj (bind m k).
Proof.
  intros Hm Hk w. unfold bind. specialize (Hm w).
  destruct (m w) as [[a|e] w1]; cbn [snd] in *; [|exact Hm].
  now rewrite Hk.
Qed.

Lemma keeps_tryCatch {A} (m : M A) (h : Thrown -> M A) :
  keeps proj m -> (forall e, keeps proj (h e)) -> keeps proj (tryCatch m h).
Proof.
  intros Hm Hh w. unfold tryCatch. specialize (Hm w).
  destruct (m w) as [[a|e] w1]; cbn [snd] in *; [exact Hm|].
  now rewrite Hh.
Qed.

Lemma keeps_validateSlot schema raw name : keeps proj (validateSlot schema raw name).
Proof.
  intros w. unfold validateSlot, validateSchema.
  destruct schema as [sch|]; [destruct (sch raw)|]; reflexivity.
Qed.

Lemma keeps_cache_get (key : string) : keeps proj (cache_get key).
Proof. intros w. reflexivity. Qed.

Lemma keeps_checkRateLimit_without_cache key config :
  keeps proj (checkRateLimit false key config).
Proof. intros w. reflexivity. Qed.

Hypothesis proj_log : forall c w, proj (add_log c w) = proj w.
Hypothesis proj_now : forall t w, proj (set_now t w) = proj w.
Hypothesis proj_sleep : forall d w, proj (add_sleep d w) = proj w.

Lemma keeps_log (logger : bool) (c : LogCall) : keeps proj (log logger c).
Proof. intros w. unfold log. destruct logger; cbn [snd]; [apply proj_log | reflexivity]. Qed.

Lemma keeps_sleep (d : Z) : keeps proj (sleep d).
Proof. intros w. unfold sleep. cbn [snd]. now rewrite proj_now, proj_sleep. Qed.

Lemma keeps_retryLoop {A} (fn : M A) config logger requestId :
  keeps proj fn ->
  forall remaining attempt lastError,
    keeps proj (retryLoop fn config logger requestId remaining attempt lastError).
Proof.
  intros Hfn. induction remaining as [|remaining IH]; intros attempt lastError.
  - apply keeps_throw.
  - cbn [retryLoop]. apply keeps_tryCatch; [exact Hfn|]. intros e.
    destruct (negb (shouldRetryThis config e attempt) || (attempt =? attempts config))%bool.
    + apply keeps_throw.
    + apply keeps_bind; [apply keeps_log|]. intros _.
      apply keeps_bind; [apply keeps_sleep|]. intros _. apply IH.
Qed.

Lemma keeps_withTimeout {A} (timeoutMessage : string) (m : M A) (ms : Z) :
  keeps proj m -> keeps proj (withTimeout timeoutMessage m ms).
Proof.
  intros Hm w. unfold withTimeout. specialize (Hm w).
  destruct (m w) as [r w1]. cbn [snd] in Hm.
  destruct (now w1 - now w <=? Z.max 0 ms); cbn [snd]; [exact Hm|].
  now rewrite proj_now.
Qed.

Lemma keeps_checkCache req cache cacheAdapter requestId logger :
  keeps proj (checkCache req cache cacheAdapter requestId logger).
Proof.
  unfold checkCache. destruct cache as [c|]; [|apply keeps_ret].
  destruct (cacheAdapter && String.eqb (req_method req) "GET")%bool; [|apply keeps_ret].
  unfold getCachedResponse. apply keeps_bind; [apply keeps_cache_get|].
  intros [cached|]; [|apply keeps_ret].
  apply keeps_bind; [apply keeps_log|]. intros _.
  apply keeps_bind; [apply keeps_lift | intros response; apply keeps_ret].
Qed.

Section Steps.

Variable timeoutMessage : string.
Context {TContext TResult : Type}.
Variable input : PipelineInput TContext TResult.

Hypothesis keeps_getAuthContext : keeps proj (getAuthContext input).
Hypothesis keeps_getRawInput : keeps proj (getRawInput input).
Hypothesis keeps_onRateLimited : forall result, keeps proj (onRateLimited input result).
Hypothesis keeps_onSuccess : forall result meta, keeps proj (onSuccess input result meta).
Hypothesis keeps_onError : forall error meta, keeps proj (onError input error meta).

(** The route asks for no authentication, or [proj] does not look at the
    calls of [verify]. *)
Hypothesis authFrame :
  opt_auth (options input) = None \/ (forall w, proj (add_verifyCall w) = proj w).

(** Rate limiting is off, or [proj] does not look at the counters. *)
Hypothesis rateFrame :
  opt_rateLimit (options input) = RateLimitDisabled \/
  cache_adapter (adapters input) = false \/
  (forall c w, proj (set_counters c w) = proj w).

Lemma keeps_stepLogStart : keeps proj (stepLogStart input).
Proof. apply keeps_log. Qed.

Lemma keeps_stepAuthentication : keeps proj (stepAuthentication input).
Proof.
  unfold stepAuthentication.
  destruct (opt_auth (options input)) as [auth|] eqn:Eauth; [|apply keeps_ret].
  destruct authFrame as [Hnone | Hverify]; [discriminate|].
  destruct (auth_adapter (adapters input)) as [adapter|]; [|apply keeps_throw].
  apply keeps_bind; [exact keeps_getAuthContext|]. intros authCtx.
  apply keeps_bind; [intros w; apply Hverify|]. intros [authUser|]; [|apply keeps_throw].
  destruct (0 <? length auth)%nat; [|apply keeps_ret].
  apply keeps_bind; [apply keeps_lift|]. intros [|]; [apply keeps_ret | apply keeps_throw].
Qed.

Lemma keeps_stepTenantScoping (user : BaseUser) : keeps proj (stepTenantScoping input user).
Proof.
  unfold stepTenantScoping.
  destruct (default false (opt_tenantScoped (options input))); [|apply keeps_ret].
  destruct (auth_adapter (adapters input)) as [[v h [check|]]|]; try apply keeps_throw.
  apply keeps_bind; [exact keeps_getAuthContext|]. intros authCtx.
  apply keeps_bind; [apply keeps_lift|]. intros [|]; [apply keeps_ret | apply keeps_throw].
Qed.

Lemma keeps_stepRateLimiting (user : BaseUser) : keeps proj (stepRateLimiting input user).
Proof.
  unfold stepRateLimiting.
  destruct rateFrame as [Hoff | [Hnocache | Hcounters]].
  - rewrite Hoff. apply keeps_ret.
  - rewrite Hnocache. destruct (opt_rateLimit (options input)); apply keeps_ret.
  - destruct (match opt_rateLimit (options input) with
              | RateLimitDisabled => false
              | _ => cache_adapter (adapters input)
              end); [|apply keeps_ret].
    destruct (rateLimitConfigFor _ _ _) as [[rateLimitConfig|]|]; [| |apply keeps_ret].
    + apply keeps_bind.
      * intros w. unfold checkRateLimit.
        destruct (cache_adapter (adapters input)); cbn; [apply Hcounters | reflexivity].
      * intros result. destruct (negb (RateLimit.allowed result)); apply keeps_ret.
    + apply keeps_bind; [|intros _; apply keeps_ret].
      intros w. apply Hcounters.
Qed.

Lemma keeps_stepValidateInput : keeps proj (stepValidateInput input).
Proof.
  unfold stepValidateInput.
  apply keeps_bind; [exact keeps_getRawInput|]. intros rawInput.
  apply keeps_bind; [apply keeps_validateSlot|]. intros params.
  apply keeps_bind; [apply keeps_validateSlot|]. intros query.
  apply keeps_bind; [apply keeps_validateSlot|]. intros body.
  apply keeps_ret.
Qed.

Lemma keeps_stepComplete (startTime : Z) (user : BaseUser) (result : TResult) :
  keeps proj (stepComplete input startTime user result).
Proof.
  unfold stepComplete.
  apply keeps_bind; [apply keeps_Date_now|]. intros t.
  apply keeps_bind; [apply keeps_log|]. intros _.
  apply keeps_bind; [|intros _; apply keeps_onSuccess].
  destruct (auditEnabled (options input) && logger_adapter (adapters input))%bool;
    [apply keeps_log | apply keeps_ret].
Qed.

Lemma keeps_catchBlock (startTime : Z) (user : BaseUser) (error : Thrown) :
  keeps proj (catchBlock input startTime user error).
Proof.
  unfold catchBlock.
  apply keeps_bind; [apply keeps_Date_now|]. intros t.
  apply keeps_bind; [apply keeps_log|]. intros _.
  apply keeps_bind; [|intros _; apply keeps_onError].
  destruct (auditEnabled (options input) && logger_adapter (adapters input))%bool;
    [apply keeps_log | apply keeps_ret].
Qed.

Lemma keeps_stepExecuteHandler (ctx : TContext) :
  keeps proj (executeHandler input ctx) ->
  keeps proj (stepExecuteHandler timeoutMessage input ctx).
Proof.
  intros Hexec. unfold stepExecuteHandler.
  assert (Hretry : keeps proj
            match opt_retry (options input) with
            | Some retry =>
                withRetry (executeHandler input ctx) retry (logger_adapter (adapters input))
                  (Some (requestId input))
            | None => executeHandler input ctx
            end).
  { destruct (opt_retry (options input)); [|exact Hexec].
    unfold withRetry. now apply keeps_retryLoop. }
  destruct (truthy _); [now apply keeps_withTimeout | exact Hretry].
Qed.

Lemma keeps_runPipeline :
  (forall ctx, keeps proj (executeHandler input ctx)) ->
  keeps proj (runPipeline timeoutMessage input).
Proof.
  intros Hexec w. unfold runPipeline.
  assert (H12 : keeps proj (stepLogStart input ;; stepAuthentication input)).
  { apply keeps_bind; [apply keeps_stepLogStart | intros _; apply keeps_stepAuthentication]. }
  specialize (H12 w).
  destruct ((stepLogStart input;; stepAuthentication input) w) as [[user|e] w1];
    cbn [snd] in H12; rewrite <- H12.
  2:{ apply keeps_catchBlock. }
  apply keeps_tryCatch; [|intros e; apply keeps_catchBlock].
  unfold tryBlockAfterAuth.
  apply keeps_bind; [apply keeps_stepTenantScoping|]. intros _.
  apply keeps_bind; [apply keeps_stepRateLimiting|]. intros [limited|].
  - apply keeps_onRateLimited.
  - apply keeps_bind; [apply keeps_stepValidateInput|]. intros validatedInput.
    apply keeps_bind; [now apply keeps_stepExecuteHandler|]. intros result.
    apply keeps_stepComplete.
Qed.

End Steps.

Hypothesis proj_store : forall s w, proj (set_store s w) = proj w.

Lemma keeps_saveToCache req response cache cacheAdapter requestId logger :
  keeps proj (saveToCache req response cache cacheAdapter requestId logger).
Proof.
  unfold saveToCache. destruct cache as [c|]; [|apply keeps_ret].
  destruct (cacheAdapter && String.eqb (req_method req) "GET")%bool; [|apply keeps_ret].
  destruct (shouldCacheResponse _ _); [|apply keeps_ret].
  apply keeps_bind; [|intros _; apply keeps_ret].
  unfold setCachedResponse. apply keeps_bind; [|intros _; apply keeps_log].
  intros w. apply proj_store.
Qed.

Section Api.

Variable globalT : ResponseTransformers.
Variable parsers : Parsers.
Variable config : WrapperConfig.
Variable handler : ApiContext -> Script HandlerResult.
Variable wrapperOptions : WrapperOptions.
Variable generatedId : string.
Variable req : Request.
Variable routeParams : Json.

Local Abbreviation input :=
  (apiPipelineInput globalT parsers config handler wrapperOptions generatedId req routeParams).

Lemma api_keeps_getAuthContext : keeps proj (getAuthContext input).
Proof. apply keeps_ret. Qed.

Lemma api_keeps_getRawInput : keeps proj (getRawInput input).
Proof.
  cbn [getRawInput apiPipelineInput]. apply keeps_bind; [|intros body; apply keeps_ret].
  destruct (negb _ && negb _)%bool; [apply keeps_lift | apply keeps_ret].
Qed.

Lemma api_keeps_onRateLimited (result : RateLimitResult) :
  keeps proj (onRateLimited input result).
Proof.
  cbn [onRateLimited apiPipelineInput]. unfold ApiResultHandlers.onRateLimited.
  apply keeps_bind; [apply keeps_Date_now|]. intros t.
  apply keeps_bind; [apply keeps_lift | intros response; apply keeps_ret].
Qed.

Lemma api_keeps_onSuccess (result : Response) (meta : PipelineMeta) :
  keeps proj (onSuccess input result meta).
Proof. cbn [onSuccess apiPipelineInput]. apply keeps_saveToCache. Qed.

Lemma api_keeps_onError (error : Thrown) (meta : PipelineMeta) :
  keeps proj (onError input error meta).
Proof.
  cbn [onError apiPipelineInput]. unfold ApiResultHandlers.onError.
  destruct error;
    repeat (apply keeps_bind; [first [apply keeps_log | apply keeps_lift] | intros]);
    apply keeps_ret.
Qed.

End Api.

Section Action.

Variable config : WrapperConfig.
Variable configGetAuthContext : option (Outcome AuthRequestContext).
Variable handler : ActionContext -> Script Json.
Variable handlerName : string.
Variable actionOptions : PipelineOptions.
Variable generatedId : string.
Variable body : Json.

Local Abbreviation input :=
  (actionPipelineInput config configGetAuthContext handler handlerName actionOptions
     generatedId body).

Lemma action_keeps_getAuthContext : keeps proj (getAuthContext input).
Proof.
  cbn [getAuthContext actionPipelineInput].
  destruct configGetAuthContext; [apply keeps_lift | apply keeps_throw].
Qed.

Lemma action_keeps_onError (error : Thrown) (meta : PipelineMeta) :
  keeps proj (onError input error meta).
Proof.
  cbn [onError actionPipelineInput]. unfold ActionResultHandlers.onError.
  destruct error; try apply keeps_throw;
    (apply keeps_bind; [apply keeps_log | intros _; apply keeps_throw]).
Qed.

End Action.

End Keeps.

Lemma keeps_invoke {X A} (proj : World -> X) (f : Script A) :
  (forall t w, proj (set_now t w) = proj w) ->
  (forall w, proj (add_handlerCall w) = proj w) ->
  keeps proj (invoke f).
Proof.
  intros Hnow Hcall w. unfold invoke. destruct (f (handlerCalls w)) as [d r]. cbn [snd].
  now rewrite Hnow, Hcall.
Qed.

(** What the pipeline of a route leaves untouched, for an observation
    that looks at none of the clock, the logs, the sleeps, the handler
    calls and the response cache. *)
Lemma api_keeps_pipeline {X} (proj : World -> X) (timeoutMessage : string)
    (globalT : ResponseTransformers) (parsers : Parsers) (config : WrapperConfig)
    (handler : ApiContext -> Script HandlerResult) (wrapperOptions : WrapperOptions)
    (generatedId : string) (req : Request) (routeParams : Json) :
  (forall c w, proj (add_log c w) = proj w) ->
  (forall t w, proj (set_now t w) = proj w) ->
  (forall d w, proj (add_sleep d w) = proj w) ->
  (forall w, proj (add_handlerCall w) = proj w) ->
  (forall s w, proj (set_store s w) = proj w) ->
  opt_auth (wo_pipeline wrapperOptions) = None \/ (forall w, proj (add_verifyCall w) = proj w) ->
  opt_rateLimit (wo_pipeline wrapperOptions) = RateLimitDisabled \/
  cache_adapter (cfg_adapters config) = false \/
  (forall c w, proj (set_counters c w) = proj w) ->
  keeps proj
    (apiWrapper timeoutMessage globalT parsers config handler wrapperOptions generatedId req
       routeParams).
Proof.
  intros Hlog Hnow Hsleep Hcall Hstore Hauth Hrate. unfold apiWrapper.
  apply keeps_bind; [now apply keeps_checkCache|]. intros [hit|]; [apply keeps_ret|].
  apply keeps_runPipeline; try assumption.
  - apply api_keeps_getAuthContext.
  - apply api_keeps_getRawInput.
  - apply api_keeps_onRateLimited.
  - intros result meta. now apply api_keeps_onSuccess.
  - intros error meta. now apply api_keeps_onError.
  - intros ctx. cbn [executeHandler apiPipelineInput].
    apply keeps_bind; [now apply keeps_invoke|]. intros [r|v]; apply keeps_ret.
Qed.

(** X15: a route that asks for no authentication ([auth] left out)
    never calls [verify] of the auth adapter, whatever else it is
    configured with and however the request ends. *)
Theorem public_route_never_verifies (timeoutMessage : string) (globalT : ResponseTransformers)
    (parsers : Parsers) (config : WrapperConfig) (handler : ApiContext -> Script HandlerResult)
    (wrapperOptions : WrapperOptions) (generatedId : string) (req : Request)
    (routeParams : Json) (w : World) :
  opt_auth (wo_pipeline wrapperOptions) = None ->
  verifyCalls
    (snd (apiWrapper timeoutMessage globalT parsers config handler wrapperOptions generatedId
            req routeParams w))
  = verifyCalls w.
Proof.
  intros Hauth.
  apply (api_keeps_pipeline verifyCalls); try reflexivity; [now left | now right; right].
Qed.

Lemma public_route_never_verifies_witness :
  verifyCalls (snd (Scenarios.publicRoute "gen-1" Scenarios.getTest (JObj []) Scenarios.world0))
  = verifyCalls Scenarios.world0.
Proof.
  apply (public_route_never_verifies "Request timeout"). reflexivity.
Defined.

(** X16: with [rateLimit: false], or with no cache adapter, a route
    increments no rate-limit counter: the counters of the adapter are
    after the request what they were before. *)
Theorem disabled_rate_limit_counts_nothing (timeoutMessage : string)
    (globalT : ResponseTransformers) (parsers : Parsers) (config : WrapperConfig)
    (handler : ApiContext -> Script HandlerResult) (wrapperOptions : WrapperOptions)
    (generatedId : string) (req : Request) (routeParams : Json) (w : World) :
  opt_rateLimit (wo_pipeline wrapperOptions) = RateLimitDisabled \/
  cache_adapter (cfg_adapters config) = false ->
  counters
    (snd (apiWrapper timeoutMessage globalT parsers config handler wrapperOptions generatedId
            req routeParams w))
  = counters w.
Proof.
  intros Hoff.
  apply (api_keeps_pipeline counters); try reflexivity; [now right | tauto].
Qed.

Lemma disabled_rate_limit_counts_nothing_witness :
  counters (snd (Scenarios.failingRoute "gen-1" Scenarios.getTest (JObj []) Scenarios.world0))
  = counters Scenarios.world0.
Proof.
  apply (disabled_rate_limit_counts_nothing "Request timeout"). right. reflexivity.
Defined.

(** ** How often the handler runs *)

Lemma atMost_keeps {A} (m : M A) : keeps handlerCalls m -> callsAtMost 0 m.
Proof. intros H w. rewrite H. lia. Qed.

Lemma atMost_weaken {A} (n n' : nat) (m : M A) :
  (n <= n')%nat -> callsAtMost n m -> callsAtMost n' m.
Proof. intros Hle H w. specialize (H w). lia. Qed.

Lemma atMost_bind {A B} (a b : nat) (m : M A) (k : A -> M B) :
  callsAtMost a m -> (forall x, callsAtMost b (k x)) -> callsAtMost (a + b) (bind m k).
Proof.
  intros Hm Hk w. unfold bind. specialize (Hm w).
  destruct (m w) as [[x|e] w1]; cbn [snd] in *; [|lia].
  specialize (Hk x w1). lia.
Qed.

Lemma atMost_tryCatch {A} (a b : nat) (m : M A) (h : Thrown -> M A) :
  callsAtMost a m -> (forall e, callsAtMost b (h e)) -> callsAtMost (a + b) (tryCatch m h).
Proof.
  intros Hm Hh w. unfold tryCatch. specialize (Hm w).
  destruct (m w) as [[x|e] w1]; cbn [snd] in *; [lia|].
  specialize (Hh e w1). lia.
Qed.

Lemma atMost_invoke {A} (f : Script A) : callsAtMost 1 (invoke f).
Proof.
  intros w. unfold invoke. destruct (f (handlerCalls w)) as [d r]. cbn. lia.
Qed.

Lemma atMost_retryLoop {A} (fn : M A) config logger requestId :
  callsAtMost 1 fn ->
  forall remaining attempt lastError,
    callsAtMost remaining (retryLoop fn config logger requestId remaining attempt lastError).
Proof.
  intros Hfn. induction remaining as [|remaining IH]; intros attempt lastError.
  - intros w. cbn. lia.
  - cbn [retryLoop]. apply (atMost_tryCatch 1 remaining); [exact Hfn|]. intros e.
    destruct (negb (shouldRetryThis config e attempt) || (attempt =? attempts config))%bool.
    + intros w. cbn. lia.
    + apply (atMost_bind 0 remaining); [apply atMost_keeps, keeps_log; reflexivity|].
      intros _. apply (atMost_bind 0 remaining); [|intros _; apply IH].
      apply atMost_keeps, keeps_sleep; reflexivity.
Qed.

Lemma atMost_withTimeout {A} (timeoutMessage : string) (n : nat) (m : M A) (ms : Z) :
  callsAtMost n m -> callsAtMost n (withTimeout timeoutMessage m ms).
Proof.
  intros Hm w. unfold withTimeout. specialize (Hm w).
  destruct (m w) as [r w1]. cbn [snd] in Hm.
  destruct (now w1 - now w <=? Z.max 0 ms); cbn; exact Hm.
Qed.

Section AtMost.

Variable timeoutMessage : string.
Context {TContext TResult : Type}.
Variable input : PipelineInput TContext TResult.

Hypothesis keeps_getAuthContext : keeps handlerCalls (getAuthContext input).
Hypothesis keeps_getRawInput : keeps handlerCalls (getRawInput input).
Hypothesis keeps_onRateLimited : forall result, keeps handlerCalls (onRateLimited input result).
Hypothesis keeps_onSuccess :
  forall result meta, keeps handlerCalls (onSuccess input result meta).
Hypothesis keeps_onError : forall error meta, keeps handlerCalls (onError input error meta).
Hypothesis executeHandler_once : forall ctx, callsAtMost 1 (executeHandler input ctx).

Lemma atMost_stepExecuteHandler (ctx : TContext) :
  callsAtMost
    match opt_retry (options input) with
    | Some retry => Z.to_nat (attempts retry)
    | None => 1%nat
    end
    (stepExecuteHandler timeoutMessage input ctx).
Proof.
  unfold stepExecuteHandler.
  assert (Hretry : callsAtMost
            match opt_retry (options input) with
            | Some retry => Z.to_nat (attempts retry)
            | None => 1%nat
            end
            match opt_retry (options input) with
            | Some retry =>
                withRetry (executeHandler input ctx) retry (logger_adapter (adapters input))
                  (Some (requestId input))
            | None => executeHandler input ctx
            end).
  { destruct (opt_retry (options input)); [|apply executeHandler_once].
    unfold withRetry. apply atMost_retryLoop, executeHandler_once. }
  destruct (truthy _); [now apply atMost_withTimeout | exact Hretry].
Qed.

Lemma atMost_catchBlock (startTime : Z) (user : BaseUser) (error : Thrown) :
  callsAtMost 0 (catchBlock input startTime user error).
Proof.
  apply atMost_keeps, keeps_catchBlock; try reflexivity. exact keeps_onError.
Qed.

Lemma atMost_runPipeline :
  callsAtMost
    match opt_retry (options input) with
    | Some retry => Z.to_nat (attempts retry)
    | None => 1%nat
    end
    (runPipeline timeoutMessage input).
Proof.
  set (N := match opt_retry (options input) with
            | Some retry => Z.to_nat (attempts retry)
            | None => 1%nat
            end).
  intros w. unfold runPipeline.
  assert (H12 : keeps handlerCalls (stepLogStart input ;; stepAuthentication input)).
  { apply keeps_bind; [apply keeps_stepLogStart; reflexivity|]. intros _.
    apply keeps_stepAuthentication; [exact keeps_getAuthContext | now right]. }
  specialize (H12 w).
  destruct ((stepLogStart input;; stepAuthentication input) w) as [[user|e] w1];
    cbn [snd] in H12; rewrite <- H12.
  2:{ pose proof (atMost_catchBlock (now w) ANONYMOUS_USER e w1). lia. }
  assert (Htry : callsAtMost N (tryBlockAfterAuth timeoutMessage input (now w) user)).
  { unfold tryBlockAfterAuth.
    apply (atMost_bind 0 N);
      [apply atMost_keeps, keeps_stepTenantScoping; exact keeps_getAuthContext|].
    intros _. apply (atMost_bind 0 N).
    { apply atMost_keeps, keeps_stepRateLimiting. now right; right. }
    intros [limited|].
    - apply (atMost_weaken 0); [lia|]. apply atMost_keeps, keeps_onRateLimited.
    - apply (atMost_bind 0 N);
        [apply atMost_keeps, keeps_stepValidateInput; exact keeps_getRawInput|].
      intros validatedInput.
      apply (atMost_weaken (N + 0)); [lia|].
      apply (atMost_bind N 0); [apply atMost_stepExecuteHandler|]. intros result.
      apply atMost_keeps, keeps_stepComplete; try reflexivity. exact keeps_onSuccess. }
  pose proof (atMost_tryCatch N 0 _ _ Htry (atMost_catchBlock (now w) user) w1). lia.
Qed.

End AtMost.

(** X17: one request to a route without middleware, or to a server
    action, invokes the business handler at most once, and with a
    retry policy at most [attempts] times, whatever the handler answers
    and whatever the other options are. *)
Theorem handler_runs_at_most_attempts_times (timeoutMessage : string)
    (config : WrapperConfig) (options : PipelineOptions) (w : World) :
  let bound :=
    match opt_retry options with
    | Some retry => Z.to_nat (attempts retry)
    | None => 1%nat
    end in
  (forall (globalT : ResponseTransformers) (parsers : Parsers)
          (handler : ApiContext -> Script HandlerResult) (cache : option CacheConfig)
          (generatedId : string) (req : Request) (routeParams : Json),
      (handlerCalls
         (snd (apiWrapper timeoutMessage globalT parsers config handler
                 {| wo_pipeline := options; wo_cache := cache |} generatedId req routeParams w))
       <= handlerCalls w + bound)%nat) /\
  (forall (configGetAuthContext : option (Outcome AuthRequestContext))
          (handler : ActionContext -> Script Json) (handlerName generatedId : string)
          (input : Json),
      (handlerCalls
         (snd (actionWrapper timeoutMessage config configGetAuthContext handler handlerName
                 options generatedId input w))
       <= handlerCalls w + bound)%nat).
Proof.
  cbv zeta. split.
  - intros globalT parsers handler cache generatedId req routeParams.
    unfold apiWrapper.
    pose proof (keeps_checkCache handlerCalls (fun _ _ => eq_refl) req cache
                  (cache_adapter (cfg_adapters config))
                  (or_string (Headers_get "x-request-id" (req_headers req)) generatedId)
                  (logger_adapter (cfg_adapters config)) w) as Hcheck.
    unfold bind. cbn [wo_cache].
    destruct (checkCache req cache _ _ _ w) as [[[hit|]|e] w1]; cbn [snd] in Hcheck |- *;
      rewrite <- Hcheck; try (unfold ret; cbn [snd]; lia).
    apply (atMost_runPipeline timeoutMessage
             (apiPipelineInput globalT parsers config handler
                {| wo_pipeline := options; wo_cache := cache |} generatedId req routeParams)).
    + apply api_keeps_getAuthContext.
    + apply api_keeps_getRawInput.
    + apply api_keeps_onRateLimited.
    + intros result meta. apply api_keeps_onSuccess; reflexivity.
    + intros error meta. apply api_keeps_onError; reflexivity.
    + intros ctx. cbn [executeHandler apiPipelineInput].
      apply (atMost_weaken (1 + 0)); [lia|].
      apply (atMost_bind 1 0); [apply atMost_invoke|].
      intros [r|v]; apply atMost_keeps, keeps_ret.
  - intros configGetAuthContext handler handlerName generatedId input.
    unfold actionWrapper.
    apply (atMost_runPipeline timeoutMessage
             (actionPipelineInput config configGetAuthContext handler handlerName options
                generatedId input)).
    + apply action_keeps_getAuthContext.
    + apply keeps_ret.
    + intros result. apply keeps_throw.
    + intros result meta. apply keeps_ret.
    + intros error meta. apply action_keeps_onError; reflexivity.
    + intros ctx. apply atMost_invoke.
Qed.

(** ** Audit switched off *)

Section AuditOff.

Variable timeoutMessage : string.
Context {TContext TResult : Type}.
Variable input : PipelineInput TContext TResult.

Hypothesis auditOff :
  (auditEnabled (options input) && logger_adapter (adapters input))%bool = false.
Hypothesis quiet_getAuthContext : emitsNoAudit (getAuthContext input).
Hypothesis quiet_getRawInput : emitsNoAudit (getRawInput input).
Hypothesis quiet_executeHandler : forall ctx, emitsNoAudit (executeHandler input ctx).
Hypothesis quiet_onRateLimited : forall result, emitsNoAudit (onRateLimited input result).
Hypothesis quiet_onSuccess : forall result meta, emitsNoAudit (onSuccess input result meta).
Hypothesis quiet_onError : forall error meta, emitsNoAudit (onError input error meta).

Lemma quiet_Date_now : emitsNoAudit Date_now.
Proof. intros w. apply quietFrom_refl. Qed.

Lemma quiet_catchBlock_off (startTime : Z) (user : BaseUser) (error : Thrown) :
  emitsNoAudit (catchBlock input startTime user error).
Proof.
  unfold catchBlock. rewrite auditOff.
  apply quiet_bind; [apply quiet_Date_now|]. intros t.
  apply quiet_bind; [now apply quiet_log|]. intros _.
  apply quiet_bind; [apply quiet_ret|]. intros _. apply quiet_onError.
Qed.

Lemma quiet_stepComplete_off (startTime : Z) (user : BaseUser) (result : TResult) :
  emitsNoAudit (stepComplete input startTime user result).
Proof.
  unfold stepComplete. rewrite auditOff.
  apply quiet_bind; [apply quiet_Date_now|]. intros t.
  apply quiet_bind; [now apply quiet_log|]. intros _.
  apply quiet_bind; [apply quiet_ret|]. intros _. apply quiet_onSuccess.
Qed.

Lemma quiet_runPipeline_off : emitsNoAudit (runPipeline timeoutMessage input).
Proof.
  intros w. unfold runPipeline.
  assert (H12 : emitsNoAudit (stepLogStart input ;; stepAuthentication input)).
  { apply quiet_bind; [apply quiet_stepLogStart|]. intros _.
    now apply quiet_stepAuthentication. }
  specialize (H12 w).
  destruct ((stepLogStart input;; stepAuthentication input) w) as [[user|e] w1];
    cbn [snd] in H12; (eapply quietFrom_trans; [exact H12|]).
  2:{ apply quiet_catchBlock_off. }
  apply quiet_tryCatch; [|intros e; apply quiet_catchBlock_off].
  unfold tryBlockAfterAuth.
  apply quiet_bind; [now apply quiet_stepTenantScoping|]. intros _.
  apply quiet_bind; [apply quiet_stepRateLimiting|]. intros [limited|].
  - apply quiet_onRateLimited.
  - apply quiet_bind; [now apply quiet_stepValidateInput|]. intros validatedInput.
    apply quiet_bind; [now apply quiet_stepExecuteHandler|]. intros result.
    apply quiet_stepComplete_off.
Qed.

End AuditOff.

Lemma quiet_checkCache req cache cacheAdapter requestId logger :
  emitsNoAudit (checkCache req cache cacheAdapter requestId logger).
Proof.
  unfold checkCache. destruct cache as [c|]; [|apply quiet_ret].
  destruct (cacheAdapter && String.eqb (req_method req) "GET")%bool; [|apply quiet_ret].
  unfold getCachedResponse. apply quiet_bind; [intros w; apply quietFrom_refl|].
  intros [cached|]; [|apply quiet_ret].
  apply quiet_bind; [now apply quiet_log|]. intros _.
  apply quiet_bind; [apply quiet_lift | intros response; apply quiet_ret].
Qed.

(** X18: with [audit: false], or with no logger adapter, a request
    leaves no audit record, however it ends: served from the cache,
    answered by the handler, rejected or failed. *)
Theorem audit_off_leaves_no_record (timeoutMessage : string) (globalT : ResponseTransformers)
    (parsers : Parsers) (config : WrapperConfig) (handler : ApiContext -> Script HandlerResult)
    (wrapperOptions : WrapperOptions) (generatedId : string) (req : Request)
    (routeParams : Json) (w : World) :
  opt_audit (wo_pipeline wrapperOptions) = Some false \/
  logger_adapter (cfg_adapters config) = false ->
  auditsOf
    (newLogs w
       (snd (apiWrapper timeoutMessage globalT parsers config handler wrapperOptions
               generatedId req routeParams w)))
  = [].
Proof.
  intros Hoff. apply quietFrom_audits.
  assert (H : emitsNoAudit
                (apiWrapper timeoutMessage globalT parsers config handler wrapperOptions
                   generatedId req routeParams)); [|apply H].
  unfold apiWrapper. apply quiet_bind; [apply quiet_checkCache|].
  intros [hit|]; [apply quiet_ret|].
  apply quiet_runPipeline_off.
  - cbn [options adapters apiPipelineInput]. unfold auditEnabled.
    destruct Hoff as [-> | ->]; [reflexivity | apply andb_false_r].
  - apply api_quiet_getAuthContext.
  - apply api_quiet_getRawInput.
  - apply api_quiet_executeHandler.
  - apply api_quiet_onRateLimited.
  - apply api_quiet_onSuccess.
  - apply api_quiet_onError.
Qed.

Lemma audit_off_leaves_no_record_witness :
  auditsOf
    (newLogs Scenarios.world0
       (snd (Scenarios.publicRoute "gen-1" Scenarios.getTest (JObj []) Scenarios.world0)))
  = [].
Proof.
  apply (audit_off_leaves_no_record "Request timeout"). right. reflexivity.
Defined.

(** ** Tenant scoping *)

(** X19: on a tenant-scoped route, a user that [verify] answered and
    the role check admitted, but for whom [isTenantValid] answers
    [false], gets the 403 response with the message 'Tenant context
    required'.  The check comes before rate limiting and the handler:
    no counter is incremented, the handler is not invoked, nothing is
    cached; and the audit record of the request, when one is written,
    names that user, not the anonymous one. *)
Theorem tenant_rejection_is_forbidden (timeoutMessage : string)
    (globalT : ResponseTransformers) (parsers : Parsers) (config : WrapperConfig)
    (handler : ApiContext -> Script HandlerResult) (wrapperOptions : WrapperOptions)
    (generatedId : string) (req : Request) (routeParams : Json) (w : World)
    (roles : list string) (adapter : AuthAdapter) (user : BaseUser)
    (check : BaseUser -> AuthRequestContext -> Outcome bool) :
  opt_auth (wo_pipeline wrapperOptions) = Some roles ->
  auth_adapter (cfg_adapters config) = Some adapter ->
  verify adapter (buildAuthContext parsers req) = Ok (Some user) ->
  roles = [] \/ hasRole adapter user roles = Ok true ->
  opt_tenantScoped (wo_pipeline wrapperOptions) = Some true ->
  isTenantValid adapter = Some check ->
  check user (buildAuthContext parsers req) = Ok false ->
  exists response w',
    runPipeline timeoutMessage
      (apiPipelineInput globalT parsers config handler wrapperOptions generatedId req
         routeParams) w = (Ok response, w') /\
    resp_status response = 403 /\
    resp_body response =
      pick_error (cfg_transformers config) globalT "Tenant context required" "FORBIDDEN" 403
        None /\
    counters w' = counters w /\ handlerCalls w' = handlerCalls w /\ store w' = store w /\
    (forall a, In a (auditsOf (newLogs w w')) ->
               audit_user a = user /\ audit_status a = 403 /\ audit_success a = false /\
               audit_errorCode a = Some "FORBIDDEN"%string).
Proof.
  intros Hauth Hadapter Hverify Hrole Htenant Hcheck Hanswer.
  set (pin := apiPipelineInput globalT parsers config handler wrapperOptions generatedId req
                routeParams).
  set (w1 := add_verifyCall (snd (stepLogStart pin w))).
  assert (H12 : (stepLogStart pin ;; stepAuthentication pin) w = (Ok user, w1)).
  { rewrite steps_1_2. unfold stepAuthentication.
    cbn [pin options adapters getAuthContext apiPipelineInput].
    rewrite Hauth, Hadapter. unfold bind at 1. unfold ret at 1. unfold bind at 1.
    unfold callVerify. rewrite Hverify.
    destruct Hrole as [-> | Hrole]; [reflexivity|].
    destruct (0 <? length roles)%nat; [|reflexivity].
    unfold bind, lift. now rewrite Hrole. }
  assert (Hten : stepTenantScoping pin user w1 =
                 (Throw (ThrownApiError
                           (ApiResponse.forbidden (Some "Tenant context required"%string))), w1)).
  { unfold stepTenantScoping. cbn [pin options adapters getAuthContext apiPipelineInput].
    rewrite Htenant, Hadapter. cbn [default from_option id].
    destruct adapter as [v h t]. cbn [isTenantValid] in Hcheck. subst t.
    unfold bind at 1. unfold ret at 1. unfold bind, lift. now rewrite Hanswer. }
  unfold runPipeline. rewrite H12. unfold tryCatch, tryBlockAfterAuth.
  unfold bind at 1. rewrite Hten.
  unfold catchBlock, bind, Date_now, log.
  cbn [pin onError options adapters apiPipelineInput errorStatus errorCode
       ApiResponse.forbidden err_status err_code ApiResultHandlers.onError].
  unfold ret.
  assert (Hlogs1 : exists l1, logs w1 = logs w ++ l1 /\ auditsOf l1 = []).
  { subst w1. unfold stepLogStart, log.
    destruct (logger_adapter (adapters pin)); cbn [snd logs add_verifyCall add_log].
    - eexists. split; [reflexivity | reflexivity].
    - exists []. now rewrite app_nil_r. }
  destruct Hlogs1 as (l1 & Hlogs1 & Haud1).
  assert (Hframe : counters w1 = counters w /\ handlerCalls w1 = handlerCalls w /\
                   store w1 = store w).
  { subst w1. unfold stepLogStart, log. destruct (logger_adapter (adapters pin)); now cbn. }
  destruct Hframe as (Hc & Hh & Hs).
  destruct (logger_adapter (cfg_adapters config)) eqn:Elogger;
    destruct (auditEnabled (wo_pipeline wrapperOptions)) eqn:Eaudit; cbn [andb];
    eexists; eexists; (split; [reflexivity|]);
    (split; [reflexivity|]); (split; [reflexivity|]);
    cbn [counters handlerCalls store add_log];
    (split; [exact Hc|]); (split; [exact Hh|]); (split; [exact Hs|]);
    intros a Ha.
  - erewrite newLogs_app in Ha
      by (cbn [logs add_log]; rewrite Hlogs1, <- !app_assoc; reflexivity).
    rewrite !auditsOf_app, Haud1 in Ha. cbn in Ha. destruct Ha as [<- | []].
    cbn. repeat split.
  - erewrite newLogs_app in Ha
      by (cbn [logs add_log]; rewrite Hlogs1, <- !app_assoc; reflexivity).
    rewrite !auditsOf_app, Haud1 in Ha. cbn in Ha. destruct Ha.
  - erewrite newLogs_app in Ha by (rewrite Hlogs1; reflexivity).
    rewrite Haud1 in Ha. destruct Ha.
  - erewrite newLogs_app in Ha by (rewrite Hlogs1; reflexivity).
    rewrite Haud1 in Ha. destruct Ha.
Qed.

Lemma tenant_rejection_is_forbidden_witness :
  exists response w',
    runPipeline "Request timeout" MoreScenarios.tenantInput Scenarios.world0
    = (Ok response, w') /\
    resp_status response = 403 /\
    counters w' = counters Scenarios.world0.
Proof.
  destruct (tenant_rejection_is_forbidden "Request timeout" defaultTransformers
              Scenarios.plainParsers
              (Scenarios.adaptersOf (Some MoreScenarios.tenantAdapter) true true)
              Scenarios.okHandler MoreScenarios.tenantScopedOptions "gen-1" Scenarios.getTest
              (JObj []) Scenarios.world0 [] MoreScenarios.tenantAdapter Scenarios.user1
              (fun _ _ => Ok false) eq_refl eq_refl eq_refl (or_introl eq_refl) eq_refl eq_refl
              eq_refl)
    as (response & w' & Hrun & Hstatus & _ & Hcounters & _).
  exists response, w'. split; [exact Hrun|]. split; [exact Hstatus | exact Hcounters].
Defined.

(** ** The request id of a cached response *)

(** X20: a response served from the cache carries two request ids.
    The envelope stored for the first response keeps its headers under
    their lower-cased names, [x-request-id] among them; the hit adds
    [X-Request-ID] as a second key, so the header of the hit reads the
    id of the request that filled the cache, a comma, and its own. *)
Theorem cache_hit_joins_request_ids (globalT : ResponseTransformers)
    (transformers : option ResponseTransformers) (value : Json) (req : Request)
    (config : CacheConfig) (firstId laterId : string) (logger : bool) (w : World) :
  req_method req = "GET"%string ->
  exists built,
    ApiResponse_success globalT value 200 transformers = Ok built /\
    let first := ApiResultHandlers.onSuccess built firstId in
    let w1 := snd (saveToCache req first (Some config) true firstId logger w) in
    exists hit w2,
      checkCache req (Some config) true laterId logger w1 = (Ok (Some hit), w2) /\
      Headers_get "X-Request-ID" (resp_headers hit) = Some (firstId +:+ ", " +:+ laterId).
Proof.
  intros Hget. eexists. split; [reflexivity|]. cbv zeta.
  match goal with
  | |- context [saveToCache req ?f] => set (first := f)
  end.
  destruct (setCachedResponse_stores (getCacheKey req config) first (ttlMs config)
              firstId logger w) as (w' & Hrun & Hstore & _).
  assert (Hsave : saveToCache req first (Some config) true firstId logger w
                  = (Ok (Response_set_header "X-Cache" "MISS" first), w')).
  { unfold saveToCache. rewrite Hget. cbn [andb String.eqb Ascii.eqb Bool.eqb].
    assert (Hq : shouldCacheResponse first
                   (match successOnly config with Some false => false | _ => true end) = true).
    { unfold shouldCacheResponse. destruct (successOnly config) as [[|]|]; reflexivity. }
    rewrite Hq. unfold bind at 1. rewrite Hrun. reflexivity. }
  rewrite Hsave. cbn [snd].
  unfold checkCache. rewrite Hget. cbn [andb String.eqb Ascii.eqb Bool.eqb].
  unfold getCachedResponse, bind, cache_get. rewrite Hstore, lookup_insert_eq.
  unfold log, ret, lift. eexists. eexists. split; [reflexivity|].
  reflexivity.
Qed.

Lemma cache_hit_joins_request_ids_witness :
  exists built,
    ApiResponse_success defaultTransformers Scenarios.okBody 200 None = Ok built /\
    exists hit w2,
      checkCache Scenarios.getTest
        (Some {| ttlMs := 60000; keyGenerator := None; successOnly := None |}) true "gen-2" true
        (snd (saveToCache Scenarios.getTest (ApiResultHandlers.onSuccess built "gen-1")
                (Some {| ttlMs := 60000; keyGenerator := None; successOnly := None |})
                true "gen-1" true Scenarios.world0))
      = (Ok (Some hit), w2) /\
      Headers_get "X-Request-ID" (resp_headers hit) = Some "gen-1, gen-2"%string.
Proof.
  apply (cache_hit_joins_request_ids defaultTransformers None Scenarios.okBody
           Scenarios.getTest {| ttlMs := 60000; keyGenerator := None; successOnly := None |}
           "gen-1" "gen-2" true Scenarios.world0).
  reflexivity.
Defined.

(** ** error.ts and the response modules *)

(** X21: [toResponse] of an [ApiError] is the response the wrappers
    build for it when no transformer is customised: same body, same
    status, same headers. *)
Theorem toResponse_is_default_error_response (e : ApiError) :
  ApiError_toResponse e = createErrorResponse defaultTransformers e None.
Proof.
  unfold ApiError_toResponse, ApiError_toJSON, createErrorResponse, pick_error.
  cbn [defaultTransformers tr_error default from_option id]. unfold default_error.
  destruct (err_errors e) as [[|d ds]|]; reflexivity.
Qed.

(** X22: the error constructors of the class-based [ApiResponse]
    (response/base.ts with [wrapError] of response/api.ts) build the
    same [ApiError]s as the static ones of response.ts for the six
    named failures; the generic [error] agrees for every code but the
    empty string, which the static one replaces by BAD_REQUEST and the
    class-based one keeps. *)
Theorem response_modules_agree :
  (forall m, BaseResponse.badRequest ApiResponseClass_wrapError m = ApiResponse.badRequest m) /\
  (forall m, BaseResponse.unauthorized ApiResponseClass_wrapError m
             = ApiResponse.unauthorized m) /\
  (forall m, BaseResponse.forbidden ApiResponseClass_wrapError m = ApiResponse.forbidden m) /\
  (forall m, BaseResponse.notFound ApiResponseClass_wrapError m = ApiResponse.notFound m) /\
  (forall m, BaseResponse.tooManyRequests ApiResponseClass_wrapError m
             = ApiResponse.tooManyRequests m) /\
  (forall m, BaseResponse.internalError ApiResponseClass_wrapError m
             = ApiResponse.internalError m) /\
  (forall message status code,
      BaseResponse.error ApiResponseClass_wrapError message status code None
      = ApiResponse.error message status code
      <-> code <> Some EmptyString).
Proof.
  repeat (split; [reflexivity|]).
  intros message status code. unfold BaseResponse.error, ApiResponse.error,
    ApiResponseClass_wrapError. cbn [info_message info_status info_code info_errors].
  destruct code as [c|]; [|split; [discriminate | reflexivity]].
  cbn [default from_option id].
  destruct (String.eqb_spec c EmptyString) as [->|Hc].
  - split; [discriminate | congruence].
  - split; [congruence | reflexivity].
Qed.

(** ** utils/redact.ts *)

Lemma Json_nested_ind (P : Json -> Prop) :
  P JUndefined -> P JNull -> (forall b, P (JBool b)) -> (forall n, P (JNum n)) ->
  (forall s, P (JStr s)) ->
  (forall items, Forall P items -> P (JArr items)) ->
  (forall fields, Forall (fun kv : string * Json => P (snd kv)) fields -> P (JObj fields)) ->
  forall j, P j.
Proof.
  intros HU HN HB HNum HS HA HO. fix IH 1.
  intros [| |b|n|s|items|fields];
    [exact HU | exact HN | apply HB | apply HNum | apply HS | |].
  - apply HA. revert items. fix IHl 1. intros [|x xs]; constructor; [apply IH | apply IHl].
  - apply HO. revert fields. fix IHl 1.
    intros [|[k v] fs]; constructor; [apply IH | apply IHl].
Qed.

Section RedactProperties.

Variable toLowerCase : string -> string.

Hypothesis toLowerCase_ascii :
  forall s : string, isAscii s = true -> toLowerCase s = lower s.


Lemma redact_JObj (af : list string) (fields : list (string * Json)) :
  redact toLowerCase af (JObj fields) =
  JObj (flat_map (fun kv : string * Json =>
                    if String.eqb (fst kv) "__proto__" then []
                    else [(fst kv, if isSensitiveKey toLowerCase af (fst kv) then JStr REDACTED
                                   else redact toLowerCase af (snd kv))]) fields).
Proof.
  cbn [redact]. f_equal. apply flat_map_ext. intros [k v]. cbn [fst snd].
  destruct (String.eqb k "__proto__"); [reflexivity|].
  destruct (isSensitiveKey toLowerCase af k); [reflexivity|]. destruct v; reflexivity.
Qed.

Lemma isClean_JObj (af : list string) (fields : list (string * Json)) :
  isClean toLowerCase af (JObj fields) =
  forallb (fun kv : string * Json =>
             if isSensitiveKey toLowerCase af (fst kv)
             then match snd kv with JStr s => String.eqb s REDACTED | _ => false end
             else isClean toLowerCase af (snd kv)) fields.
Proof.
  cbn [isClean]. induction fields as [|[k v] fs IH]; [reflexivity|].
  cbn [forallb fst snd]. now rewrite IH.
Qed.

Lemma hasSensitiveKey_JObj (af : list string) (fields : list (string * Json)) :
  hasSensitiveKey toLowerCase af (JObj fields) =
  existsb (fun kv : string * Json =>
             (isSensitiveKey toLowerCase af (fst kv) || hasSensitiveKey toLowerCase af (snd kv))%bool) fields.
Proof.
  cbn [hasSensitiveKey]. induction fields as [|[k v] fs IH]; [reflexivity|].
  cbn [existsb fst snd]. now rewrite IH.
Qed.

Lemma hasProtoKey_JObj (fields : list (string * Json)) :
  hasProtoKey (JObj fields) =
  existsb (fun kv : string * Json =>
             (String.eqb (fst kv) "__proto__" || hasProtoKey (snd kv))%bool) fields.
Proof.
  cbn [hasProtoKey]. induction fields as [|[k v] fs IH]; [reflexivity|].
  cbn [existsb fst snd]. now rewrite IH.
Qed.

(** X23: after [redact], no sensitive key is left with its value: at
    every depth, the value under a key that matches reads [REDACTED]. *)
Theorem redact_leaves_nothing_sensitive (additionalFields : list string) (obj : Json) :
  isClean toLowerCase additionalFields (redact toLowerCase additionalFields obj) = true.
Proof.
  induction obj as [| |b|n|s|items IH|fields IH] using Json_nested_ind; try reflexivity.
  - cbn [redact isClean]. induction IH as [|x xs Hx _ IHxs]; [reflexivity|].
    cbn [map forallb]. now rewrite Hx, IHxs.
  - rewrite redact_JObj, isClean_JObj.
    induction IH as [|[k v] fs Hv _ IHfs]; [reflexivity|].
    cbn [flat_map fst snd] in *. rewrite forallb_app, IHfs, andb_true_r.
    destruct (String.eqb k "__proto__"); [reflexivity|].
    cbn [forallb fst snd]. rewrite andb_true_r.
    destruct (isSensitiveKey toLowerCase additionalFields k); [reflexivity | exact Hv].
Qed.


(** X25: redacting twice is redacting once. *)
Theorem redact_is_idempotent (additionalFields : list string) (obj : Json) :
  redact toLowerCase additionalFields (redact toLowerCase additionalFields obj) = redact toLowerCase additionalFields obj.
Proof.
  induction obj as [| |b|n|s|items IH|fields IH] using Json_nested_ind; try reflexivity.
  - cbn [redact]. f_equal. rewrite map_map.
    induction IH as [|x xs Hx _ IHxs]; [reflexivity|].
    cbn [map]. now rewrite Hx, IHxs.
  - rewrite !redact_JObj. f_equal.
    induction IH as [|[k v] fs Hv _ IHfs]; [reflexivity|].
    cbn [flat_map fst snd] in *. rewrite flat_map_app, IHfs. f_equal.
    destruct (String.eqb k "__proto__") eqn:Hk; [reflexivity|].
    cbn [flat_map fst snd]. rewrite Hk, app_nil_r. f_equal. f_equal.
    destruct (isSensitiveKey toLowerCase additionalFields k); [reflexivity | exact Hv].
Qed.

(** X26: the list entries [apiKey] and [creditCard] are compared with
    the lower-cased key, which they never equal nor contain: a value
    under a key spelled apiKey or creditCard, in any capitalisation,
    passes through [redact] as it is unless the caller names the field
    in [additionalFields]; under [api_key] or [credit_card] it is
    redacted. *)
Theorem camel_case_defaults_do_not_match (key : string) :
  toLowerCase key = "apikey"%string \/ toLowerCase key = "creditcard"%string ->
  isSensitiveKey toLowerCase [] key = false /\
  isSensitiveKey toLowerCase [key] key = true /\
  (forall secret : string,
      redact toLowerCase [] (JObj [(key, JStr secret)]) = JObj [(key, JStr secret)] /\
      redact toLowerCase [] (JObj [("api_key"%string, JStr secret); ("credit_card"%string, JStr secret)])
      = JObj [("api_key"%string, JStr REDACTED); ("credit_card"%string, JStr REDACTED)]).
Proof.
  intros Hkey.
  assert (Hoff : isSensitiveKey toLowerCase [] key = false).
  { unfold isSensitiveKey. destruct Hkey as [-> | ->]; vm_compute; reflexivity. }
  assert (Hproto : String.eqb key "__proto__" = false).
  { destruct (String.eqb_spec key "__proto__") as [->|]; [|reflexivity].
    rewrite (toLowerCase_ascii "__proto__" eq_refl) in Hkey.
    destruct Hkey as [H | H]; vm_compute in H; discriminate H. }
  split; [exact Hoff|]. split.
  - unfold isSensitiveKey, sensitiveSet. cbn [map]. rewrite existsb_app. cbn [existsb].
    rewrite String.eqb_refl. cbn [orb]. now rewrite orb_true_r.
  - intros secret. split.
    + rewrite redact_JObj. cbn [flat_map fst snd app]. now rewrite Hproto, Hoff.
    + rewrite redact_JObj. cbn [flat_map fst snd app].
      unfold isSensitiveKey.
      rewrite (toLowerCase_ascii "api_key" eq_refl), (toLowerCase_ascii "credit_card" eq_refl).
      reflexivity.
Qed.

(** ** [redactHeaders] *)

Lemma record_set_In_inv (key value k v : string) (r : StringRecord) :
  In (k, v) (record_set key value r) -> (k = key /\ v = value) \/ In (k, v) r.
Proof.
  induction r as [|[k0 v0] r IH]; cbn.
  - intros [H | []]. injection H as <- <-. now left.
  - destruct (String.eqb_spec k0 key) as [->|Hne]; cbn.
    + intros [H | H]; [injection H as <- <-; now left | right; now right].
    + intros [H | H]; [right; now left|]. destruct (IH H) as [? | ?]; [now left | right; now right].
Qed.

Lemma record_set_has_key (key value : string) (r : StringRecord) :
  forall k, (k = key \/ In k (map fst r)) -> In k (map fst (record_set key value r)).
Proof.
  induction r as [|[k0 v0] r IH]; cbn; intros k.
  - intros [-> | []]. now left.
  - destruct (String.eqb_spec k0 key) as [->|Hne]; cbn.
    + intros [-> | [<- | H]]; [now left | now left | now right].
    + intros [-> | [<- | H]]; [right | now left | right]; apply IH; tauto.
Qed.

Lemma record_assign_In_inv (key value k v : string) (r : StringRecord) :
  In (k, v) (record_assign key value r) -> (k = key /\ v = value) \/ In (k, v) r.
Proof.
  unfold record_assign. destruct (String.eqb key "__proto__"); [now right|].
  apply record_set_In_inv.
Qed.

Lemma record_assign_has_key (key value : string) (r : StringRecord) :
  forall k, ((k = key /\ k <> "__proto__"%string) \/ In k (map fst r)) ->
            In k (map fst (record_assign key value r)).
Proof.
  intros k Hk. unfold record_assign.
  destruct (String.eqb_spec key "__proto__") as [->|Hne].
  - destruct Hk as [[-> H] | H]; [now contradict H | exact H].
  - apply record_set_has_key. tauto.
Qed.

(** X27: in the record [redactHeaders] returns, every header whose
    name is one of the six sensitive ones in any capitalisation reads
    [REDACTED]; every other header has a value the input had under
    that name; and no header name of the input other than [__proto__]
    is missing. *)
Theorem redactHeaders_hides_credentials (headers : HeadersOrRecord) :
  let entries :=
    match headers with
    | OfHeaders h => Headers_entries h
    | OfRecord r => r
    end in
  let sensitive (name : string) := existsb (String.eqb (toLowerCase name)) sensitiveHeaders in
  (forall name value,
      In (name, value) (redactHeaders toLowerCase headers) ->
      if sensitive name then value = REDACTED else In (name, value) entries) /\
  (forall name, In name (map fst entries) -> name <> "__proto__"%string ->
                In name (map fst (redactHeaders toLowerCase headers))) /\
  (forall value, ~ In ("__proto__"%string, value) (redactHeaders toLowerCase headers)).
Proof.
  cbv zeta. unfold redactHeaders.
  set (entries := match headers with
                  | OfHeaders h => Headers_entries h
                  | OfRecord r => r
                  end).
  set (step := fun (result : StringRecord) (kv : string * string) =>
                 record_assign (fst kv)
                   (if existsb (String.eqb (toLowerCase (fst kv))) sensitiveHeaders
                    then REDACTED else snd kv) result).
  assert (Hgen : forall (todo : list (string * string)) (acc : StringRecord),
             ((forall name value,
                  In (name, value) acc ->
                  if existsb (String.eqb (toLowerCase name)) sensitiveHeaders
                  then value = REDACTED else In (name, value) entries) ->
              (forall kv, In kv todo -> In kv entries) ->
              forall name value,
                In (name, value) (fold_left step todo acc) ->
                if existsb (String.eqb (toLowerCase name)) sensitiveHeaders
                then value = REDACTED else In (name, value) entries) /\
             (forall name, In name (map fst acc) \/
                           (In name (map fst todo) /\ name <> "__proto__"%string) ->
                           In name (map fst (fold_left step todo acc))) /\
             ((forall value, ~ In ("__proto__"%string, value) acc) ->
              forall value, ~ In ("__proto__"%string, value) (fold_left step todo acc))).
  { induction todo as [|[k v] todo IH]; intros acc.
    - split; [intros Hacc _ name value Hin; now apply Hacc|]. split.
      + cbn. intros name [H | [[] _]]. exact H.
      + intros Hacc. exact Hacc.
    - cbn [fold_left]. destruct (IH (step acc (k, v))) as (IH1 & IH2 & IH3). split; [|split].
      + intros Hacc Htodo. apply IH1; [|intros kv Hkv; apply Htodo; now right].
        intros name value Hin. unfold step in Hin. cbn [fst snd] in Hin.
        apply record_assign_In_inv in Hin as [[-> ->] | Hin]; [|now apply Hacc].
        destruct (existsb (String.eqb (toLowerCase k)) sensitiveHeaders); [reflexivity|].
        apply Htodo. now left.
      + intros name Hname. apply IH2. unfold step. cbn [fst snd map] in *.
        destruct Hname as [H | [[<- | H] Hne]].
        * left. apply record_assign_has_key. now right.
        * left. apply record_assign_has_key. left. now split.
        * right. now split.
      + intros Hacc. apply IH3. intros value Hin. unfold step in Hin. cbn [fst snd] in Hin.
        unfold record_assign in Hin.
        destruct (String.eqb_spec k "__proto__") as [->|Hne]; [now apply (Hacc value)|].
        apply record_set_In_inv in Hin as [[E _] | Hin]; [now apply Hne | now apply (Hacc value)]. }
  split; [|split].
  - intros name value Hin. destruct (Hgen entries []) as [H _].
    apply H; [intros ? ? [] | auto | exact Hin].
  - intros name Hin Hne. destruct (Hgen entries []) as (_ & H & _). apply H. right. now split.
  - destruct (Hgen entries []) as (_ & _ & H). apply H. intros ? [].
Qed.

End RedactProperties.


Lemma camel_case_defaults_do_not_match_witness :
  redact lower [] (JObj [("apiKey"%string, JStr "sk-live-1")])
  = JObj [("apiKey"%string, JStr "sk-live-1")].
Proof.
  apply (camel_case_defaults_do_not_match lower (fun s _ => eq_refl) "apiKey" (or_introl eq_refl)).
Defined.

(** ** Validation that passes *)

(** X28: step 5 passes exactly when no configured slot fails; the
    input it hands on then holds, slot by slot, the output of the
    schema (what the schema parsed, not what the request sent), and the
    raw value where no schema is configured. *)
Theorem validation_passes_with_parsed_input (TContext TResult : Type)
    (input : PipelineInput TContext TResult) (w3 w4 : World) (raw : RawInput) :
  getRawInput input w3 = (Ok raw, w4) ->
  let validation := opt_validation (options input) in
  let schemaOf (slot : ValidationConfig -> option Schema) :=
    match validation with
    | Some v => slot v
    | None => None
    end in
  (firstFailingSlot validation raw = None <->
   exists validated, stepValidateInput input w3 = (Ok validated, w4)) /\
  (firstFailingSlot validation raw = None ->
   stepValidateInput input w3 =
   (Ok {| input_params := parsedSlot (schemaOf validation_params) (input_params raw);
          input_query := parsedSlot (schemaOf validation_query) (input_query raw);
          input_body := parsedSlot (schemaOf validation_body) (input_body raw) |}, w4)).
Proof.
  intros Hraw. cbv zeta.
  assert (Hpass : firstFailingSlot (opt_validation (options input)) raw = None ->
            stepValidateInput input w3 =
            (Ok {| input_params :=
                     parsedSlot (match opt_validation (options input) with
                                 | Some v => validation_params v
                                 | None => None
                                 end) (input_params raw);
                   input_query :=
                     parsedSlot (match opt_validation (options input) with
                                 | Some v => validation_query v
                                 | None => None
                                 end) (input_query raw);
                   input_body :=
                     parsedSlot (match opt_validation (options input) with
                                 | Some v => validation_body v
                                 | None => None
                                 end) (input_body raw) |}, w4)).
  { intros Hnone. unfold stepValidateInput. unfold bind at 1. rewrite Hraw.
    unfold firstFailingSlot in Hnone. unfold slotSchema, parsedSlot.
    destruct (opt_validation (options input)) as [v|]; [|reflexivity].
    unfold bind, validateSlot, validateSchema, ret.
    destruct (validation_params v) as [sp|];
      [destruct (sp (input_params raw)) as [dp|ip]; [|discriminate]|];
      (destruct (validation_query v) as [sq|];
       [destruct (sq (input_query raw)) as [dq|iq]; [|discriminate]|]);
      (destruct (validation_body v) as [sb|];
       [destruct (sb (input_body raw)) as [db|ib]; [|discriminate]|]);
      reflexivity. }
  split; [|exact Hpass].
  split; [intros Hnone; eexists; now apply Hpass|].
  intros (validated & Hok).
  destruct (firstFailingSlot (opt_validation (options input)) raw) as [[slot issues]|] eqn:E;
    [|reflexivity].
  rewrite (stepValidateInput_first_failure input w3 w4 raw slot issues Hraw E) in Hok.
  discriminate.
Qed.

Lemma validation_passes_with_parsed_input_witness :
  firstFailingSlot (opt_validation (options Scenarios.unwiredInput))
    {| input_params := JObj []; input_query := JObj []; input_body := JUndefined |} = None <->
  exists validated,
    stepValidateInput Scenarios.unwiredInput Scenarios.world0 = (Ok validated, Scenarios.world0).
Proof.
  apply (validation_passes_with_parsed_input _ _ Scenarios.unwiredInput Scenarios.world0
           Scenarios.world0
           {| input_params := JObj []; input_query := JObj []; input_body := JUndefined |}).
  reflexivity.
Defined.

(** ** wrapper/error-handler.ts and the error converter of the routes *)

(** X29: [handleError] and the [onError] of the routes turn an error
    into the same response, for a request id that is not empty: the
    body, the status and the headers agree for an [ApiError] as for
    anything else thrown. *)
Theorem error_converters_agree (globalT : ResponseTransformers)
    (instanceTransformers : option ResponseTransformers) (logger : bool) (error : Thrown)
    (requestId : string) (w : World) :
  requestId <> EmptyString ->
  fst (handleError globalT error logger instanceTransformers (Some requestId) w) =
  fst (ApiResultHandlers.onError globalT
         (getEffectiveTransformers globalT instanceTransformers) logger error requestId w).
Proof.
  intros Hid. unfold handleError, ApiResultHandlers.onError.
  destruct (String.eqb_spec requestId EmptyString) as [E|_]; [contradiction|].
  destruct error as [e|name msg|v]; reflexivity.
Qed.

Lemma error_converters_agree_witness :
  fst (handleError defaultTransformers Scenarios.serviceUnavailable true None (Some "gen-1")
         Scenarios.world0) =
  fst (ApiResultHandlers.onError defaultTransformers
         (getEffectiveTransformers defaultTransformers None) true Scenarios.serviceUnavailable
         "gen-1" Scenarios.world0).
Proof.
  apply (error_converters_agree defaultTransformers None true Scenarios.serviceUnavailable
           "gen-1" Scenarios.world0).
  discriminate.
Defined.
